(** * Coverage indicators for the indigenous health districts (DSEI)

    A shallow embedding of the analysis scripts
    [prenatal_ultrassonografia.py], [ultrassons.py],
    [analise_gap_tecnologico.py], [graficos_cobertura_prenatal.py],
    [prenatal_mortalidade.py] and [mapa_desigualdades.py].

    The scripts are pandas pipelines: header discovery by substring,
    [groupby(...).agg('sum')], a ratio of two summed columns,
    [sort_values(...).head(n)], [merge] and [pivot].  Each pandas call
    is modelled by a function on lists of typed rows; what the call does
    with missing cells (NaN) and with division by zero is written out. *)

From Stdlib Require Import Ascii String.
From Stdlib Require Import ZArith NArith QArith Qcanon List Bool.
From Stdlib Require Import Permutation Sorted Lia Arith Floats.
Import ListNotations.
Import Init.Datatypes.
Close Scope Qc_scope.
Close Scope Q_scope.

Set Warnings "-inexact-float".

(** ** Python strings

    A [str] is a sequence of Unicode code points.  The case and
    decomposition tables below cover U+0000..U+00FF (Basic Latin and
    Latin-1 Supplement), the repertoire of the Portuguese headers; code
    points outside it are left as they are. *)

Module Py.

Definition str := list N.

(** An ASCII literal as a [str]. *)
Definition lit (s : string) : str :=
  map N_of_ascii (list_ascii_of_string s).

(** [str.lower()], one code point. *)
Definition lower_cp (c : N) : N :=
  if ((65 <=? c) && (c <=? 90))%N then (c + 32)%N
  else if ((192 <=? c) && (c <=? 222) && negb (c =? 215))%N then (c + 32)%N
  else c.

Definition lower (s : str) : str := map lower_cp s.

(** The code points [str.strip()] removes ([str.isspace]). *)
Definition isspace (c : N) : bool :=
  (((9 <=? c) && (c <=? 13)) || ((28 <=? c) && (c <=? 32))
   || (c =? 133) || (c =? 160) || (c =? 5760)
   || ((8192 <=? c) && (c <=? 8202))
   || (c =? 8232) || (c =? 8233) || (c =? 8239) || (c =? 8287)
   || (c =? 12288))%N.

Fixpoint lstrip (s : str) : str :=
  match s with
  | c :: s' => if isspace c then lstrip s' else s
  | [] => []
  end.

Definition rstrip (s : str) : str := rev (lstrip (rev s)).

Definition strip (s : str) : str := rstrip (lstrip s).

(** [s.replace(old, new)] for one-character [old] and [new]. *)
Definition replace (old new : N) (s : str) : str :=
  map (fun c => if (c =? old)%N then new else c) s.

(** [unicodedata.normalize('NFKD', c)] for one code point. *)
Definition nfkd_cp (c : N) : str :=
  match c with
  | 160 => [32] | 168 => [32; 776] | 170 => [97] | 175 => [32; 772]
  | 178 => [50] | 179 => [51] | 180 => [32; 769] | 181 => [956]
  | 184 => [32; 807] | 185 => [49] | 186 => [111]
  | 188 => [49; 8260; 52] | 189 => [49; 8260; 50] | 190 => [51; 8260; 52]
  | 192 => [65; 768] | 193 => [65; 769] | 194 => [65; 770]
  | 195 => [65; 771] | 196 => [65; 776] | 197 => [65; 778]
  | 199 => [67; 807]
  | 200 => [69; 768] | 201 => [69; 769] | 202 => [69; 770] | 203 => [69; 776]
  | 204 => [73; 768] | 205 => [73; 769] | 206 => [73; 770] | 207 => [73; 776]
  | 209 => [78; 771]
  | 210 => [79; 768] | 211 => [79; 769] | 212 => [79; 770]
  | 213 => [79; 771] | 214 => [79; 776]
  | 217 => [85; 768] | 218 => [85; 769] | 219 => [85; 770] | 220 => [85; 776]
  | 221 => [89; 769]
  | 224 => [97; 768] | 225 => [97; 769] | 226 => [97; 770]
  | 227 => [97; 771] | 228 => [97; 776] | 229 => [97; 778]
  | 231 => [99; 807]
  | 232 => [101; 768] | 233 => [101; 769] | 234 => [101; 770] | 235 => [101; 776]
  | 236 => [105; 768] | 237 => [105; 769] | 238 => [105; 770] | 239 => [105; 776]
  | 241 => [110; 771]
  | 242 => [111; 768] | 243 => [111; 769] | 244 => [111; 770]
  | 245 => [111; 771] | 246 => [111; 776]
  | 249 => [117; 768] | 250 => [117; 769] | 251 => [117; 770] | 252 => [117; 776]
  | 253 => [121; 769] | 255 => [121; 776]
  | _ => [c]
  end%N.

Definition normalize_NFKD (s : str) : str := flat_map nfkd_cp s.

(** [s.encode('ascii', errors='ignore').decode('utf-8')]: the code
    points above U+007F are dropped. *)
Definition encode_ascii_ignore (s : str) : str :=
  filter (fun c => (c <? 128)%N) s.

Fixpoint eqb (a b : str) : bool :=
  match a, b with
  | [], [] => true
  | x :: a', y :: b' => (x =? y)%N && eqb a' b'
  | _, _ => false
  end.

Fixpoint startswith (p s : str) : bool :=
  match p, s with
  | [], _ => true
  | x :: p', y :: s' => (x =? y)%N && startswith p' s'
  | _ :: _, [] => false
  end.

(** [p in s] on strings: [p] occurs in [s] as a substring. *)
Fixpoint contains (p s : str) : bool :=
  startswith p s ||
  match s with
  | [] => false
  | _ :: s' => contains p s'
  end.

(** [a < b] on strings: lexicographic on code points. *)
Fixpoint ltb (a b : str) : bool :=
  match a, b with
  | _, [] => false
  | [], _ :: _ => true
  | x :: a', y :: b' => (x <? y)%N || ((x =? y)%N && ltb a' b')
  end.

(** UTF-8 bytes as code points (sequences of up to three bytes). *)
Fixpoint utf8_decode (bs : list N) : str :=
  match bs with
  | [] => []
  | b :: bs1 =>
      if (b <? 128)%N then b :: utf8_decode bs1
      else
        match bs1 with
        | [] => []
        | b2 :: bs2 =>
            if (b <? 224)%N
            then ((b - 192) * 64 + (b2 - 128))%N :: utf8_decode bs2
            else
              match bs2 with
              | [] => []
              | b3 :: bs3 =>
                  ((b - 224) * 4096 + (b2 - 128) * 64 + (b3 - 128))%N
                  :: utf8_decode bs3
              end
        end
  end.

(** A string literal of the scripts, which are UTF-8 files, as a
    [str]. *)
Definition utf8 (s : string) : str := utf8_decode (lit s).

End Py.

Abbreviation str := Py.str.

Definition ordinal_o : N := 186.     (* U+00BA *)
Definition geq_sign : N := 8805.     (* U+2265 *)

(** ** Numbers

    pandas keeps the ratios in float64 columns.  The scripts are written
    once over the operations they use; [binary64] runs them on IEEE 754
    doubles as pandas does, [exact] runs them on rationals extended with
    the two infinities and NaN (no rounding, no signed zero). *)

Class Num := {
  num : Type;
  of_int : Z -> num;            (* int64 -> float64 *)
  NaN : num;
  add : num -> num -> num;
  sub : num -> num -> num;
  mul : num -> num -> num;
  div : num -> num -> num;
  neg : num -> num;
  isna : num -> bool;           (* pd.isna *)
  lt : num -> num -> bool;      (* < on floats: false on NaN *)
  eq : num -> num -> bool       (* == on floats: false on NaN *)
}.

(** The double nearest to an integer (ties to even). *)
Definition Z2float (z : Z) : float :=
  SF2Prim (binary_normalize prec emax z 0 false).

#[export] Instance binary64 : Num := {|
  num := float;
  of_int := Z2float;
  NaN := nan;
  add := PrimFloat.add;
  sub := PrimFloat.sub;
  mul := PrimFloat.mul;
  div := PrimFloat.div;
  neg := PrimFloat.opp;
  isna := PrimFloat.is_nan;
  lt := PrimFloat.ltb;
  eq := PrimFloat.eqb
|}.

Module Exact.

Local Open Scope Qc_scope.

Inductive t := Fin (q : Qc) | PInf | NInf | Undef.

Definition is_zero (q : Qc) : bool := Qeq_bool q 0.
Definition is_neg (q : Qc) : bool := negb (Qle_bool 0 q).
Definition inf (negative : bool) : t := if negative then NInf else PInf.

Definition opp (x : t) : t :=
  match x with
  | Fin q => Fin (- q)
  | PInf => NInf
  | NInf => PInf
  | Undef => Undef
  end.

Definition add (x y : t) : t :=
  match x, y with
  | Undef, _ | _, Undef => Undef
  | Fin a, Fin b => Fin (a + b)
  | PInf, NInf | NInf, PInf => Undef
  | PInf, _ | _, PInf => PInf
  | NInf, _ | _, NInf => NInf
  end.

Definition sub (x y : t) : t :=
  match x, y with
  | Undef, _ | _, Undef => Undef
  | Fin a, Fin b => Fin (a - b)
  | PInf, PInf | NInf, NInf => Undef
  | PInf, _ | _, NInf => PInf
  | NInf, _ | _, PInf => NInf
  end.

Definition mul (x y : t) : t :=
  match x, y with
  | Undef, _ | _, Undef => Undef
  | Fin a, Fin b => Fin (a * b)
  | Fin a, PInf | PInf, Fin a => if is_zero a then Undef else inf (is_neg a)
  | Fin a, NInf | NInf, Fin a => if is_zero a then Undef else inf (negb (is_neg a))
  | PInf, PInf | NInf, NInf => PInf
  | PInf, NInf | NInf, PInf => NInf
  end.

Definition div (x y : t) : t :=
  match x, y with
  | Undef, _ | _, Undef => Undef
  | Fin a, Fin b =>
      if is_zero b then (if is_zero a then Undef else inf (is_neg a))
      else Fin (a / b)
  | Fin _, _ => Fin 0
  | PInf, Fin b => inf (is_neg b)
  | NInf, Fin b => inf (negb (is_neg b))
  | _, _ => Undef
  end.

Definition isna (x : t) : bool :=
  match x with Undef => true | _ => false end.

Definition ltb (x y : t) : bool :=
  match x, y with
  | Undef, _ | _, Undef => false
  | Fin a, Fin b => negb (Qle_bool b a)
  | NInf, NInf | PInf, _ | Fin _, NInf => false
  | NInf, _ | Fin _, PInf => true
  end.

Definition eqb (x y : t) : bool :=
  match x, y with
  | Fin a, Fin b => Qeq_bool a b
  | PInf, PInf | NInf, NInf => true
  | _, _ => false
  end.

Definition of_Z (z : Z) : t := Fin (Q2Qc (inject_Z z)).


End Exact.

#[export] Instance exact : Num := {|
  num := Exact.t;
  of_int := Exact.of_Z;
  NaN := Exact.Undef;
  add := Exact.add;
  sub := Exact.sub;
  mul := Exact.mul;
  div := Exact.div;
  neg := Exact.opp;
  isna := Exact.isna;
  lt := Exact.ltb;
  eq := Exact.eqb
|}.

(** Two cells hold the same value: both are NaN, or they compare equal
    (on doubles [0.0 == -0.0]). *)
Definition same `{Num} (x y : num) : bool :=
  (isna x && isna y) || eq x y.

(** [series.fillna(0)], one cell. *)
Definition fillna0 `{Num} (x : num) : num :=
  if isna x then of_int 0 else x.

(** ** pandas

    Cells of a count column are [option Z]: [None] is a blank (NaN)
    cell.  The counts are numbers of people, far below 2^53, so int64
    and float64 columns hold their sums without rounding or wrap-around
    and [Z] stands for both.  A district cell is [option str]. *)

Inductive exn := IndexError | KeyError | TypeError | ValueError.

Definition result (A : Type) : Type := exn + A.

Class Key (K : Type) := {
  keqb : K -> K -> bool;
  kltb : K -> K -> bool
}.

#[export] Instance str_key : Key str := {| keqb := Py.eqb; kltb := Py.ltb |}.

#[export] Instance Z_key : Key Z := {| keqb := Z.eqb; kltb := Z.ltb |}.

(** Tuples of keys compare lexicographically, as Python tuples do. *)
#[export] Instance pair_key {A B} `{Key A} `{Key B} : Key (A * B) := {|
  keqb := fun x y => keqb (fst x) (fst y) && keqb (snd x) (snd y);
  kltb := fun x y =>
    kltb (fst x) (fst y) || (keqb (fst x) (fst y) && kltb (snd x) (snd y))
|}.

(** A join key that may be missing: [merge] matches a missing key with
    a missing key. *)
#[export] Instance option_key {A} `{Key A} : Key (option A) := {|
  keqb := fun x y =>
    match x, y with
    | Some a, Some b => keqb a b
    | None, None => true
    | _, _ => false
    end;
  kltb := fun x y =>
    match x, y with
    | Some a, Some b => kltb a b
    | Some _, None => true
    | _, _ => false
    end
|}.

Module Pd.

(** [series.sum()]: blank cells are skipped; an empty or all-blank
    column sums to 0. *)
Definition cell (c : option Z) : Z :=
  match c with Some z => z | None => 0%Z end.

Fixpoint sum (col : list (option Z)) : Z :=
  match col with
  | [] => 0
  | c :: col' => cell c + sum col'
  end%Z.

(** The sum of an int64 column (one without blank cells): numpy adds
    the cells one after the other, each addition wrapping around modulo
    2^64. *)
Definition wrap (z : Z) : Z := ((z + 2 ^ 63) mod 2 ^ 64 - 2 ^ 63)%Z.

Definition sum_int64 (col : list Z) : Z :=
  fold_left (fun acc c => wrap (acc + c)) col 0%Z.

Section GroupBy.
Context {K : Type} `{Key K}.

Fixpoint insert_key (k : K) (l : list K) : list K :=
  match l with
  | [] => [k]
  | x :: l' =>
      if kltb k x then k :: l
      else if keqb k x then l
      else x :: insert_key k l'
  end.

(** The group keys of [df.groupby(by)]: the distinct keys in ascending
    order ([sort=True]); rows whose key is missing form no group
    ([dropna=True]). *)
Fixpoint group_keys (keys : list (option K)) : list K :=
  match keys with
  | [] => []
  | Some k :: keys' => insert_key k (group_keys keys')
  | None :: keys' => group_keys keys'
  end.

Definition in_group (k : K) (c : option K) : bool :=
  match c with Some k' => keqb k' k | None => false end.

(** [df.groupby(by).agg(...).reset_index()]: one row per group key,
    [agg] applied to the rows of the group in their input order. *)
Definition groupby {R S : Type} (by_ : R -> option K) (agg : list R -> S)
    (df : list R) : list (K * S) :=
  map (fun k => (k, agg (filter (fun r => in_group k (by_ r)) df)))
      (group_keys (map by_ df)).

(** [left.merge(right, on=key)], [how='inner']: for each left row in
    order, one output row per right row with the same key. *)
Definition merge {A B : Type} (left : list (K * A)) (right : list (K * B))
    : list (K * (A * B)) :=
  flat_map (fun l =>
      map (fun r => (fst l, (snd l, snd r)))
          (filter (fun r => keqb (fst r) (fst l)) right))
    left.

(** [how='left']: a left row without a partner is kept, its right
    columns blank. *)
Definition merge_left {A B : Type} (left : list (K * A)) (right : list (K * B))
    : list (K * (A * option B)) :=
  flat_map (fun l =>
      match filter (fun r => keqb (fst r) (fst l)) right with
      | [] => [(fst l, (snd l, None))]
      | rs => map (fun r => (fst l, (snd l, Some (snd r)))) rs
      end)
    left.

Definition lookup {A : Type} (k : K) (t : list (K * A)) : option A :=
  match filter (fun r => keqb (fst r) k) t with
  | r :: _ => Some (snd r)
  | [] => None
  end.

End GroupBy.

Definition head {R : Type} (n : nat) (df : list R) : list R := firstn n df.

Definition tail {R : Type} (n : nat) (df : list R) : list R :=
  skipn (length df - n) df.

End Pd.

(** ** numpy: [argsort], [kind='quicksort']

    [sort_values] passes its default [kind='quicksort'] on to
    [ndarray.argsort].  This is the scalar kernel of numpy
    (npysort/quicksort: [aquicksort], [aheapsort]): an introsort on an
    array of row positions.  Segments longer than 17 are partitioned
    around a median of three, shorter ones are insertion sorted, and a
    segment taken from the stack with its depth budget used up is heap
    sorted.  A segment of the position array is a [list nat]. *)

Module Np.

Section Kernel.
Context `{Num}.
Variable v : list num.

(** [v[i] < v[j]] *)
Definition LT (i j : nat) : bool := lt (nth i v NaN) (nth j v NaN).

Definition get (a : list nat) (i : nat) : nat := nth i a 0%nat.

Fixpoint set (a : list nat) (i x : nat) : list nat :=
  match a, i with
  | [], _ => []
  | _ :: a', O => x :: a'
  | y :: a', S i' => y :: set a' i' x
  end.

Definition swap (a : list nat) (i j : nat) : list nat :=
  set (set a i (get a j)) j (get a i).

Definition SMALL_QUICKSORT : nat := 16.

(** The inner loop of the insertion sort: [vi] moves left past every
    position whose key is greater.  The sorted prefix is held reversed. *)
Fixpoint insert_back (vi : nat) (rprefix : list nat) : list nat :=
  match rprefix with
  | e :: rest => if LT vi e then e :: insert_back vi rest else vi :: rprefix
  | [] => [vi]
  end.

Definition insertion_sort (a : list nat) : list nat :=
  rev (fold_left (fun rprefix vi => insert_back vi rprefix) a []).

(** Median of three: orders [a[0]], [a[pm]], [a[pr]]. *)
Definition median3 (a : list nat) (pm pr : nat) : list nat :=
  let a := if LT (get a pm) (get a 0) then swap a pm 0 else a in
  let a := if LT (get a pr) (get a pm) then swap a pr pm else a in
  if LT (get a pm) (get a 0) then swap a pm 0 else a.

(** [do ++pi; while (v[*pi] < vp)], entered with [pi] already advanced;
    [p] is the row position of the pivot. *)
Fixpoint scan_up (fuel : nat) (a : list nat) (p pi : nat) : nat :=
  match fuel with
  | O => pi
  | S fuel' => if LT (get a pi) p then scan_up fuel' a p (S pi) else pi
  end.

(** [do --pj; while (vp < v[*pj])] *)
Fixpoint scan_down (fuel : nat) (a : list nat) (p pj : nat) : nat :=
  match fuel with
  | O => pj
  | S fuel' => if LT p (get a pj) then scan_down fuel' a p (pj - 1) else pj
  end.

Fixpoint hoare (fuel : nat) (a : list nat) (p pi pj : nat) : list nat * nat :=
  match fuel with
  | O => (a, pi)
  | S fuel' =>
      let pi := scan_up (length a) a p (S pi) in
      let pj := scan_down (length a) a p (pj - 1) in
      if (pj <=? pi)%nat then (a, pi)
      else hoare fuel' (swap a pi pj) p pi pj
  end.

(** One partition step on the segment [a]: the part left of the pivot,
    the pivot, the part right of it. *)
Definition partition (a : list nat) : list nat * nat * list nat :=
  let pr := (length a - 1)%nat in
  let pm := Nat.div2 pr in
  let a := median3 a pm pr in
  let p := get a pm in
  let a := swap a pm (pr - 1) in
  let '(a, pi) := hoare (length a) a p 0 (pr - 1) in
  let a := swap a pi (pr - 1) in
  (firstn pi a, get a pi, skipn (S pi) a).

(** Heap sort; [i], [j], [n] count from 1 as in the C code. *)
Definition get1 (a : list nat) (i : nat) : nat := get a (i - 1).
Definition set1 (a : list nat) (i x : nat) : list nat := set a (i - 1) x.

Fixpoint sift (fuel : nat) (a : list nat) (tmp i n : nat) : list nat :=
  match fuel with
  | O => set1 a i tmp
  | S fuel' =>
      let j := (2 * i)%nat in
      if (n <? j)%nat then set1 a i tmp
      else
        let j := if (j <? n)%nat && LT (get1 a j) (get1 a (S j))
                 then S j else j in
        if LT tmp (get1 a j)
        then sift fuel' (set1 a i (get1 a j)) tmp j n
        else set1 a i tmp
  end.

Fixpoint heapify (l : nat) (a : list nat) : list nat :=
  match l with
  | O => a
  | S l' => heapify l' (sift (length a) a (get1 a l) l (length a))
  end.

Fixpoint extract (n : nat) (a : list nat) : list nat :=
  match n with
  | O => a
  | S n' =>
      match n' with
      | O => a
      | S _ =>
          let tmp := get1 a n in
          let a := set1 a n (get1 a 1) in
          extract n' (sift (length a) a tmp 1 n')
      end
  end.

Definition aheapsort (a : list nat) : list nat :=
  extract (length a) (heapify (Nat.div2 (length a)) a).

(** The outer loop.  [popped] tells a segment that comes off the stack
    (its depth is checked) from the one the partition loop goes on
    with; the smaller part is always the one continued. *)
Fixpoint introsort (fuel : nat) (popped : bool) (cdepth : Z) (a : list nat)
    : list nat :=
  match fuel with
  | O => a
  | S fuel' =>
      if popped && (cdepth <? 0)%Z then aheapsort a
      else if (SMALL_QUICKSORT <? length a - 1)%nat then
        let '(l, p, r) := partition a in
        let d := (cdepth - 1)%Z in
        if (length l <? length r)%nat
        then introsort fuel' false d l ++ p :: introsort fuel' true d r
        else introsort fuel' true d l ++ p :: introsort fuel' false d r
      else insertion_sort a
  end.

Definition aquicksort (tosort : list nat) : list nat :=
  let num_ := length tosort in
  introsort (S num_) true (2 * Z.log2 (Z.of_nat num_)) tosort.

End Kernel.

(** [v.argsort(kind='quicksort')] *)
Definition argsort `{Num} (v : list num) : list nat :=
  aquicksort v (seq 0 (length v)).

End Np.

(** ** [DataFrame.sort_values]

    pandas.core.sorting.nargsort: the NaN keys are set aside, the others
    are argsorted (for [ascending=False] reversed before and after) and
    the NaN rows are appended ([na_position='last']).  The sort kernel
    is a parameter. *)

Section SortValues.
Context `{Num}.
Variable kernel : list num -> list nat.

Definition nargsort (items : list num) (ascending : bool) : list nat :=
  let idx := seq 0 (length items) in
  let mask := fun i => isna (nth i items NaN) in
  let non_nan_idx := filter (fun i => negb (mask i)) idx in
  let nan_idx := filter mask idx in
  let non_nans := map (fun i => nth i items NaN) non_nan_idx in
  let non_nans := if ascending then non_nans else rev non_nans in
  let non_nan_idx := if ascending then non_nan_idx else rev non_nan_idx in
  let indexer := map (fun j => nth j non_nan_idx 0%nat) (kernel non_nans) in
  let indexer := if ascending then indexer else rev indexer in
  indexer ++ nan_idx.

Definition take {R : Type} (df : list R) (indexer : list nat) : list R :=
  flat_map (fun i => match nth_error df i with Some r => [r] | None => [] end)
           indexer.

Definition sort_values {R : Type} (by_ : R -> num) (ascending : bool)
    (df : list R) : list R :=
  take df (nargsort (map by_ df) ascending).

End SortValues.

(** ** Input tables

    A spreadsheet as [pd.read_excel] returns it: the header row, and for
    each data row the cells of the columns the scripts work on: the
    district, the number of pregnant women, the count of the indicator
    (women with six or more visits, or with access to the ultrasound
    exam) and the year the loader attaches. *)

Record linha := {
  dsei : option str;
  gestantes : option Z;
  contagem : option Z;
  ano : Z
}.

Record DataFrame := {
  columns : list str;
  linhas : list linha
}.

(** A row of the death records: district, live births, maternal deaths,
    infant deaths. *)
Record obito := {
  o_dsei : option str;
  nascidos_vivos : option Z;
  obitos_maternos : option Z;
  obitos_infantis : option Z
}.

(** A grouped table with its ratio column. *)
Record grupo `{Num} := {
  g_dsei : str;
  g_gestantes : Z;
  g_contagem : Z;
  cobertura : num
}.

(** The sums of one group and the rows [groupby(...).agg('sum')] and
    the ratio give. *)
Definition somas (rs : list linha) : Z * Z :=
  (Pd.sum (map gestantes rs), Pd.sum (map contagem rs)).

Definition agrupar (df : list linha) : list (str * (Z * Z)) :=
  Pd.groupby dsei somas df.

Definition razao `{Num} (numerador denominador : Z) : num :=
  div (of_int numerador) (of_int denominador).

(** ** prenatal_ultrassonografia.py *)

Module PrenatalUltrassonografia.

Fixpoint find_column (cols : list str) (patterns : list str) : option str :=
  match patterns with
  | [] => None
  | pattern :: patterns' =>
      match filter (fun col => Py.contains (Py.lower pattern) (Py.lower col))
                   cols with
      | col :: _ => Some col
      | [] => find_column cols patterns'
      end
  end.

Definition dsei_patterns : list str :=
  [Py.lit "dsei"; Py.lit "dsei_gestao"].
Definition gestantes_patterns : list str :=
  [Py.lit "gestante"; Py.lit "n" ++ [ordinal_o] ++ Py.lit " gestantes"].
Definition consultas_patterns : list str :=
  [Py.lit "6 ou mais"; Py.lit "6_ou_mais"; [geq_sign] ++ Py.lit "6"].
Definition ultrassom_patterns : list str :=
  [Py.lit "ultrassom"; Py.lit "acesso ao exame"].

Section Script.
Context `{Num}.
Variable argsort : list num -> list nat.

(** The body shared by [process_prenatal_data] and
    [process_ultrassom_data] once the three columns are found. *)
Definition process (df : list linha) : list grupo :=
  map (fun g =>
         {| g_dsei := fst g;
            g_gestantes := fst (snd g);
            g_contagem := snd (snd g);
            cobertura := fillna0 (razao (snd (snd g)) (fst (snd g))) |})
      (agrupar df).

(** [df.groupby(None)] raises TypeError; a [None] among the aggregated
    columns raises KeyError. *)
Definition resolved (cols : list str) (patterns : list str) : result unit :=
  match find_column cols dsei_patterns,
        find_column cols gestantes_patterns,
        find_column cols patterns with
  | None, _, _ => inl TypeError
  | Some _, Some _, Some _ => inr tt
  | Some _, _, _ => inl KeyError
  end.

Definition process_prenatal_data (df : DataFrame) : result (list grupo) :=
  match resolved (columns df) consultas_patterns with
  | inl e => inl e
  | inr _ => inr (process (linhas df))
  end.

Definition process_ultrassom_data (df : DataFrame) : result (list grupo) :=
  match resolved (columns df) ultrassom_patterns with
  | inl e => inl e
  | inr _ => inr (process (linhas df))
  end.

Definition top5 (data : list grupo) : list grupo :=
  Pd.head 5 (sort_values argsort cobertura false data).

Definition generate_graph (df_prenatal df_ultrassom : DataFrame)
    : result (list grupo) :=
  match process_prenatal_data df_prenatal with
  | inl e => inl e
  | inr prenatal_data =>
      match process_ultrassom_data df_ultrassom with
      | inl e => inl e
      | inr ultrassom_data => inr (top5 prenatal_data ++ top5 ultrassom_data)
      end
  end.

(** The module body: the 2022 chart, then the 2023 chart; nothing
    catches an exception of the first. *)
Definition main (p22 u22 p23 u23 : DataFrame)
    : result (list grupo * list grupo) :=
  match generate_graph p22 u22 with
  | inl e => inl e
  | inr g22 =>
      match generate_graph p23 u23 with
      | inl e => inl e
      | inr g23 => inr (g22, g23)
      end
  end.

End Script.
End PrenatalUltrassonografia.

(** ** ultrassons.py *)

Module Ultrassons.

(** A row after [cobertura] and [cobertura_percentual] are added. *)
Record medida `{Num} := {
  m_dsei : str;
  m_gestantes : Z;
  m_ultrassons : Z;
  m_cobertura : num;
  m_cobertura_percentual : num
}.

Definition has (cols : list str) (name : str) : bool :=
  existsb (Py.eqb name) cols.

(** The headers after [.str.strip().str.lower()] and the renaming of the
    three known names. *)
Definition renamed (cols : list str) : list str :=
  map (fun c =>
         let c := Py.lower (Py.strip c) in
         if Py.eqb c (Py.lit "dsei_gestao") then Py.lit "dsei"
         else if Py.eqb c (Py.lit "n" ++ [ordinal_o] ++ Py.lit " gestantes")
              then Py.lit "gestantes"
         else if Py.eqb c (Py.lit "com acesso ao exame de ultrassom")
              then Py.lit "ultrassons"
         else c)
      cols.

Section Script.
Context `{Num}.
Variable argsort : list num -> list nat.

(** [dropna(subset=['dsei','gestantes','ultrassons'])] followed by
    [df[df['gestantes'] > 0]], then the two ratio columns. *)
Definition validas (df : list linha) : list medida :=
  flat_map (fun r =>
      match dsei r, gestantes r, contagem r with
      | Some d, Some g, Some u =>
          if (0 <? g)%Z then
            let c := razao u g in
            [{| m_dsei := d; m_gestantes := g; m_ultrassons := u;
                m_cobertura := c;
                m_cobertura_percentual := mul c (of_int 100) |}]
          else []
      | _, _, _ => []
      end)
    df.

(** [final_df]: the five highest, then the five lowest.  An exception
    is caught by the function's own [try]/[except] and reported. *)
Definition ultrassom_coverage_analysis (df : DataFrame)
    : result (list medida * list medida) :=
  let cols := renamed (columns df) in
  if has cols (Py.lit "gestantes") && has cols (Py.lit "ultrassons")
     && has cols (Py.lit "dsei")
  then
    let df_ultrassom := validas (linhas df) in
    inr (Pd.head 5 (sort_values argsort m_cobertura false df_ultrassom),
         Pd.head 5 (sort_values argsort m_cobertura true df_ultrassom))
  else inl KeyError.

End Script.

(** The loop of lines 124-131 ([ultrassom_coverage_analysis_2023]): the
    name a header is renamed to; a header that passes no test keeps its
    name. *)
Definition column_mapping (col : str) : str :=
  if Py.contains (Py.lit "dsei") (Py.lower col)
     || Py.contains (Py.lit "distrito") (Py.lower col)
  then Py.lit "dsei"
  else if Py.contains (Py.lit "gestante") (Py.lower col)
  then Py.lit "gestantes"
  else if Py.contains (Py.lit "ultrassom") (Py.lower col)
          || Py.contains (Py.lit "acesso") (Py.lower col)
  then Py.lit "ultrassons"
  else col.

(** The headers of the 2023 table after [.str.strip().str.lower()] and
    the renaming by [column_mapping]. *)
Definition renamed_2023 (cols : list str) : list str :=
  map (fun c => column_mapping (Py.lower (Py.strip c))) cols.

(** The renaming of the 2022 table (lines 38-42) on one header. *)
Definition rename_2022 (c : str) : str :=
  if Py.eqb c (Py.lit "dsei_gestao") then Py.lit "dsei"
  else if Py.eqb c (Py.lit "n" ++ [ordinal_o] ++ Py.lit " gestantes")
  then Py.lit "gestantes"
  else if Py.eqb c (Py.lit "com acesso ao exame de ultrassom")
  then Py.lit "ultrassons"
  else c.

Section Script2023.
Context `{Num}.
Variable argsort : list num -> list nat.

(** [ultrassom_coverage_analysis_2023]: the steps of
    [ultrassom_coverage_analysis] on the headers renamed by
    [column_mapping]. *)
Definition ultrassom_coverage_analysis_2023 (df : DataFrame)
    : result (list medida * list medida) :=
  let cols := renamed_2023 (columns df) in
  if has cols (Py.lit "gestantes") && has cols (Py.lit "ultrassons")
     && has cols (Py.lit "dsei")
  then
    let df_ultrassom := validas (linhas df) in
    inr (Pd.head 5 (sort_values argsort m_cobertura false df_ultrassom),
         Pd.head 5 (sort_values argsort m_cobertura true df_ultrassom))
  else inl KeyError.

End Script2023.

End Ultrassons.

(** ** graficos_cobertura_prenatal.py *)

Module Graficos.

Definition clean_name (c : str) : str :=
  Py.encode_ascii_ignore (Py.normalize_NFKD (Py.replace 32 95 (Py.lower c))).

Definition clean_column_names (df : DataFrame) : DataFrame :=
  {| columns := map clean_name (columns df); linhas := linhas df |}.

(** [[col for col in df.columns if test(col)][0]] *)
Definition first_match (cols : list str) (test : str -> bool) : result str :=
  match filter test cols with
  | col :: _ => inr col
  | [] => inl IndexError
  end.

Definition is_dsei (col : str) : bool :=
  Py.contains (Py.lit "dsei") (Py.lower col).
Definition is_gestantes (col : str) : bool :=
  Py.contains (Py.lit "gestante") (Py.lower col).
Definition is_consultas (col : str) : bool :=
  Py.contains (Py.lit "6_ou_mais") (Py.lower col)
  || Py.contains ([geq_sign] ++ Py.lit "6") (Py.lower col).
Definition is_ano (col : str) : bool :=
  Py.contains (Py.lit "ano") (Py.lower col).

(** The four look-ups every function of the module starts with. *)
Definition resolve (cols : list str) : result (str * str * str * str) :=
  match first_match cols is_dsei with
  | inl e => inl e
  | inr dsei_col =>
  match first_match cols is_gestantes with
  | inl e => inl e
  | inr gestantes_col =>
  match first_match cols is_consultas with
  | inl e => inl e
  | inr consultas_col =>
  match first_match cols is_ano with
  | inl e => inl e
  | inr ano_col => inr (dsei_col, gestantes_col, consultas_col, ano_col)
  end end end end.

(** A row of [pivot_df] with its [variacao] column. *)
Record evolucao `{Num} := {
  e_dsei : str;
  c2022 : num;
  c2023 : num;
  variacao : num
}.

Section Script.
Context `{Num}.
Variable argsort : list num -> list nat.

(** The ratio per year (the formatting of the [média] column is left
    out). *)
Definition gerar_resumo_estatistico (df : DataFrame)
    : result (list (Z * num)) :=
  match resolve (columns df) with
  | inl e => inl e
  | inr _ =>
      inr (map (fun g => (fst g, razao (snd (snd g)) (fst (snd g))))
               (Pd.groupby (fun r => Some (ano r)) somas (linhas df)))
  end.

Definition grouped (df : list linha) : list grupo :=
  map (fun g =>
         {| g_dsei := fst g;
            g_gestantes := fst (snd g);
            g_contagem := snd (snd g);
            cobertura := razao (snd (snd g)) (fst (snd g)) |})
      (agrupar df).

(** [df_final], the table handed to the bar plot. *)
Definition plot_cobertura_prenatal (df_prenatal : DataFrame) (ano_ : Z)
    (tipo : str) : result (list grupo) :=
  match resolve (columns df_prenatal) with
  | inl e => inl e
  | inr _ =>
      let df_filtrado :=
        filter (fun r => (ano r =? ano_)%Z) (linhas df_prenatal) in
      let grouped := grouped df_filtrado in
      if Py.eqb tipo (Py.lit "top")
      then inr (Pd.head 5 (sort_values argsort cobertura false grouped))
      else if Py.eqb tipo (Py.lit "bottom")
      then inr (Pd.head 5 (sort_values argsort cobertura true grouped))
      else inl ValueError
  end.

(** [groupby([dsei_col, ano_col])] and the ratio. *)
Definition por_dsei_ano (df : list linha) : list (str * Z * num) :=
  map (fun g => (fst g, razao (snd (snd g)) (fst (snd g))))
      (Pd.groupby
         (fun r => match dsei r with Some d => Some (d, ano r) | None => None end)
         somas df).

(** One cell of [grouped.pivot(index=dsei_col, columns=ano_col,
    values='cobertura')]: NaN where the district has no row for the
    year. *)
Definition pivot_cell (t : list (str * Z * num)) (d : str) (y : Z) : num :=
  match Pd.lookup (d, y) t with
  | Some c => c
  | None => NaN
  end.

Definition pivot (t : list (str * Z * num)) : list (str * (num * num)) :=
  map (fun d => (d, (pivot_cell t d 2022, pivot_cell t d 2023)))
      (Pd.group_keys (map (fun g => Some (fst (fst g))) t)).

Definition has_year (t : list (str * Z * num)) (y : Z) : bool :=
  existsb (fun g => (snd (fst g) =? y)%Z) t.

(** Lines 182-183: [dropna(subset=[2022, 2023])] and the [variacao]
    column. *)
Definition com_variacao (pivot_df : list (str * (num * num))) : list evolucao :=
  map (fun r =>
         let a := fst (snd r) in
         let b := snd (snd r) in
         {| e_dsei := fst r; c2022 := a; c2023 := b;
            variacao := mul (div (sub b a) a) (of_int 100) |})
      (filter (fun r => negb (isna (fst (snd r))) && negb (isna (snd (snd r))))
              pivot_df).

(** [destaque_dseis]; [None] when one of the two year columns is
    absent and the function does nothing. *)
Definition comparar_evolucao_cobertura (df_prenatal : DataFrame)
    : result (option (list evolucao)) :=
  match resolve (columns df_prenatal) with
  | inl e => inl e
  | inr _ =>
      let grouped := por_dsei_ano (linhas df_prenatal) in
      let pivot_df := pivot grouped in
      if has_year grouped 2022 && has_year grouped 2023 then
        inr (Some (sort_values argsort variacao false (com_variacao pivot_df)))
      else inr None
  end.


(** The year columns of [df_agrupado.pivot(...)]: the years of the
    grouped table in ascending order. *)
Definition anos (t : list (str * Z * num)) : list Z :=
  Pd.group_keys (map (fun g => Some (snd (fst g))) t).

(** [df_agrupado.pivot(index=dsei_col, columns=ano_col,
    values='cobertura').reset_index()]: one row per district, one cell
    per year column. *)
Definition pivot_anos (t : list (str * Z * num)) : list (str * list num) :=
  map (fun d => (d, map (pivot_cell t d) (anos t)))
      (Pd.group_keys (map (fun g => Some (fst (fst g))) t)).

(** [df_pivot.dropna()]: a row with a NaN in any year column goes. *)
Definition dropna (df_pivot : list (str * list num)) : list (str * list num) :=
  filter (fun r => forallb (fun c => negb (isna c)) (snd r)) df_pivot.

(** The cell of the column labelled [y] in a row of the pivot whose
    year columns are [ys]. *)
Fixpoint coluna (ys : list Z) (y : Z) (cells : list num) : num :=
  match ys, cells with
  | y' :: ys', c :: cells' => if (y' =? y)%Z then c else coluna ys' y cells'
  | _, _ => NaN
  end.

(** [df_plot], the table handed to the bar plot.  The test of [tipo]
    comes before the sort; [sort_values(by=2023)] raises KeyError when
    the pivot has no column 2023. *)
Definition plot_comparativo_cobertura (df_prenatal : DataFrame) (tipo : str)
    : result (list (str * Z * num)) :=
  match resolve (columns df_prenatal) with
  | inl e => inl e
  | inr _ =>
      let df_agrupado := por_dsei_ano (linhas df_prenatal) in
      let ys := anos df_agrupado in
      let df_pivot := dropna (pivot_anos df_agrupado) in
      let sorted (ascending : bool) : result (list (str * list num)) :=
        if existsb (Z.eqb 2023) ys
        then inr (sort_values argsort (fun r => coluna ys 2023 (snd r))
                              ascending df_pivot)
        else inl KeyError in
      let selecionados :=
        if Py.eqb tipo (Py.lit "top") then sorted false
        else if Py.eqb tipo (Py.lit "bottom") then sorted true
        else inl ValueError in
      match selecionados with
      | inl e => inl e
      | inr rows =>
          let nomes := map fst (Pd.head 5 rows) in
          inr (filter (fun g => existsb (Py.eqb (fst (fst g))) nomes)
                      df_agrupado)
      end
  end.

End Script.
End Graficos.

(** ** analise_gap_tecnologico.py *)

Module AnaliseGap.

Definition clean_name (c : str) : str :=
  Py.encode_ascii_ignore
    (Py.normalize_NFKD (Py.replace 32 95 (Py.lower (Py.strip c)))).

Definition clean_column_names (df : DataFrame) : DataFrame :=
  {| columns := map clean_name (columns df); linhas := linhas df |}.

(** [df["ano"] = y] *)
Definition com_ano (y : Z) (df : DataFrame) : DataFrame :=
  {| columns :=
       if existsb (Py.eqb (Py.lit "ano")) (columns df) then columns df
       else columns df ++ [Py.lit "ano"];
     linhas :=
       map (fun r => {| dsei := dsei r; gestantes := gestantes r;
                        contagem := contagem r; ano := y |})
           (linhas df) |}.

(** [pd.concat([a, b], ignore_index=True)] *)
Definition concat (a b : DataFrame) : DataFrame :=
  {| columns :=
       columns a
       ++ filter (fun c => negb (existsb (Py.eqb c) (columns a))) (columns b);
     linhas := linhas a ++ linhas b |}.

Definition first_match (cols : list str) (test : str -> bool) : result str :=
  match filter test cols with
  | col :: _ => inr col
  | [] => inl IndexError
  end.

Definition is_dsei (col : str) : bool := Py.contains (Py.lit "dsei") col.
Definition is_gestantes (col : str) : bool :=
  Py.contains (Py.lit "gestante") col.
Definition is_consultas (col : str) : bool :=
  Py.contains (Py.lit "6_ou_mais") col
  || Py.contains ([geq_sign] ++ Py.lit "6") col.
Definition is_ultrassons (col : str) : bool :=
  Py.contains (Py.lit "ultrassom") col
  || Py.contains (Py.lit "ultrassonografia") col.

(** The five look-ups; [df_ultrassom.groupby(dsei_col)] raises KeyError
    when the ultrasound table has no column of that name. *)
Definition resolve (prenatal_cols ultrassom_cols : list str) : result unit :=
  match first_match prenatal_cols is_dsei with
  | inl e => inl e
  | inr dsei_col =>
  match first_match prenatal_cols is_gestantes with
  | inl e => inl e
  | inr _ =>
  match first_match prenatal_cols is_consultas with
  | inl e => inl e
  | inr _ =>
  match first_match ultrassom_cols is_gestantes with
  | inl e => inl e
  | inr _ =>
  match first_match ultrassom_cols is_ultrassons with
  | inl e => inl e
  | inr _ =>
      if existsb (Py.eqb dsei_col) ultrassom_cols then inr tt
      else inl KeyError
  end end end end end.

Record gap_row `{Num} := {
  gap_dsei : str;
  cobertura_prenatal : num;
  cobertura_ultrassom : num;
  gap : num
}.

Section Script.
Context `{Num}.
Variable argsort : list num -> list nat.

(** A grouped table reduced to [[dsei_col, cobertura]]. *)
Definition coberturas (df : list linha) : list (str * num) :=
  map (fun g => (fst g, razao (snd (snd g)) (fst (snd g)))) (agrupar df).

(** Lines 124-130: the merge of the two coverage tables and the [gap]
    column. *)
Definition gap_table (prenatal ultrassom : list (str * num)) : list gap_row :=
  map (fun r =>
         {| gap_dsei := fst r;
            cobertura_prenatal := fst (snd r);
            cobertura_ultrassom := snd (snd r);
            gap := sub (fst (snd r)) (snd (snd r)) |})
      (Pd.merge prenatal ultrassom).

(** [df_sorted] *)
Definition create_heatmap_comparison
    (prenatal_2022 prenatal_2023 ultrassom_2022 ultrassom_2023 : DataFrame)
    : result (list gap_row) :=
  let df_prenatal :=
    concat (com_ano 2022 (clean_column_names prenatal_2022))
           (com_ano 2023 (clean_column_names prenatal_2023)) in
  let df_ultrassom :=
    concat (com_ano 2022 (clean_column_names ultrassom_2022))
           (com_ano 2023 (clean_column_names ultrassom_2023)) in
  match resolve (columns df_prenatal) (columns df_ultrassom) with
  | inl e => inl e
  | inr _ =>
      let df := gap_table (coberturas (linhas df_prenatal))
                          (coberturas (linhas df_ultrassom)) in
      inr (sort_values argsort gap false df)
  end.

(** [analisar_gap_tecnologico], lines 263-264: [(df_sorted['gap'] >
    0).sum()] and [(df_sorted['gap'] < 0).sum()]. *)
Definition gap_positivo (df_sorted : list gap_row) : nat :=
  length (filter (fun r => lt (of_int 0) (gap r)) df_sorted).

Definition gap_negativo (df_sorted : list gap_row) : nat :=
  length (filter (fun r => lt (gap r) (of_int 0)) df_sorted).

(** Lines 278 and 285-286: [df_sorted.head(3)], and [df_sorted.tail(3)]
    in the order [.iloc[::-1]] in which its rows are printed. *)
Definition top_gaps (df_sorted : list gap_row) : list gap_row :=
  Pd.head 3 df_sorted.

Definition bottom_gaps (df_sorted : list gap_row) : list gap_row :=
  rev (Pd.tail 3 df_sorted).

End Script.
End AnaliseGap.

(** ** prenatal_mortalidade.py *)

Module PrenatalMortalidade.

Record taxa `{Num} := {
  t_dsei : str;
  t_nascidos_vivos : Z;
  t_obitos_infantis : Z;
  sobrevivencia : num;       (* "Sobrevivência (por mil)" *)
  mortalidade : num          (* "Mortalidade Infantil (por mil)" *)
}.

Section Script.
Context `{Num}.

(** [dropna(subset=["DSEI_GESTAO"])] on each year, [concat], [groupby]
    and the percentage. *)
Definition prenatal_grouped (prenatal_2022 prenatal_2023 : list linha)
    : list (str * num) :=
  let dropna := filter (fun r => match dsei r with Some _ => true | None => false end) in
  map (fun g => (fst g, mul (razao (snd (snd g)) (fst (snd g))) (of_int 100)))
      (agrupar (dropna prenatal_2022 ++ dropna prenatal_2023)).

Definition sobrevivencia_por_mil (nv oi : Z) : num :=
  mul (div (of_int (nv - oi)) (of_int nv)) (of_int 1000).

Definition mortalidade_por_mil (nv oi : Z) : num :=
  mul (div (of_int oi) (of_int nv)) (of_int 1000).

Definition obitos_grouped (obitos_2022 obitos_2023 : list obito) : list taxa :=
  map (fun g =>
         let nv := fst (snd g) in
         let oi := snd (snd g) in
         {| t_dsei := fst g; t_nascidos_vivos := nv; t_obitos_infantis := oi;
            sobrevivencia := sobrevivencia_por_mil nv oi;
            mortalidade := mortalidade_por_mil nv oi |})
      (Pd.groupby o_dsei
         (fun rs => (Pd.sum (map nascidos_vivos rs),
                     Pd.sum (map obitos_infantis rs)))
         (obitos_2022 ++ obitos_2023)).

(** [pd.merge(prenatal_grouped, obitos_grouped, left_on="DSEI_GESTAO",
    right_on="DSEI")] *)
Definition df_full (p22 p23 : list linha) (o22 o23 : list obito)
    : list (str * (num * taxa)) :=
  Pd.merge (prenatal_grouped p22 p23)
           (map (fun t => (t_dsei t, t)) (obitos_grouped o22 o23)).

End Script.
End PrenatalMortalidade.

(** ** mapa_desigualdades.py *)

Module MapaDesigualdades.

(** A count cell as a float cell. *)
Definition celula `{Num} (c : option Z) : num :=
  match c with
  | Some z => of_int z
  | None => NaN
  end.

Record linha_mapa `{Num} := {
  DSEI : option str;
  cobertura_prenatal : num;
  cobertura_ultrassom : option num;     (* [None]: no partner row *)
  ano_mapa : Z
}.

Section Script.
Context `{Num}.

(** Row by row, no grouping; the ultrasound coverage is attached by a
    left merge on the district. *)
Definition calcular_cobertura (df_prenatal df_ultrassom : list linha)
    (ano_ : Z) : list linha_mapa :=
  let df :=
    map (fun r => (dsei r,
                   mul (div (celula (contagem r)) (celula (gestantes r)))
                       (of_int 100)))
        df_prenatal in
  let df_us :=
    map (fun r => (dsei r,
                   mul (div (celula (contagem r)) (celula (gestantes r)))
                       (of_int 100)))
        df_ultrassom in
  map (fun r =>
         {| DSEI := fst r;
            cobertura_prenatal := fst (snd r);
            cobertura_ultrassom := snd (snd r);
            ano_mapa := ano_ |})
      (Pd.merge_left df df_us).

End Script.


(** Lines 56-69. *)
Definition coordenadas_dsei : list (str * (float * float)) :=
  [(Py.utf8 "ALAGOAS E SERGIPE", ((-10.9), (-37.1)));
   (Py.utf8 "ALTAMIRA", ((-3.2), (-52.2)));
   (Py.utf8 "ALTO RIO JURUÁ", ((-7.6), (-72.7)));
   (Py.utf8 "ALTO RIO NEGRO", (0.6, (-65.0)));
   (Py.utf8 "ALTO RIO SOLIMÕES", ((-3.5), (-68.7)));
   (Py.utf8 "AMANÃ", ((-2.5), (-63.1)));
   (Py.utf8 "AMAPÁ E NORTE DO PARÁ", (1.4, (-52.0)));
   (Py.utf8 "ARAGUAIA", ((-12.0), (-51.8)));
   (Py.utf8 "BAHIA", ((-12.9), (-38.5)));
   (Py.utf8 "CEARÁ", ((-4.3), (-38.9)));
   (Py.utf8 "CUIABÁ", ((-15.6), (-56.1)));
   (Py.utf8 "GUAMÁ-TOCANTINS", ((-1.7), (-47.9)));
   (Py.utf8 "INTERIOR SUL", ((-29.9), (-50.3)));
   (Py.utf8 "KAIAPÓ DO PARÁ", ((-5.3), (-51.2)));
   (Py.utf8 "KAIAPÓ DO MATO GROSSO", ((-10.0), (-53.0)));
   (Py.utf8 "LITORAL SUL", ((-27.6), (-48.6)));
   (Py.utf8 "MANAUS", ((-3.1), (-60.0)));
   (Py.utf8 "MATO GROSSO DO SUL", ((-20.4), (-54.6)));
   (Py.utf8 "MÉDIO RIO PURUS", ((-7.7), (-64.9)));
   (Py.utf8 "MÉDIO RIO SOLIMÕES E AFLUENTES", ((-3.6), (-65.1)));
   (Py.utf8 "MINAS GERAIS E ESPÍRITO SANTO", ((-18.8), (-41.9)));
   (Py.utf8 "PARINTINS", ((-2.6), (-56.0)));
   (Py.utf8 "PERNAMBUCO", ((-8.0), (-34.9)));
   (Py.utf8 "PORTO VELHO", ((-8.8), (-63.9)));
   (Py.utf8 "POTIGUARA", ((-6.6), (-34.9)));
   (Py.utf8 "RIO TAPAJÓS", ((-4.2), (-55.0)));
   (Py.utf8 "TOCANTINS", ((-10.2), (-48.3)));
   (Py.utf8 "VALE DO JURUA", ((-7.6), (-72.5)));
   (Py.utf8 "VILHENA", ((-12.7), (-60.1)));
   (Py.utf8 "XAVANTE", ((-14.5), (-52.2)));
   (Py.utf8 "XINGU", ((-11.0), (-52.0)));
   (Py.utf8 "YANOMAMI", (3.2, (-64.7)));
   (Py.utf8 "LESTE DE RORAIMA", (2.8, (-60.7)))]%float.


(** [coordenadas_dsei.get(x, (None, None))] *)
Definition coordenadas (d : option str) : option float * option float :=
  match d with
  | Some x =>
      match Pd.lookup x coordenadas_dsei with
      | Some c => (Some (fst c), Some (snd c))
      | None => (None, None)
      end
  | None => (None, None)
  end.

Definition latitude (d : option str) : option float := fst (coordenadas d).
Definition longitude (d : option str) : option float := snd (coordenadas d).

(** The test of the marker loop: [pd.notnull(row["latitude"]) and
    pd.notnull(row["longitude"])]. *)
Definition tem_marcador (d : option str) : bool :=
  match latitude d, longitude d with
  | Some _, Some _ => true
  | _, _ => false
  end.

Section Mapa.
Context `{Num}.

(** Lines 33-35: the tables of the two years, one below the other. *)
Definition df_combined (p22 u22 p23 u23 : list linha) : list linha_mapa :=
  calcular_cobertura p22 u22 2022 ++ calcular_cobertura p23 u23 2023.

(** Lines 101-102: the rows that get a marker, the rows of 2023 whose
    district has coordinates. *)
Definition marcadores (df_combined : list linha_mapa) : list linha_mapa :=
  filter (fun row => tem_marcador (DSEI row))
         (filter (fun row => (ano_mapa row =? 2023)%Z) df_combined).

End Mapa.

End MapaDesigualdades.

(** ** Vocabulary of the specification *)

(** What a key order must satisfy for [groupby] to be well defined: the
    equality test decides equality and [kltb] is a strict total order. *)
Record KeyLaws (K : Type) `{Key K} : Prop := {
  keqb_eq : forall a b : K, keqb a b = true <-> a = b;
  kltb_irrefl : forall a : K, kltb a a = false;
  kltb_trans : forall a b c : K,
    kltb a b = true -> kltb b c = true -> kltb a c = true;
  kltb_total : forall a b : K,
    kltb a b = false -> keqb a b = false -> kltb b a = true
}.

(** The distinct present keys in the order of their first occurrence. *)
Fixpoint first_occurrence_order (seen : list str) (keys : list (option str))
    : list str :=
  match keys with
  | [] => []
  | None :: keys' => first_occurrence_order seen keys'
  | Some k :: keys' =>
      if existsb (Py.eqb k) seen then first_occurrence_order seen keys'
      else k :: first_occurrence_order (k :: seen) keys'
  end.



Definition key_lt {K : Type} `{Key K} (a b : K) : Prop := kltb a b = true.

(** A complete input row. *)
Definition linha_de (d : string) (g c y : Z) : linha :=
  {| dsei := Some (Py.lit d); gestantes := Some g; contagem := Some c;
     ano := y |}.



(** A table with the given header row and no data rows. *)
Definition so_cabecalho (cols : list str) : DataFrame :=
  {| columns := cols; linhas := [] |}.

(** What the comparison of a number system must satisfy for a sorted
    column to make sense: [lt] is asymmetric, NaN is below and above
    nothing, and "not below" is transitive through a value that is not
    NaN. *)
Record NumLaws `{Num} : Prop := {
  lt_asym : forall x y : num, lt x y = true -> lt y x = false;
  lt_nan_l : forall x y : num, isna x = true -> lt x y = false;
  lt_nan_r : forall x y : num, isna y = true -> lt x y = false;
  lt_negtrans : forall x y z : num,
    isna y = false -> lt x y = false -> lt y z = false -> lt x z = false
}.

(** What [sort_values] needs from a sort kernel: on keys without NaN it
    returns the positions [0 .. n-1] in some order, and no key is below
    a key at an earlier place of that order. *)
Definition kernel_ok `{Num} (kernel : list num -> list nat) : Prop :=
  forall v : list num,
    Forall (fun x => isna x = false) v ->
    Permutation (kernel v) (seq 0 (length v))
    /\ StronglySorted
         (fun i j => lt (nth j v NaN) (nth i v NaN) = false) (kernel v).

(** The key at position [i] is not NaN; the key at [i] is not below the
    key at [j]. *)
Definition not_nan_at `{Num} (v : list num) (i : nat) : Prop :=
  isna (nth i v NaN) = false.

Definition not_below `{Num} (v : list num) (i j : nat) : Prop :=
  Np.LT v i j = false.



(** The state of the partition loop of the kernel on the segment [a0]:
    the pivot [p] sits at the last place but one, the places up to [pi]
    hold keys not above it and the places from [pj] on hold keys not
    below it. *)
Definition hoare_inv `{Num} (v : list num) (a0 : list nat) (p : nat)
    (a : list nat) (pi pj : nat) : Prop :=
  length a = length a0
  /\ Permutation a a0
  /\ pi < pj /\ pj <= length a0 - 2
  /\ Np.get a (length a0 - 2) = p
  /\ (forall k, k <= pi -> Np.LT v p (Np.get a k) = false)
  /\ (forall k, pj <= k -> k <= length a0 - 1 ->
                Np.LT v (Np.get a k) p = false).

(** The node [k] of the heap [a[1..n]] is not below its children. *)
Definition heap_at `{Num} (v : list num) (a : list nat) (n k : nat) : Prop :=
  forall c, (c = 2 * k \/ c = 2 * k + 1) -> c <= n ->
            Np.LT v (Np.get1 a k) (Np.get1 a c) = false.

Definition heap_from `{Num} (v : list num) (a : list nat) (lo n : nat) : Prop :=
  forall k, lo <= k -> k <= n -> heap_at v a n k.

(** The heap [a[lo..n]] with a hole at [i] that waits for [tmp]. *)
Definition sift_pre `{Num} (v : list num) (a : list nat) (tmp i n lo : nat)
    : Prop :=
  1 <= lo /\ lo <= i /\ i <= n /\ n <= length a
  /\ not_nan_at v tmp
  /\ (forall k, 1 <= k -> k <= length a -> not_nan_at v (Np.get1 a k))
  /\ (forall k c, lo <= k -> k <= n -> k <> i ->
                  (c = 2 * k \/ c = 2 * k + 1) -> c <= n -> c <> i ->
                  Np.LT v (Np.get1 a k) (Np.get1 a c) = false)
  /\ (forall q, lo <= q -> (i = 2 * q \/ i = 2 * q + 1) ->
                Np.LT v (Np.get1 a q) tmp = false
                /\ forall c, (c = 2 * i \/ c = 2 * i + 1) -> c <= n ->
                             Np.LT v (Np.get1 a q) (Np.get1 a c) = false).

Definition sift_post `{Num} (v : list num) (a : list nat) (tmp i n lo : nat)
    (a' : list nat) : Prop :=
  length a' = length a
  /\ heap_from v a' lo n
  /\ (forall k, n < k -> Np.get1 a' k = Np.get1 a k)
  /\ (forall y, count_occ Nat.eq_dec a' y
                = count_occ Nat.eq_dec (Np.set1 a i tmp) y)
  /\ (forall k, 1 <= k -> k <= n ->
                Np.get1 a' k = tmp
                \/ exists k', 1 <= k' /\ k' <= n /\ Np.get1 a' k = Np.get1 a k').

(** The tail [a[n+1..]] is in its final place: each of its keys is not
    below any key before it. *)
Definition tail_sorted `{Num} (v : list num) (a : list nat) (n : nat) : Prop :=
  forall k1 k2, 1 <= k1 -> k1 < k2 -> k2 <= length a -> n < k2 ->
                Np.LT v (Np.get1 a k2) (Np.get1 a k1) = false.



Definition desc_ok `{Num} {R : Type} (by_ : R -> num) (a b : R) : Prop :=
  lt (by_ a) (by_ b) = false /\ (isna (by_ a) = true -> isna (by_ b) = true).

(** The place of an IEEE value other than NaN in the order of the
    doubles: sign class, then exponent, then mantissa. *)
Definition sf_rank (x : spec_float) : Z * Z * Z :=
  match x with
  | S754_nan => (0, 0, 0)
  | S754_infinity true => (-2, 0, 0)
  | S754_infinity false => (2, 0, 0)
  | S754_zero _ => (0, 0, 0)
  | S754_finite true m e => (-1, - e, - Zpos m)
  | S754_finite false m e => (1, e, Zpos m)
  end%Z.

Definition lt3 (a b : Z * Z * Z) : Prop :=
  let '(a1, a2, a3) := a in
  let '(b1, b2, b3) := b in
  (a1 < b1 \/ (a1 = b1 /\ (a2 < b2 \/ (a2 = b2 /\ a3 < b3))))%Z.

(** Two IEEE values that differ at most in the sign of a zero. *)
Definition sf_same (x y : spec_float) : Prop :=
  x = y \/ exists s s', x = S754_zero s /\ y = S754_zero s'.

(** The headers of the prenatal spreadsheets after the loader of
    graficos_cobertura_prenatal has added the year and cleaned them. *)
Definition cabecalho_prenatal : list str :=
  [Py.lit "dsei_gestao"; Py.lit "no_gestantes"; Py.lit "6_ou_mais_consultas";
   Py.lit "ano"].

(** One district, 20 of 100 women covered in 2022 and 30 of 100 in
    2023. *)
Definition de_20_para_30 : DataFrame :=
  {| columns := cabecalho_prenatal;
     linhas := [linha_de "A" 100 20 2022; linha_de "A" 100 30 2023] |}.



(** Group A with 50 of 100 women covered, group B with no woman
    recorded. *)
Definition tabela_AB : DataFrame :=
  {| columns := [Py.lit "DSEI"; Py.lit "N Gestantes"; Py.lit "6 ou mais"];
     linhas := [linha_de "A" 100 50 2022; linha_de "B" 0 0 2022] |}.


(** The district column of a grouped table. *)
Definition nomes (t : list (@grupo binary64)) : list str := map g_dsei t.


(** The headers of the spreadsheets, as mapa_desigualdades and
    prenatal_mortalidade address them. *)
Definition DSEI_GESTAO : str := Py.lit "DSEI_GESTAO".
Definition N_GESTANTES : str := Py.utf8 "Nº GESTANTES".
Definition SEIS_OU_MAIS_CONSULTAS : str := Py.lit "6 OU MAIS CONSULTAS".
Definition COM_ACESSO_AO_EXAME : str :=
  Py.lit "COM ACESSO AO EXAME DE ULTRASSOM".

(** The three names the analyses of ultrassons.py read. *)
Definition conhecida (name : str) : Prop :=
  name = Py.lit "dsei" \/ name = Py.lit "gestantes" \/ name = Py.lit "ultrassons".

Definition cabecalhos_2023 : list str :=
  [Py.lit "Distrito"; Py.lit "Gestantes"; Py.lit "Acesso"].

(** The headers of the prenatal and of the ultrasound spreadsheets. *)
Definition cabecalho_consultas : list str :=
  [DSEI_GESTAO; N_GESTANTES; SEIS_OU_MAIS_CONSULTAS].
Definition cabecalho_ultrassom : list str :=
  [DSEI_GESTAO; N_GESTANTES; COM_ACESSO_AO_EXAME].

(** The scenario of the gap: over the two years, 6 of 10 women of X and
    6 of 20 women of Y with six visits or more, 4 of 10 women of X with
    access to the ultrasound exam, and no ultrasound row for Y. *)
Definition cenario_prenatal (y : Z) : DataFrame :=
  {| columns := cabecalho_consultas;
     linhas := [linha_de "X" 5 3 y; linha_de "Y" 10 3 y] |}.
Definition cenario_ultrassom (y : Z) : DataFrame :=
  {| columns := cabecalho_ultrassom; linhas := [linha_de "X" 5 2 y] |}.

(** District A in both years, district B in 2022 only. *)
Definition B_so_em_2022 : DataFrame :=
  {| columns := cabecalho_prenatal;
     linhas := [linha_de "A" 100 20 2022; linha_de "A" 100 30 2023;
                linha_de "B" 100 50 2022] |}.

(** Districts A and B with the same coverage, district C below them. *)
Definition empate_AB : DataFrame :=
  {| columns := cabecalho_prenatal;
     linhas := [linha_de "A" 100 50 2022; linha_de "B" 100 50 2022;
                linha_de "C" 100 20 2022] |}.

(** The sum of the absolute values of a column: below 2^53, no sum of
    cells of the column wraps around as int64 or is rounded as
    float64. *)
Definition magnitude (col : list (option Z)) : Z :=
  fold_right (fun c acc => (Z.abs (Pd.cell c) + acc)%Z) 0%Z col.

(** No two keys that are numbers are tied. *)
Definition sem_empates `{Num} (keys : list num) : Prop :=
  forall i j : nat,
    i < j -> j < length keys ->
    isna (nth i keys NaN) = false -> isna (nth j keys NaN) = false ->
    lt (nth i keys NaN) (nth j keys NaN) = true
    \/ lt (nth j keys NaN) (nth i keys NaN) = true.

(** No name occurs twice in the list. *)
Fixpoint distinct (l : list str) : bool :=
  match l with
  | [] => true
  | x :: l' => negb (existsb (Py.eqb x) l') && distinct l'
  end.


(** District A without any pregnant woman recorded, district B with 50
    of 100 covered. *)
Definition sem_gestantes_em_A : DataFrame :=
  {| columns := [Py.lit "dsei"; Py.lit "gestantes"; Py.lit "6_ou_mais";
                 Py.lit "ultrassom"];
     linhas := [linha_de "A" 0 0 2022; linha_de "B" 100 50 2022] |}.

(** * Properties *)

(** ** Strings *)

Lemma py_eqb_eq (a b : str) : Py.eqb a b = true <-> a = b.
Proof.
  revert b; induction a as [|x a IH]; intros [|y b]; simpl;
    try (split; [discriminate | discriminate]); try tauto.
  rewrite andb_true_iff, N.eqb_eq, IH.
  split; [intros [-> ->]; reflexivity | intros E; inversion E; auto].
Qed.

Lemma py_eqb_refl (a : str) : Py.eqb a a = true.
Proof. apply py_eqb_eq; reflexivity. Qed.

Lemma py_ltb_irrefl (a : str) : Py.ltb a a = false.
Proof.
  induction a as [|x a IH]; simpl; auto.
  rewrite N.ltb_irrefl, N.eqb_refl, IH; reflexivity.
Qed.

Lemma py_ltb_trans (a b c : str) :
  Py.ltb a b = true -> Py.ltb b c = true -> Py.ltb a c = true.
Proof.
  revert b c; induction a as [|x a IH]; intros [|y b] [|z c]; simpl;
    try discriminate; auto.
  rewrite !orb_true_iff, !andb_true_iff, !N.ltb_lt, !N.eqb_eq.
  intros [Hxy | [-> Hab]] [Hyz | [-> Hbc]].
  - left; lia.
  - left; exact Hxy.
  - left; exact Hyz.
  - right; split; [reflexivity | eapply IH; eassumption].
Qed.

Lemma py_ltb_total (a b : str) :
  Py.ltb a b = false -> Py.eqb a b = false -> Py.ltb b a = true.
Proof.
  revert b; induction a as [|x a IH]; intros [|y b]; simpl;
    try discriminate; auto.
  rewrite orb_false_iff, !andb_false_iff, orb_true_iff, andb_true_iff.
  rewrite N.ltb_ge, N.ltb_lt, !N.eqb_neq, N.eqb_eq.
  intros [Hle Hlt] Heq.
  destruct (N.eq_dec x y) as [-> | Hne].
  - right; split; [reflexivity |].
    apply IH; [destruct Hlt | destruct Heq]; congruence.
  - left; lia.
Qed.

Lemma str_key_laws : KeyLaws str.
Proof.
  constructor; simpl.
  - apply py_eqb_eq.
  - apply py_ltb_irrefl.
  - apply py_ltb_trans.
  - apply py_ltb_total.
Qed.

(** ** [groupby] *)

Section GroupByFacts.
Context {K : Type} `{Key K} (L : KeyLaws K).

Lemma keqb_refl (a : K) : keqb a a = true.
Proof. apply (keqb_eq K L); reflexivity. Qed.

Lemma keqb_neq (a b : K) : keqb a b = false <-> a <> b.
Proof.
  split.
  - intros E Hab. apply (keqb_eq K L) in Hab. congruence.
  - intros Hab. destruct (keqb a b) eqn:E; auto.
    apply (keqb_eq K L) in E. contradiction.
Qed.

Lemma insert_key_In (k x : K) (l : list K) :
  In x (Pd.insert_key k l) <-> x = k \/ In x l.
Proof.
  induction l as [|y l IH]; simpl.
  - intuition.
  - destruct (kltb k y) eqn:Hlt; simpl.
    + intuition.
    + destruct (keqb k y) eqn:Heq; simpl.
      * apply (keqb_eq K L) in Heq. subst y. intuition.
      * rewrite IH. intuition.
Qed.

Lemma insert_key_sorted (k : K) (l : list K) :
  StronglySorted key_lt l -> StronglySorted key_lt (Pd.insert_key k l).
Proof.
  induction 1 as [|y l Hs IH Hall]; simpl.
  - repeat constructor.
  - destruct (kltb k y) eqn:Hlt.
    + constructor; [constructor; assumption |].
      constructor; [exact Hlt |].
      eapply Forall_impl; [| exact Hall].
      intros z Hz. eapply (kltb_trans K L); eassumption.
    + destruct (keqb k y) eqn:Heq.
      * constructor; assumption.
      * constructor; [exact IH |].
        apply Forall_forall. intros z Hz.
        apply insert_key_In in Hz. destruct Hz as [-> | Hz].
        -- apply (kltb_total K L); [exact Hlt | exact Heq].
        -- rewrite Forall_forall in Hall. apply Hall, Hz.
Qed.

Lemma group_keys_In (k : K) (keys : list (option K)) :
  In k (Pd.group_keys keys) <-> In (Some k) keys.
Proof.
  induction keys as [|[x|] keys IH]; simpl.
  - tauto.
  - rewrite insert_key_In, IH. split.
    + intros [-> | Hin]; auto.
    + intros [E | Hin]; [inversion E; auto | auto].
  - rewrite IH. split; [auto | intros [E | Hin]; [discriminate | auto]].
Qed.

Lemma group_keys_sorted (keys : list (option K)) :
  StronglySorted key_lt (Pd.group_keys keys).
Proof.
  induction keys as [|[x|] keys IH]; simpl.
  - constructor.
  - apply insert_key_sorted, IH.
  - exact IH.
Qed.

Lemma sorted_NoDup (l : list K) : StronglySorted key_lt l -> NoDup l.
Proof.
  induction 1 as [|y l Hs IH Hall]; constructor; auto.
  intros Hin. rewrite Forall_forall in Hall.
  specialize (Hall y Hin). unfold key_lt in Hall.
  rewrite (kltb_irrefl K L) in Hall. discriminate.
Qed.

Lemma group_keys_NoDup (keys : list (option K)) : NoDup (Pd.group_keys keys).
Proof. apply sorted_NoDup, group_keys_sorted. Qed.





Lemma groupby_keys {R S : Type} (by_ : R -> option K) (agg : list R -> S)
    (df : list R) :
  map fst (Pd.groupby by_ agg df) = Pd.group_keys (map by_ df).
Proof.
  unfold Pd.groupby. rewrite map_map. simpl. apply map_id.
Qed.

End GroupByFacts.

Lemma sorted_ext {K : Type} `{Key K} (L : KeyLaws K) (l1 l2 : list K) :
  StronglySorted key_lt l1 -> StronglySorted key_lt l2 ->
  (forall k, In k l1 <-> In k l2) -> l1 = l2.
Proof.
  intros H1. revert l2.
  induction H1 as [|x l1 Hs1 IH Hall1]; intros l2 H2 Hext.
  - destruct l2 as [|y l2]; auto.
    exfalso. apply (Hext y). left; reflexivity.
  - destruct H2 as [|y l2 Hs2 Hall2].
    + exfalso. apply (Hext x). left; reflexivity.
    + rewrite Forall_forall in Hall1, Hall2.
      assert (Hxy : x = y).
      { destruct (proj1 (Hext x) (or_introl eq_refl)) as [E | Hin]; auto.
        destruct (proj2 (Hext y) (or_introl eq_refl)) as [E | Hin']; auto.
        pose proof (Hall2 x Hin) as A. pose proof (Hall1 y Hin') as B.
        unfold key_lt in A, B.
        pose proof (kltb_trans K L _ _ _ A B) as C.
        rewrite (kltb_irrefl K L) in C. discriminate. }
      subst y. f_equal. apply IH; auto.
      intros k. split; intros Hin.
      * destruct (proj1 (Hext k) (or_intror Hin)) as [E | Hk]; auto.
        subst k. pose proof (Hall1 x Hin) as A. unfold key_lt in A.
        rewrite (kltb_irrefl K L) in A. discriminate.
      * destruct (proj2 (Hext k) (or_intror Hin)) as [E | Hk]; auto.
        subst k. pose proof (Hall2 x Hin) as A. unfold key_lt in A.
        rewrite (kltb_irrefl K L) in A. discriminate.
Qed.

(** C3, as stated, fails: two rows with the districts B, A in this
    order are grouped as A, B, while the order of first occurrence is
    B, A. *)
Lemma groupby_first_occurrence_counterexample :
  let df := [linha_de "B" 10 5 2022; linha_de "A" 20 8 2022] in
  map fst (agrupar df) = [Py.lit "A"; Py.lit "B"]
  /\ first_occurrence_order [] (map dsei df) = [Py.lit "B"; Py.lit "A"]
  /\ map fst (agrupar df) <> first_occurrence_order [] (map dsei df).
Proof.
  vm_compute. repeat split; discriminate.
Qed.

(** C3 (amended): the rows of the grouped table are in strictly
    ascending order of the district name (code point order), they are
    the districts present in the input, and the order does not depend
    on the order of the input rows. *)
Theorem groupby_keys_ascending :
  forall df : list linha,
    StronglySorted key_lt (map fst (agrupar df))
    /\ (forall k, In k (map fst (agrupar df)) <-> In (Some k) (map dsei df))
    /\ (forall df', Permutation df df' ->
          map fst (agrupar df') = map fst (agrupar df)).
Proof.
  intros df. unfold agrupar.
  split; [| split].
  - rewrite (groupby_keys). apply (group_keys_sorted str_key_laws).
  - intros k. rewrite groupby_keys. apply (group_keys_In str_key_laws).
  - intros df' Hp. rewrite !groupby_keys.
    apply (sorted_ext str_key_laws);
      try apply (group_keys_sorted str_key_laws).
    intros k. rewrite !(group_keys_In str_key_laws).
    split; intros Hin.
    + eapply Permutation_in; [| exact Hin].
      apply Permutation_map, Permutation_sym, Hp.
    + eapply Permutation_in; [| exact Hin].
      apply Permutation_map, Hp.
Qed.



(** ** Header normalisation *)















(** ** Column look-up *)

Lemma startswith_app (p q s : str) :
  Py.startswith (p ++ q) s = true -> Py.startswith p s = true.
Proof.
  revert s; induction p as [|x p IH]; intros s; simpl.
  - destruct s; reflexivity.
  - destruct s as [|y s]; [discriminate |].
    rewrite !andb_true_iff. intros [E Hs]. split; auto.
Qed.

Lemma contains_app (p q s : str) :
  Py.contains p s = false -> Py.contains (p ++ q) s = false.
Proof.
  induction s as [|y s IH]; simpl.
  - rewrite !orb_false_r. intros Hp.
    destruct (Py.startswith (p ++ q) []) eqn:E; auto.
    apply startswith_app in E. congruence.
  - rewrite !orb_false_iff. intros [Hp Hs]. split; auto.
    destruct (Py.startswith (p ++ q) (y :: s)) eqn:E; auto.
    apply startswith_app in E. congruence.
Qed.

Lemma filter_none {A : Type} (f : A -> bool) (l : list A) :
  (forall x, In x l -> f x = false) -> filter f l = [].
Proof.
  induction l as [|x l IH]; simpl; auto.
  intros Hf. rewrite (Hf x (or_introl eq_refl)). apply IH.
  intros y Hy. apply Hf. right; exact Hy.
Qed.

Lemma find_column_None (cols patterns : list str) :
  PrenatalUltrassonografia.find_column cols patterns = None
  <-> forall p c, In p patterns -> In c cols ->
        Py.contains (Py.lower p) (Py.lower c) = false.
Proof.
  induction patterns as [|q patterns IH]; simpl.
  - split; [intros _ p c [] | reflexivity].
  - destruct (filter _ cols) as [|col rest] eqn:E.
    + rewrite IH. split.
      * intros Hrest p c [-> | Hp] Hc; [| apply Hrest; assumption].
        destruct (Py.contains (Py.lower p) (Py.lower c)) eqn:Hm; auto.
        assert (Hin : In c (filter (fun col => Py.contains (Py.lower p) (Py.lower col)) cols))
          by (apply filter_In; split; assumption).
        rewrite E in Hin. destruct Hin.
      * intros Hall p c Hp Hc. apply Hall; [right |]; assumption.
    + split; [discriminate |].
      intros Hall. exfalso.
      assert (Hin : In col (col :: rest)) by (left; reflexivity).
      rewrite <- E in Hin. apply filter_In in Hin. destruct Hin as [Hc Hm].
      rewrite (Hall q col (or_introl eq_refl) Hc) in Hm. discriminate.
Qed.

Lemma find_column_Some (cols patterns : list str) (col : str) :
  PrenatalUltrassonografia.find_column cols patterns = Some col ->
  In col cols
  /\ exists p, In p patterns /\ Py.contains (Py.lower p) (Py.lower col) = true.
Proof.
  induction patterns as [|q patterns IH]; simpl; [discriminate |].
  destruct (filter _ cols) as [|c rest] eqn:E.
  - intros Hf. destruct (IH Hf) as [Hin [p [Hp Hm]]].
    split; auto. exists p; auto.
  - intros Hf. inversion Hf; subst c.
    assert (Hin : In col (col :: rest)) by (left; reflexivity).
    rewrite <- E in Hin. apply filter_In in Hin. destruct Hin as [Hc Hm].
    split; auto. exists q; auto.
Qed.

(** C2, as stated, fails: for a header row without a district column
    [find_column] returns no column and no error; the caller then fails
    inside [groupby] with a TypeError, the look-ups of
    graficos_cobertura_prenatal raise IndexError, and in the module body
    of prenatal_ultrassonografia the failure of the first table also
    ends the run for the tables after it. *)
Lemma missing_column_counterexample :
  let cols := [Py.lit "Distrito"; Py.lit "N Gestantes"; Py.lit "6 ou mais"] in
  let bad := so_cabecalho cols in
  let good :=
    so_cabecalho [Py.lit "DSEI"; Py.lit "N Gestantes"; Py.lit "6 ou mais";
                  Py.lit "Ultrassom"] in
  PrenatalUltrassonografia.find_column cols
    PrenatalUltrassonografia.dsei_patterns = None
  /\ @PrenatalUltrassonografia.process_prenatal_data binary64 bad
     = inl TypeError
  /\ @Graficos.gerar_resumo_estatistico binary64 bad = inl IndexError
  /\ @PrenatalUltrassonografia.main binary64 Np.argsort good good good good
     = inr ([], [])
  /\ @PrenatalUltrassonografia.main binary64 Np.argsort bad good good good
     = inl TypeError.
Proof. cbv zeta. repeat split; reflexivity. Qed.

(** C2 (amended): when no header contains "dsei" (in any case),
    [find_column] returns no column for the district field; it raises
    nothing.  [process_prenatal_data] then raises TypeError, the list
    look-ups of graficos_cobertura_prenatal and analise_gap_tecnologico
    raise IndexError, and the module body of prenatal_ultrassonografia
    stops at the first table that fails. *)
Theorem unresolved_district_column (cols : list str)
    (Hno : forall c, In c cols -> Graficos.is_dsei c = false) :
  PrenatalUltrassonografia.find_column cols
    PrenatalUltrassonografia.dsei_patterns = None
  /\ (forall rows,
        @PrenatalUltrassonografia.process_prenatal_data binary64
          {| columns := cols; linhas := rows |} = inl TypeError)
  /\ Graficos.first_match cols Graficos.is_dsei = inl IndexError
  /\ (forall rows,
        @Graficos.gerar_resumo_estatistico binary64
          {| columns := cols; linhas := rows |} = inl IndexError)
  /\ (forall rows u22 p23 u23,
        @PrenatalUltrassonografia.main binary64 Np.argsort
          {| columns := cols; linhas := rows |} u22 p23 u23 = inl TypeError).
Proof.
  assert (Hfind : PrenatalUltrassonografia.find_column cols
                    PrenatalUltrassonografia.dsei_patterns = None).
  { apply find_column_None. intros p c Hp Hc.
    specialize (Hno c Hc). unfold Graficos.is_dsei in Hno.
    destruct Hp as [<- | [<- | []]].
    - exact Hno.
    - change (Py.lower (Py.lit "dsei_gestao"))
        with (Py.lit "dsei" ++ Py.lit "_gestao").
      apply contains_app. exact Hno. }
  assert (Hfirst : Graficos.first_match cols Graficos.is_dsei = inl IndexError).
  { unfold Graficos.first_match. rewrite (filter_none _ _ Hno). reflexivity. }
  assert (Hproc : forall rows,
             @PrenatalUltrassonografia.process_prenatal_data binary64
               {| columns := cols; linhas := rows |} = inl TypeError).
  { intros rows.
    unfold PrenatalUltrassonografia.process_prenatal_data,
      PrenatalUltrassonografia.resolved. simpl columns.
    rewrite Hfind. reflexivity. }
  repeat split; auto.
  - intros rows. unfold Graficos.gerar_resumo_estatistico, Graficos.resolve.
    simpl columns. rewrite Hfirst. reflexivity.
  - intros rows u22 p23 u23.
    unfold PrenatalUltrassonografia.main,
      PrenatalUltrassonografia.generate_graph.
    rewrite Hproc. reflexivity.
Qed.

Lemma unresolved_district_column_witness :
  PrenatalUltrassonografia.find_column [Py.lit "Distrito"; Py.lit "Total"]
    PrenatalUltrassonografia.dsei_patterns = None.
Proof.
  apply (unresolved_district_column [Py.lit "Distrito"; Py.lit "Total"]).
  intros c [<- | [<- | []]]; reflexivity.
Defined.

(** ** Doubles *)

Lemma binary_round_aux_opp s m e l :
  SFopp (binary_round_aux prec emax s m e l)
  = binary_round_aux prec emax (negb s) m e l.
Proof.
  unfold binary_round_aux.
  destruct (shr_fexp prec emax m e l) as [mrs e1].
  destruct (shr_fexp prec emax _ e1 loc_Exact) as [mrs2 e2].
  destruct (shr_m mrs2); simpl; auto.
  destruct (e2 <=? _)%Z; reflexivity.
Qed.

Lemma binary_round_opp s m e :
  SFopp (binary_round prec emax s m e) = binary_round prec emax (negb s) m e.
Proof.
  unfold binary_round.
  destruct (shl_align m e _) as [mz ez]. apply binary_round_aux_opp.
Qed.

Lemma binary_normalize_opp m e :
  sf_same (binary_normalize prec emax m e false)
          (SFopp (binary_normalize prec emax (- m) e false)).
Proof.
  destruct m as [|p|p]; simpl.
  - right. eauto.
  - left. rewrite binary_round_opp. reflexivity.
  - left. rewrite binary_round_opp. reflexivity.
Qed.

Lemma SFsub_antisym x y :
  sf_same (SFsub prec emax x y) (SFopp (SFsub prec emax y x)).
Proof.
  destruct x as [sx|sx| |sx mx ex], y as [sy|sy| |sy my ey];
    try (left; reflexivity);
    try (destruct sx; left; reflexivity);
    try (destruct sy; left; reflexivity);
    try (destruct sx, sy; simpl; (left; reflexivity) || (right; eauto); fail).
  unfold SFsub. rewrite (Z.min_comm ey ex).
  match goal with
  | |- sf_same (binary_normalize _ _ ?a _ _)
               (SFopp (binary_normalize _ _ ?b _ _)) =>
      replace b with (- a)%Z by lia
  end.
  apply binary_normalize_opp.
Qed.

Lemma SFcompare_refl x : x <> S754_nan -> SFcompare x x = Some Eq.
Proof.
  destruct x as [s|s| |s m e]; simpl; try congruence; intros _.
  - destruct s; reflexivity.
  - destruct s; rewrite Z.compare_refl, Pos.compare_cont_refl; reflexivity.
Qed.

Lemma is_nan_spec x : is_nan x = true <-> Prim2SF x = S754_nan.
Proof.
  unfold is_nan. rewrite eqb_spec. unfold SFeqb.
  destruct (Prim2SF x) eqn:E; simpl.
  - destruct s; simpl; split; discriminate.
  - destruct s; simpl; split; discriminate.
  - split; reflexivity.
  - destruct s; rewrite Z.compare_refl, Pos.compare_cont_refl; simpl; split; discriminate.
Qed.

Lemma float_same_of_sf x y :
  sf_same (Prim2SF x) (Prim2SF y) -> @same binary64 x y = true.
Proof.
  unfold same; simpl. intros [E | [s [s' [E1 E2]]]].
  - destruct (is_nan x) eqn:Nx.
    + assert (Ny : is_nan y = true).
      { apply is_nan_spec. rewrite <- E. apply is_nan_spec. exact Nx. }
      rewrite Ny. reflexivity.
    + simpl. rewrite eqb_spec. unfold SFeqb. rewrite <- E.
      rewrite SFcompare_refl; auto.
      intros Hn. apply is_nan_spec in Hn. congruence.
  - apply orb_true_iff. right. rewrite eqb_spec. unfold SFeqb. rewrite E1, E2. reflexivity.
Qed.

Lemma float_sub_antisym (a b : float) :
  @same binary64 (a - b)%float (- (b - a))%float = true.
Proof.
  apply float_same_of_sf. rewrite opp_spec, !sub_spec. apply SFsub_antisym.
Qed.

(** ** Exact arithmetic *)




Lemma exact_sub_antisym (a b : Exact.t) :
  Exact.sub a b = Exact.opp (Exact.sub b a).
Proof.
  destruct a as [p| | |], b as [q| | |]; simpl; try reflexivity.
  f_equal. ring.
Qed.

(** ** The order of the doubles *)

Lemma SFltb_rank (x y : spec_float) :
  x <> S754_nan -> y <> S754_nan ->
  (SFltb x y = true <-> lt3 (sf_rank x) (sf_rank y)).
Proof.
  intros Hx Hy. unfold SFltb, SFcompare.
  destruct x as [[]|[]| |[] mx ex], y as [[]|[]| |[] my ey];
    try congruence; simpl; try (split; [discriminate | lia]);
    try (split; [lia | reflexivity]);
    try (split; [reflexivity | lia]);
    rewrite ?Pos.compare_cont_spec; simpl;
    destruct (Z.compare_spec ex ey);
    try destruct (Pos.compare_spec mx my); simpl;
    split; try discriminate; try reflexivity; try lia.
Qed.

Lemma is_nan_false (x : float) : is_nan x = false <-> Prim2SF x <> S754_nan.
Proof.
  rewrite <- is_nan_spec. destruct (is_nan x); split; congruence.
Qed.

Lemma ltb_nan_l (x y : float) : is_nan x = true -> (x <? y)%float = false.
Proof.
  intros Hx. apply is_nan_spec in Hx. rewrite ltb_spec, Hx. reflexivity.
Qed.

Lemma ltb_nan_r (x y : float) : is_nan y = true -> (x <? y)%float = false.
Proof.
  intros Hy. apply is_nan_spec in Hy. rewrite ltb_spec, Hy.
  unfold SFltb, SFcompare. destruct (Prim2SF x) as [[]|[]| |[] ? ?]; reflexivity.
Qed.

Lemma ltb_rank (x y : float) :
  is_nan x = false -> is_nan y = false ->
  ((x <? y)%float = true
   <-> lt3 (sf_rank (Prim2SF x)) (sf_rank (Prim2SF y))).
Proof.
  intros Hx Hy. rewrite ltb_spec.
  apply SFltb_rank; apply is_nan_false; assumption.
Qed.

Lemma ltb_true_not_nan (x y : float) :
  (x <? y)%float = true -> is_nan x = false /\ is_nan y = false.
Proof.
  intros Hlt. split.
  - destruct (is_nan x) eqn:E; auto. rewrite ltb_nan_l in Hlt; auto.
  - destruct (is_nan y) eqn:E; auto. rewrite ltb_nan_r in Hlt; auto.
Qed.

Lemma binary64_laws : @NumLaws binary64.
Proof.
  constructor; simpl.
  - intros x y Hlt. destruct (ltb_true_not_nan _ _ Hlt) as [Hx Hy].
    apply (ltb_rank x y Hx Hy) in Hlt.
    destruct (y <? x)%float eqn:E; auto.
    apply (ltb_rank y x Hy Hx) in E.
    unfold lt3 in *.
    destruct (sf_rank (Prim2SF x)) as [[a1 a2] a3],
             (sf_rank (Prim2SF y)) as [[b1 b2] b3]. lia.
  - apply ltb_nan_l.
  - apply ltb_nan_r.
  - intros x y z Hy Hxy Hyz.
    destruct (x <? z)%float eqn:E; auto.
    destruct (ltb_true_not_nan _ _ E) as [Hx Hz].
    apply (ltb_rank x z Hx Hz) in E.
    assert (A : ~ lt3 (sf_rank (Prim2SF x)) (sf_rank (Prim2SF y)))
      by (intros A; apply (ltb_rank x y Hx Hy) in A; congruence).
    assert (B : ~ lt3 (sf_rank (Prim2SF y)) (sf_rank (Prim2SF z)))
      by (intros B; apply (ltb_rank y z Hy Hz) in B; congruence).
    unfold lt3 in *.
    destruct (sf_rank (Prim2SF x)) as [[a1 a2] a3],
             (sf_rank (Prim2SF y)) as [[b1 b2] b3],
             (sf_rank (Prim2SF z)) as [[c1 c2] c3]. lia.
Qed.

(** ** Sorted lists *)

Lemma StronglySorted_app_iff {A : Type} (R : A -> A -> Prop) (l1 l2 : list A) :
  StronglySorted R (l1 ++ l2)
  <-> StronglySorted R l1 /\ StronglySorted R l2
      /\ (forall x y, In x l1 -> In y l2 -> R x y).
Proof.
  induction l1 as [|a l1 IH]; simpl.
  - split.
    + intros Hs. split; [constructor | split; [exact Hs | intros x y []]].
    + intros [_ [Hs _]]. exact Hs.
  - split.
    + intros Hs. inversion Hs as [|? ? Hs' Hall]; subst.
      apply IH in Hs'. destruct Hs' as [H1 [H2 H12]].
      rewrite Forall_forall in Hall.
      repeat split; auto.
      * constructor; auto. apply Forall_forall. intros x Hx.
        apply Hall. apply in_or_app. auto.
      * intros x y [<- | Hx] Hy; [apply Hall, in_or_app; auto | auto].
    + intros [H1 [H2 H12]]. inversion H1 as [|? ? Hs1 Hall1]; subst.
      constructor.
      * apply IH. repeat split; auto.
      * apply Forall_forall. intros x Hx. apply in_app_or in Hx.
        rewrite Forall_forall in Hall1. destruct Hx; auto.
Qed.

Lemma StronglySorted_rev {A : Type} (R : A -> A -> Prop) (l : list A) :
  StronglySorted R l -> StronglySorted (fun x y => R y x) (rev l).
Proof.
  induction 1 as [|a l Hs IH Hall]; simpl; [constructor |].
  apply StronglySorted_app_iff. repeat split; auto.
  - repeat constructor.
  - intros x y Hx [<- | []]. rewrite Forall_forall in Hall.
    apply Hall. apply in_rev. exact Hx.
Qed.

Lemma StronglySorted_impl_In {A : Type} (R R' : A -> A -> Prop) (l : list A) :
  (forall x y, In x l -> In y l -> R x y -> R' x y) ->
  StronglySorted R l -> StronglySorted R' l.
Proof.
  intros Himp Hs. induction Hs as [|a l Hs IH Hall]; constructor.
  - apply IH. intros x y Hx Hy. apply Himp; right; assumption.
  - rewrite Forall_forall in *. intros x Hx.
    apply Himp; [left; reflexivity | right; exact Hx | apply Hall, Hx].
Qed.

Lemma StronglySorted_map {A B : Type} (R : B -> B -> Prop) (f : A -> B)
    (l : list A) :
  StronglySorted (fun x y => R (f x) (f y)) l -> StronglySorted R (map f l).
Proof.
  induction 1 as [|a l Hs IH Hall]; simpl; constructor; auto.
  rewrite Forall_forall in *. intros y Hy. apply in_map_iff in Hy.
  destruct Hy as [x [<- Hx]]. apply Hall, Hx.
Qed.

(** ** The insertion sort of the kernel *)

Section InsertionSort.
Context `{Num} (L : NumLaws).
Variable v : list num.

Let valid := not_nan_at v.
Let above := not_below v.

Lemma insert_back_perm (vi : nat) (rp : list nat) :
  Permutation (Np.insert_back v vi rp) (vi :: rp).
Proof.
  induction rp as [|e rp IH]; simpl; auto.
  destruct (Np.LT v vi e); auto.
  eapply perm_trans; [apply perm_skip, IH | apply perm_swap].
Qed.

Lemma insert_back_sorted (vi : nat) (rp : list nat) :
  Forall valid rp ->
  StronglySorted above rp -> StronglySorted above (Np.insert_back v vi rp).
Proof.
  intros Hv Hs. induction Hs as [|e rp Hs IH Hall]; simpl.
  - repeat constructor.
  - inversion Hv as [|? ? Hve Hvr]; subst.
    destruct (Np.LT v vi e) eqn:E.
    + constructor; [apply IH, Hvr |].
      apply Forall_forall. intros x Hx.
      apply (Permutation_in _ (insert_back_perm vi rp)) in Hx.
      destruct Hx as [<- | Hx].
      * unfold above, not_below, Np.LT in *. apply (lt_asym L). exact E.
      * rewrite Forall_forall in Hall. apply Hall, Hx.
    + constructor; [constructor; assumption |].
      constructor; [exact E |].
      rewrite Forall_forall in Hall. apply Forall_forall. intros x Hx.
      specialize (Hall x Hx).
      unfold above, not_below, valid, not_nan_at, Np.LT in *.
      apply (lt_negtrans L) with (y := nth e v NaN); assumption.
Qed.

Lemma insertion_fold_perm (a acc : list nat) :
  Permutation (fold_left (fun rp vi => Np.insert_back v vi rp) a acc)
              (rev a ++ acc).
Proof.
  revert acc. induction a as [|x a IH]; intros acc; simpl; auto.
  eapply perm_trans; [apply IH |].
  rewrite <- app_assoc. simpl.
  apply Permutation_app_head. apply insert_back_perm.
Qed.

Lemma insertion_fold_sorted (a acc : list nat) :
  Forall valid a -> Forall valid acc -> StronglySorted above acc ->
  StronglySorted above (fold_left (fun rp vi => Np.insert_back v vi rp) a acc).
Proof.
  revert acc. induction a as [|x a IH]; intros acc Ha Hacc Hs; simpl; auto.
  inversion Ha; subst. apply IH; auto.
  - rewrite Forall_forall. intros y Hy.
    apply (Permutation_in _ (insert_back_perm x acc)) in Hy.
    rewrite Forall_forall in Hacc. destruct Hy as [<- | Hy]; auto.
  - apply insert_back_sorted; assumption.
Qed.

Lemma insertion_sort_perm (a : list nat) :
  Permutation (Np.insertion_sort v a) a.
Proof.
  unfold Np.insertion_sort.
  eapply perm_trans; [symmetry; apply Permutation_rev |].
  eapply perm_trans; [apply insertion_fold_perm |].
  rewrite app_nil_r. symmetry. apply Permutation_rev.
Qed.

Lemma insertion_sort_sorted (a : list nat) :
  Forall valid a ->
  StronglySorted (fun i j => Np.LT v j i = false) (Np.insertion_sort v a).
Proof.
  intros Ha. unfold Np.insertion_sort.
  apply (StronglySorted_rev above).
  apply insertion_fold_sorted; auto. constructor.
Qed.

End InsertionSort.


(** ** The sort kernel of numpy meets [kernel_ok] *)

(** *** Arrays of positions *)

Lemma length_set (a : list nat) (i x : nat) : length (Np.set a i x) = length a.
Proof.
  revert i; induction a as [|y a IH]; intros [|i]; simpl; auto.
Qed.

Lemma get_set_eq (a : list nat) (i x : nat) :
  i < length a -> Np.get (Np.set a i x) i = x.
Proof.
  unfold Np.get. revert i; induction a as [|y a IH]; intros [|i]; simpl;
    try lia; auto.
  intros Hi. apply IH. lia.
Qed.

Lemma get_set_neq (a : list nat) (i j x : nat) :
  i <> j -> Np.get (Np.set a i x) j = Np.get a j.
Proof.
  unfold Np.get. revert i j; induction a as [|y a IH]; intros [|i] [|j]; simpl;
    intros Hij; try lia; auto.
Qed.

Lemma length_swap (a : list nat) (i j : nat) :
  length (Np.swap a i j) = length a.
Proof. unfold Np.swap. rewrite !length_set. reflexivity. Qed.

Lemma get_swap (a : list nat) (i j k : nat) :
  i < length a -> j < length a ->
  Np.get (Np.swap a i j) k
  = if Nat.eqb k j then Np.get a i
    else if Nat.eqb k i then Np.get a j
    else Np.get a k.
Proof.
  intros Hi Hj. unfold Np.swap.
  destruct (Nat.eqb_spec k j) as [-> | Hkj].
  - apply get_set_eq. rewrite length_set. exact Hj.
  - rewrite get_set_neq by auto.
    destruct (Nat.eqb_spec k i) as [-> | Hki].
    + apply get_set_eq. exact Hi.
    + apply get_set_neq. auto.
Qed.

Lemma count_occ_set (a : list nat) (i x y : nat) :
  i < length a ->
  count_occ Nat.eq_dec (Np.set a i x) y
  + (if Nat.eq_dec (Np.get a i) y then 1 else 0)
  = count_occ Nat.eq_dec a y + (if Nat.eq_dec x y then 1 else 0).
Proof.
  unfold Np.get. revert i; induction a as [|z a IH]; intros [|i]; simpl;
    try lia.
  - intros _. destruct (Nat.eq_dec x y), (Nat.eq_dec z y); lia.
  - intros Hi. specialize (IH i ltac:(lia)).
    destruct (Nat.eq_dec z y); lia.
Qed.

Lemma swap_perm (a : list nat) (i j : nat) :
  i < length a -> j < length a -> Permutation (Np.swap a i j) a.
Proof.
  intros Hi Hj. apply (Permutation_count_occ Nat.eq_dec). intros y.
  unfold Np.swap.
  pose proof (count_occ_set a i (Np.get a j) y Hi) as H1.
  pose proof (count_occ_set (Np.set a i (Np.get a j)) j (Np.get a i) y
                ltac:(rewrite length_set; exact Hj)) as H2.
  assert (E : Np.get (Np.set a i (Np.get a j)) j = Np.get a j).
  { destruct (Nat.eq_dec i j) as [-> | Hij].
    - apply get_set_eq. exact Hj.
    - apply get_set_neq. exact Hij. }
  rewrite E in H2.
  destruct (Nat.eq_dec (Np.get a i) y), (Nat.eq_dec (Np.get a j) y); lia.
Qed.

Lemma get_In (a : list nat) (i : nat) : i < length a -> In (Np.get a i) a.
Proof. intros Hi. unfold Np.get. apply nth_In. exact Hi. Qed.

Lemma In_get (a : list nat) (x : nat) :
  In x a -> exists i, i < length a /\ Np.get a i = x.
Proof. intros Hx. unfold Np.get. apply In_nth. exact Hx. Qed.

(** *** Partition *)

Section Partition.
Context `{Num} (L : NumLaws).
Variable v : list num.

Local Abbreviation LT := (Np.LT v).
Local Abbreviation ok := (not_nan_at v).

Lemma LT_irrefl (i : nat) : LT i i = false.
Proof.
  unfold Np.LT. destruct (lt (nth i v NaN) (nth i v NaN)) eqn:E; auto.
  apply (lt_asym L) in E as E'. congruence.
Qed.

Lemma LT_asym (i j : nat) : LT i j = true -> LT j i = false.
Proof. unfold Np.LT. apply (lt_asym L). Qed.

(** [k <= j <= i] gives [k <= i], read as "not below". *)
Lemma LT_negtrans (i j k : nat) :
  ok j -> LT i j = false -> LT j k = false -> LT i k = false.
Proof. unfold Np.LT, not_nan_at. apply (lt_negtrans L). Qed.

(** One compare-and-swap of the median of three. *)
Lemma cas_spec (a : list nat) (i j : nat) :
  i < length a -> j < length a -> i <> j ->
  let a' := if LT (Np.get a i) (Np.get a j) then Np.swap a i j else a in
  LT (Np.get a' i) (Np.get a' j) = false
  /\ Permutation a' a
  /\ length a' = length a
  /\ (forall k, k <> i -> k <> j -> Np.get a' k = Np.get a k)
  /\ ((Np.get a' i = Np.get a i /\ Np.get a' j = Np.get a j)
      \/ (Np.get a' i = Np.get a j /\ Np.get a' j = Np.get a i)).
Proof.
  intros Hi Hj Hij a'. unfold a'.
  destruct (LT (Np.get a i) (Np.get a j)) eqn:E.
  - assert (Ei : Np.get (Np.swap a i j) i = Np.get a j).
    { rewrite get_swap by assumption.
      destruct (Nat.eqb_spec i j); [contradiction |].
      rewrite Nat.eqb_refl. reflexivity. }
    assert (Ej : Np.get (Np.swap a i j) j = Np.get a i).
    { rewrite get_swap by assumption. rewrite Nat.eqb_refl. reflexivity. }
    rewrite Ei, Ej. repeat split.
    + apply LT_asym. exact E.
    + apply swap_perm; assumption.
    + apply length_swap.
    + intros k Hki Hkj. rewrite get_swap by assumption.
      destruct (Nat.eqb_spec k j); [contradiction |].
      destruct (Nat.eqb_spec k i); [contradiction |]. reflexivity.
    + right. auto.
  - repeat split; auto.
Qed.

Lemma median3_spec (a : list nat) (pm pr : nat) :
  0 < pm -> pm < pr -> pr < length a -> Forall ok a ->
  let a' := Np.median3 v a pm pr in
  Permutation a' a
  /\ length a' = length a
  /\ LT (Np.get a' pm) (Np.get a' 0) = false
  /\ LT (Np.get a' pr) (Np.get a' pm) = false.
Proof.
  intros Hpm Hpr Hlen Hok a'. unfold a', Np.median3.
  destruct (cas_spec a pm 0 ltac:(lia) ltac:(lia) ltac:(lia))
    as [O1 [P1 [L1 [K1 V1]]]].
  set (a1 := if LT (Np.get a pm) (Np.get a 0) then Np.swap a pm 0 else a) in *.
  destruct (cas_spec a1 pr pm ltac:(lia) ltac:(lia) ltac:(lia))
    as [O2 [P2 [L2 [K2 V2]]]].
  set (a2 := if LT (Np.get a1 pr) (Np.get a1 pm) then Np.swap a1 pr pm else a1) in *.
  destruct (cas_spec a2 pm 0 ltac:(lia) ltac:(lia) ltac:(lia))
    as [O3 [P3 [L3 [K3 V3]]]].
  set (a3 := if LT (Np.get a2 pm) (Np.get a2 0) then Np.swap a2 pm 0 else a2) in *.
  assert (Hok1 : Forall ok a1).
  { rewrite Forall_forall in *. intros x Hx. apply Hok.
    eapply Permutation_in; [exact P1 | exact Hx]. }
  assert (Hok2 : Forall ok a2).
  { rewrite Forall_forall in *. intros x Hx. apply Hok1.
    eapply Permutation_in; [exact P2 | exact Hx]. }
  assert (okget : forall k, k < length a2 -> ok (Np.get a2 k)).
  { intros k Hk. rewrite Forall_forall in Hok2. apply Hok2, get_In, Hk. }
  assert (okget1 : forall k, k < length a1 -> ok (Np.get a1 k)).
  { intros k Hk. rewrite Forall_forall in Hok1. apply Hok1, get_In, Hk. }
  (* after the second step both [a2[0]] and [a2[pm]] are not above [a2[pr]] *)
  assert (H0r : LT (Np.get a2 pr) (Np.get a2 0) = false).
  { rewrite (K2 0) by lia.
    destruct V2 as [[E1 E2] | [E1 E2]]; rewrite E1.
    - apply LT_negtrans with (j := Np.get a1 pm).
      + apply okget1. lia.
      + rewrite <- E1, <- E2. exact O2.
      + exact O1.
    - exact O1. }
  split; [eapply perm_trans; [exact P3 |]; eapply perm_trans; eauto |].
  split; [lia |].
  split; [exact O3 |].
  rewrite (K3 pr) by lia.
  destruct V3 as [[E1 E2] | [E1 E2]]; rewrite E1; assumption.
Qed.

Lemma scan_up_spec (fuel : nat) (a : list nat) (p k s : nat) :
  k <= s -> LT (Np.get a s) p = false -> s - k < fuel ->
  let k' := Np.scan_up v fuel a p k in
  k <= k' <= s
  /\ LT (Np.get a k') p = false
  /\ (forall j, k <= j < k' -> LT (Np.get a j) p = true).
Proof.
  revert k. induction fuel as [|fuel IH]; intros k Hks Hs Hf; [lia |].
  simpl. destruct (LT (Np.get a k) p) eqn:E.
  - assert (k <> s) by (intros ->; congruence).
    destruct (IH (S k) ltac:(lia) Hs ltac:(lia)) as [B [S1 A]].
    split; [lia |]. split; [exact S1 |].
    intros j Hj. destruct (Nat.eq_dec j k) as [-> | Hne]; [exact E |].
    apply A. lia.
  - split; [lia |]. split; [exact E |]. intros j Hj. lia.
Qed.

Lemma scan_down_spec (fuel : nat) (a : list nat) (p k s : nat) :
  s <= k -> LT p (Np.get a s) = false -> k - s < fuel ->
  let k' := Np.scan_down v fuel a p k in
  s <= k' <= k
  /\ LT p (Np.get a k') = false
  /\ (forall j, k' < j <= k -> LT p (Np.get a j) = true).
Proof.
  revert k. induction fuel as [|fuel IH]; intros k Hks Hs Hf; [lia |].
  simpl. destruct (LT p (Np.get a k)) eqn:E.
  - assert (k <> s) by (intros ->; congruence).
    destruct (IH (k - 1) ltac:(lia) Hs ltac:(lia)) as [B [S1 A]].
    split; [lia |]. split; [exact S1 |].
    intros j Hj. destruct (Nat.eq_dec j k) as [-> | Hne]; [exact E |].
    apply A. lia.
  - split; [lia |]. split; [exact E |]. intros j Hj. lia.
Qed.

Lemma hoare_spec (a0 : list nat) (p : nat) (fuel : nat) (a : list nat)
    (pi pj : nat) :
  2 <= length a0 ->
  hoare_inv v a0 p a pi pj -> pj - pi < fuel ->
  let '(a', pi') := Np.hoare v fuel a p pi pj in
  length a' = length a0
  /\ Permutation a' a0
  /\ pi' <= length a0 - 2
  /\ Np.get a' (length a0 - 2) = p
  /\ (forall k, k < pi' -> LT p (Np.get a' k) = false)
  /\ (forall k, pi' <= k -> k <= length a0 - 1 -> LT (Np.get a' k) p = false).
Proof.
  intros Hn. revert a pi pj.
  induction fuel as [|fuel IH]; intros a pi pj Inv Hf; [lia |].
  destruct Inv as [Hlen [Hperm [Hij [Hjr [Hpiv [Hlo Hhi]]]]]].
  simpl.
  pose proof (scan_up_spec (length a) a p (S pi) pj ltac:(lia)
                (Hhi pj ltac:(lia) ltac:(lia)) ltac:(lia)) as Up.
  set (pi' := Np.scan_up v (length a) a p (S pi)) in *.
  destruct Up as [Bi [Si Ai]].
  pose proof (scan_down_spec (length a) a p (pj - 1) pi ltac:(lia)
                (Hlo pi ltac:(lia)) ltac:(lia)) as Down.
  set (pj' := Np.scan_down v (length a) a p (pj - 1)) in *.
  destruct Down as [Bj [Sj Aj]].
  assert (Lo' : forall k, k < pi' -> LT p (Np.get a k) = false).
  { intros k Hk. destruct (Nat.le_gt_cases k pi) as [Hle | Hgt].
    - apply Hlo. exact Hle.
    - apply LT_asym. apply Ai. lia. }
  assert (Hi' : forall k, pj' < k -> k <= length a0 - 1 ->
                          LT (Np.get a k) p = false).
  { intros k Hk Hkr. destruct (Nat.le_gt_cases pj k) as [Hle | Hgt].
    - apply Hhi; assumption.
    - apply LT_asym. apply Aj. lia. }
  destruct (pj' <=? pi') eqn:Ecmp.
  - apply Nat.leb_le in Ecmp.
    repeat split; auto; try lia.
    intros k Hk Hkr. destruct (Nat.eq_dec k pi') as [-> | Hne]; [exact Si |].
    apply Hi'; lia.
  - apply Nat.leb_gt in Ecmp.
    apply IH; [| lia].
    assert (Hpi' : pi' < length a) by lia.
    assert (Hpj' : pj' < length a) by lia.
    unfold hoare_inv. rewrite length_swap.
    split; [exact Hlen |].
    split; [eapply perm_trans; [apply swap_perm; assumption | exact Hperm] |].
    split; [exact Ecmp |]. split; [lia |].
    split.
    { rewrite get_swap by assumption.
      destruct (Nat.eqb_spec (length a0 - 2) pj'); [lia |].
      destruct (Nat.eqb_spec (length a0 - 2) pi'); [lia |]. exact Hpiv. }
    split.
    { intros k Hk. rewrite get_swap by assumption.
      destruct (Nat.eqb_spec k pj'); [lia |].
      destruct (Nat.eqb_spec k pi'); [exact Sj |].
      apply Lo'. lia. }
    { intros k Hk Hkr. rewrite get_swap by assumption.
      destruct (Nat.eqb_spec k pj'); [exact Si |].
      destruct (Nat.eqb_spec k pi'); [lia |].
      apply Hi'; lia. }
Qed.

Lemma split_at (a : list nat) (i : nat) :
  i < length a ->
  a = firstn i a ++ Np.get a i :: skipn (S i) a.
Proof.
  unfold Np.get. revert i. induction a as [|x a IH]; intros [|i] Hi; simpl in *;
    try lia; auto.
  f_equal. apply IH. lia.
Qed.

Lemma In_firstn_get (a : list nat) (i x : nat) :
  In x (firstn i a) -> exists k, k < i /\ k < length a /\ Np.get a k = x.
Proof.
  unfold Np.get. revert i. induction a as [|y a IH]; intros [|i]; simpl;
    try tauto.
  intros [<- | Hx].
  - exists 0. repeat split; lia.
  - destruct (IH i Hx) as [k [H1 [H2 H3]]]. exists (S k). repeat split; auto; lia.
Qed.

Lemma In_skipn_get (a : list nat) (i x : nat) :
  In x (skipn i a) -> exists k, i <= k /\ k < length a /\ Np.get a k = x.
Proof.
  unfold Np.get. revert i. induction a as [|y a IH]; intros [|i]; simpl;
    try tauto.
  - intros [<- | Hx].
    + exists 0. repeat split; lia.
    + apply In_nth with (d := 0) in Hx. destruct Hx as [k [H1 H2]].
      exists (S k). repeat split; auto; lia.
  - intros Hx. destruct (IH i Hx) as [k [H1 [H2 H3]]].
    exists (S k). repeat split; auto; lia.
Qed.

Lemma partition_spec (a : list nat) :
  3 <= length a -> Forall ok a ->
  let '(l, p, r) := Np.partition v a in
  Permutation (l ++ p :: r) a
  /\ (forall x, In x l -> LT p x = false)
  /\ (forall y, In y r -> LT y p = false).
Proof.
  intros Hlen Hok. unfold Np.partition.
  set (pr := length a - 1).
  set (pm := Nat.div2 pr).
  assert (Hpm0 : 0 < pm).
  { unfold pm. rewrite Nat.div2_div. apply Nat.div_str_pos. unfold pr. lia. }
  assert (Hpmr : pm < pr).
  { unfold pm. apply Nat.lt_div2. unfold pr. lia. }
  destruct (median3_spec a pm pr Hpm0 Hpmr ltac:(unfold pr; lia) Hok)
    as [P3 [L3 [O3 R3]]].
  set (a3 := Np.median3 v a pm pr) in *.
  set (p := Np.get a3 pm).
  set (a4 := Np.swap a3 pm (pr - 1)).
  assert (L4 : length a4 = length a)
    by (unfold a4; rewrite length_swap; exact L3).
  assert (Epr : pr - 1 = length a - 2) by (unfold pr; lia).
  assert (Inv : hoare_inv v a p a4 0 (pr - 1)).
  { unfold hoare_inv. split; [exact L4 |].
    split; [unfold a4; eapply perm_trans;
            [apply swap_perm; unfold pr in *; lia | exact P3] |].
    split; [unfold pr; lia |]. split; [lia |].
    split.
    { rewrite <- Epr. unfold a4. rewrite get_swap by (unfold pr in *; lia).
      rewrite Nat.eqb_refl. reflexivity. }
    split.
    { intros k Hk. assert (k = 0) by lia. subst k.
      unfold a4. rewrite get_swap by (unfold pr in *; lia).
      destruct (Nat.eqb_spec 0 (pr - 1)); [unfold pr in *; lia |].
      destruct (Nat.eqb_spec 0 pm); [lia |]. exact O3. }
    { intros k Hk Hkr. unfold a4. rewrite get_swap by (unfold pr in *; lia).
      destruct (Nat.eqb_spec k (pr - 1)); [apply LT_irrefl |].
      assert (k = pr) by (unfold pr in *; lia). subst k.
      destruct (Nat.eqb_spec pr pm); [lia |]. exact R3. } }
  pose proof (hoare_spec a p (length a4) a4 0 (pr - 1) ltac:(lia) Inv
                ltac:(unfold pr in *; lia)) as Post.
  destruct (Np.hoare v (length a4) a4 p 0 (pr - 1)) as [a' pi'].
  destruct Post as [L' [P' [Bpi [Hpiv [Lo Hi]]]]].
  set (a5 := Np.swap a' pi' (pr - 1)).
  assert (L5 : length a5 = length a)
    by (unfold a5; rewrite length_swap; exact L').
  assert (Hpi : pi' < length a') by lia.
  assert (Hpr1 : pr - 1 < length a') by lia.
  assert (Ep : Np.get a5 pi' = p).
  { unfold a5. rewrite get_swap by assumption.
    destruct (Nat.eqb_spec pi' (pr - 1)) as [E | _].
    - rewrite E, Epr. exact Hpiv.
    - rewrite Nat.eqb_refl, Epr. exact Hpiv. }
  rewrite Ep.
  split; [| split].
  - rewrite <- Ep. rewrite <- (split_at a5 pi') by lia.
    unfold a5. eapply perm_trans; [apply swap_perm; assumption | exact P'].
  - intros x Hx. apply In_firstn_get in Hx. destruct Hx as [k [H1 [H2 <-]]].
    unfold a5. rewrite get_swap by assumption.
    destruct (Nat.eqb_spec k (pr - 1)); [lia |].
    destruct (Nat.eqb_spec k pi'); [lia |]. apply Lo. exact H1.
  - intros y Hy. apply In_skipn_get in Hy. destruct Hy as [k [H1 [H2 <-]]].
    unfold a5. rewrite get_swap by assumption.
    destruct (Nat.eqb_spec k (pr - 1)).
    + apply Hi; lia.
    + destruct (Nat.eqb_spec k pi'); [lia |]. apply Hi; lia.
Qed.

End Partition.

(** *** Heap sort *)

Lemma length_set1 (a : list nat) (i x : nat) :
  length (Np.set1 a i x) = length a.
Proof. apply length_set. Qed.

Lemma get1_set1_eq (a : list nat) (i x : nat) :
  1 <= i <= length a -> Np.get1 (Np.set1 a i x) i = x.
Proof. intros Hi. unfold Np.get1, Np.set1. apply get_set_eq. lia. Qed.

Lemma get1_set1_neq (a : list nat) (i k x : nat) :
  1 <= i -> 1 <= k -> k <> i -> Np.get1 (Np.set1 a i x) k = Np.get1 a k.
Proof. intros Hi Hk Hne. unfold Np.get1, Np.set1. apply get_set_neq. lia. Qed.

Lemma count_occ_set1 (a : list nat) (i x y : nat) :
  1 <= i <= length a ->
  count_occ Nat.eq_dec (Np.set1 a i x) y
  + (if Nat.eq_dec (Np.get1 a i) y then 1 else 0)
  = count_occ Nat.eq_dec a y + (if Nat.eq_dec x y then 1 else 0).
Proof. intros Hi. unfold Np.get1, Np.set1. apply count_occ_set. lia. Qed.

Section Heap.
Context `{Num} (L : NumLaws).
Variable v : list num.

Local Abbreviation LT := (Np.LT v).
Local Abbreviation ok := (not_nan_at v).

Lemma sift_place (a : list nat) (tmp i n lo : nat) :
  sift_pre v a tmp i n lo ->
  (forall c, (c = 2 * i \/ c = 2 * i + 1) -> c <= n ->
             LT tmp (Np.get1 a c) = false) ->
  sift_post v a tmp i n lo (Np.set1 a i tmp).
Proof.
  intros [Hlo [Hloi [Hin [Hn [Oktmp [Oka [I1 I2]]]]]]] Hch.
  unfold sift_post. rewrite length_set1.
  split; [reflexivity |]. split; [| split; [| split]].
  - intros k Hk1 Hk2 c Hc Hcn.
    destruct (Nat.eq_dec k i) as [-> | Hki].
    + rewrite get1_set1_eq by lia.
      rewrite get1_set1_neq by lia. apply Hch; assumption.
    + rewrite (get1_set1_neq a i k) by lia.
      destruct (Nat.eq_dec c i) as [-> | Hci].
      * rewrite get1_set1_eq by lia.
        apply (I2 k Hk1). lia.
      * rewrite get1_set1_neq by lia. apply I1; assumption.
  - intros k Hk. apply get1_set1_neq; lia.
  - reflexivity.
  - intros k Hk1 Hk2. destruct (Nat.eq_dec k i) as [-> | Hki].
    + left. apply get1_set1_eq. lia.
    + right. exists k. split; [lia |]. split; [lia |].
      apply get1_set1_neq; lia.
Qed.

Lemma sift_eq (fuel : nat) (a : list nat) (tmp i n : nat) :
  Np.sift v (S fuel) a tmp i n
  = let j0 := 2 * i in
    if n <? j0 then Np.set1 a i tmp
    else
      let j := if (j0 <? n) && LT (Np.get1 a j0) (Np.get1 a (S j0))
               then S j0 else j0 in
      if LT tmp (Np.get1 a j)
      then Np.sift v fuel (Np.set1 a i (Np.get1 a j)) tmp j n
      else Np.set1 a i tmp.
Proof. reflexivity. Qed.

Lemma sift_spec (fuel : nat) (a : list nat) (tmp i n lo : nat) :
  sift_pre v a tmp i n lo -> n - i < fuel ->
  sift_post v a tmp i n lo (Np.sift v fuel a tmp i n).
Proof.
  revert a i. induction fuel as [|fuel IH]; intros a i Pre Hf; [lia |].
  pose proof Pre as [Hlo [Hloi [Hin [Hn [Oktmp [Oka [I1 I2]]]]]]].
  rewrite sift_eq. cbv zeta.
  remember (2 * i) as j0 eqn:Ej0.
  destruct (n <? j0) eqn:En.
  - apply Nat.ltb_lt in En. apply sift_place; auto. intros c Hc Hcn. lia.
  - apply Nat.ltb_ge in En.
    set (j := if (j0 <? n) && LT (Np.get1 a j0) (Np.get1 a (S j0))
              then S j0 else j0).
    assert (Hj : (j = 2 * i \/ j = 2 * i + 1) /\ j <= n
                 /\ forall c, (c = 2 * i \/ c = 2 * i + 1) -> c <= n ->
                              LT (Np.get1 a j) (Np.get1 a c) = false).
    { unfold j. destruct (j0 <? n) eqn:E1; cbn [andb].
      - apply Nat.ltb_lt in E1.
        destruct (LT (Np.get1 a j0) (Np.get1 a (S j0))) eqn:E2.
        + split; [right; lia |]. split; [lia |].
          intros c [-> | ->] Hcn.
          * rewrite <- Ej0. apply (LT_asym L). exact E2.
          * replace (2 * i + 1) with (S j0) by lia. apply (LT_irrefl L).
        + split; [left; lia |]. split; [lia |].
          intros c [-> | ->] Hcn.
          * rewrite <- Ej0. apply (LT_irrefl L).
          * replace (2 * i + 1) with (S j0) by lia. exact E2.
      - apply Nat.ltb_ge in E1.
        split; [left; lia |]. split; [lia |].
        intros c [-> | ->] Hcn; [| lia].
        rewrite <- Ej0. apply (LT_irrefl L). }
    clearbody j.
    destruct Hj as [Hj12 [Hjn Hjmax]].
    destruct (LT tmp (Np.get1 a j)) eqn:Et.
    + (* the hole moves down to [j] *)
      assert (Hij : j <> i) by lia.
      set (a1 := Np.set1 a i (Np.get1 a j)).
      assert (Pre1 : sift_pre v a1 tmp j n lo).
      { unfold sift_pre, a1. rewrite length_set1.
        split; [lia |]. split; [lia |]. split; [lia |]. split; [lia |].
        split; [exact Oktmp |].
        split.
        { intros k Hk1 Hk2. destruct (Nat.eq_dec k i) as [-> | Hki].
          - rewrite get1_set1_eq by lia. apply Oka; lia.
          - rewrite get1_set1_neq by lia. apply Oka; lia. }
        split.
        { intros k c Hk1 Hk2 Hkj Hc Hcn Hcj.
          destruct (Nat.eq_dec k i) as [-> | Hki].
          - rewrite get1_set1_eq by lia.
            rewrite get1_set1_neq by lia. apply Hjmax; assumption.
          - rewrite (get1_set1_neq a i k) by lia.
            destruct (Nat.eq_dec c i) as [-> | Hci].
            + rewrite get1_set1_eq by lia.
              apply (I2 k Hk1); [lia | | lia]. lia.
            + rewrite get1_set1_neq by lia. apply I1; assumption. }
        { intros q Hq Hqj. assert (q = i) by lia. subst q.
          rewrite get1_set1_eq by lia. split.
          - apply (LT_asym L). exact Et.
          - intros c Hc Hcn. rewrite get1_set1_neq by lia.
            apply I1; try lia. } }
      pose proof (IH a1 j Pre1 ltac:(lia)) as Post.
      destruct Post as [Q1 [Q2 [Q3 [Q4 Q5]]]].
      unfold sift_post. unfold a1 in *. rewrite length_set1 in Q1.
      split; [exact Q1 |]. split; [exact Q2 |].
      split; [| split].
      * intros k Hk. rewrite Q3 by exact Hk. apply get1_set1_neq; lia.
      * intros y. rewrite Q4.
        pose proof (count_occ_set1 (Np.set1 a i (Np.get1 a j)) j tmp y
                      ltac:(rewrite length_set1; lia)) as C1.
        pose proof (count_occ_set1 a i (Np.get1 a j) y ltac:(lia)) as C2.
        pose proof (count_occ_set1 a i tmp y ltac:(lia)) as C3.
        rewrite get1_set1_neq in C1 by lia.
        destruct (Nat.eq_dec (Np.get1 a j) y), (Nat.eq_dec (Np.get1 a i) y),
          (Nat.eq_dec tmp y); lia.
      * intros k Hk1 Hk2. destruct (Q5 k Hk1 Hk2) as [E | [k' [A [B E]]]].
        -- left. exact E.
        -- right. destruct (Nat.eq_dec k' i) as [-> | Hki].
           ++ exists j. rewrite get1_set1_eq in E by lia.
              split; [lia |]. split; [lia |]. exact E.
           ++ exists k'. rewrite get1_set1_neq in E by lia. auto.
    + apply sift_place; auto.
      intros c Hc Hcn.
      apply (LT_negtrans L v) with (j := Np.get1 a j).
      * apply Oka; lia.
      * exact Et.
      * apply Hjmax; assumption.
Qed.

Lemma set_get_same (a : list nat) (i : nat) : Np.set a i (Np.get a i) = a.
Proof.
  unfold Np.get. revert i. induction a as [|x a IH]; intros [|i]; simpl; auto.
  f_equal. apply IH.
Qed.

Lemma ok_get1 (a : list nat) :
  Forall ok a -> forall k, 1 <= k -> k <= length a -> ok (Np.get1 a k).
Proof.
  intros Hok k Hk1 Hk2. rewrite Forall_forall in Hok.
  apply Hok. unfold Np.get1. apply get_In. lia.
Qed.

Lemma count_perm (a b : list nat) :
  (forall y, count_occ Nat.eq_dec a y = count_occ Nat.eq_dec b y) ->
  Permutation a b.
Proof. intros Hc. apply (Permutation_count_occ Nat.eq_dec). exact Hc. Qed.

Lemma perm_ok (a b : list nat) : Permutation a b -> Forall ok b -> Forall ok a.
Proof.
  intros Hp Hb. rewrite Forall_forall in *. intros x Hx.
  apply Hb. eapply Permutation_in; eauto.
Qed.

Lemma heapify_spec (l : nat) (a : list nat) :
  l <= length a -> Forall ok a -> heap_from v a (l + 1) (length a) ->
  let a' := Np.heapify v l a in
  length a' = length a /\ Permutation a' a /\ heap_from v a' 1 (length a).
Proof.
  revert a. induction l as [|l IH]; intros a Hl Hok Hheap; simpl.
  - repeat split; auto.
  - assert (Pre : sift_pre v a (Np.get1 a (S l)) (S l) (length a) (S l)).
    { unfold sift_pre. split; [lia |]. split; [lia |]. split; [lia |].
      split; [lia |]. split; [apply ok_get1; auto; lia |].
      split; [apply ok_get1; auto |].
      split.
      - intros k c Hk1 Hk2 Hki Hc Hcn Hci.
        apply (Hheap k ltac:(lia) Hk2 c Hc Hcn).
      - intros q Hq Hi. lia. }
    pose proof (sift_spec (length a) a (Np.get1 a (S l)) (S l) (length a) (S l)
                  Pre ltac:(lia)) as [Q1 [Q2 [Q3 [Q4 Q5]]]].
    set (a1 := Np.sift v (length a) a (Np.get1 a (S l)) (S l) (length a)) in *.
    assert (P1 : Permutation a1 a).
    { apply count_perm. intros y. rewrite Q4.
      unfold Np.set1, Np.get1. rewrite set_get_same. reflexivity. }
    destruct (IH a1 ltac:(lia) (perm_ok _ _ P1 Hok)) as [R1 [R2 R3]].
    { rewrite Q1. replace (l + 1) with (S l) by lia. exact Q2. }
    rewrite Q1 in *.
    split; [exact R1 |]. split; [eapply perm_trans; eauto | exact R3].
Qed.

Lemma root_max (a : list nat) (n : nat) :
  n <= length a -> Forall ok a -> heap_from v a 1 n ->
  forall k, 1 <= k -> k <= n -> LT (Np.get1 a 1) (Np.get1 a k) = false.
Proof.
  intros Hn Hok Hheap k.
  induction k as [k IHk] using (well_founded_induction Wf_nat.lt_wf).
  intros Hk1 Hk2. destruct (Nat.eq_dec k 1) as [-> | Hne].
  - apply (LT_irrefl L).
  - assert (Hq : (k = 2 * (k / 2) \/ k = 2 * (k / 2) + 1) /\ 1 <= k / 2 < k).
    { pose proof (Nat.div_mod_eq k 2) as E.
      pose proof (Nat.mod_upper_bound k 2 ltac:(lia)) as B.
      assert (1 <= k / 2) by (apply Nat.div_str_pos; lia).
      lia. }
    destruct Hq as [Hc [Hq1 Hq2]].
    apply (LT_negtrans L v) with (j := Np.get1 a (k / 2)).
    + apply ok_get1; auto; lia.
    + apply IHk; lia.
    + apply (Hheap (k / 2) ltac:(lia) ltac:(lia) k Hc Hk2).
Qed.

Lemma extract_eq (n : nat) (a : list nat) :
  Np.extract v (S (S n)) a
  = Np.extract v (S n)
      (Np.sift v (length (Np.set1 a (S (S n)) (Np.get1 a 1)))
               (Np.set1 a (S (S n)) (Np.get1 a 1)) (Np.get1 a (S (S n)))
               1 (S n)).
Proof. reflexivity. Qed.

Lemma extract_spec (n : nat) (a : list nat) :
  n <= length a -> (length a = 0 \/ 1 <= n) -> Forall ok a ->
  heap_from v a 1 n -> tail_sorted v a n ->
  let a' := Np.extract v n a in
  Permutation a' a /\ tail_sorted v a' 0.
Proof.
  revert a. induction n as [|n IH]; intros a Hn Hn1 Hok Hheap Htail.
  - simpl. split; auto.
  - destruct n as [|n].
    + simpl. split; auto.
      intros k1 k2 H1 H2 H3 _. apply Htail; lia.
    + rewrite extract_eq.
      set (m := S (S n)) in *.
      set (tmp := Np.get1 a m).
      set (a1 := Np.set1 a m (Np.get1 a 1)).
      assert (L1 : length a1 = length a) by apply length_set1.
      assert (Ok1 : forall k, 1 <= k -> k <= length a1 -> ok (Np.get1 a1 k)).
      { intros k Hk1 Hk2. unfold a1.
        destruct (Nat.eq_dec k m) as [-> | Hne].
        - rewrite get1_set1_eq by lia. apply ok_get1; auto; lia.
        - rewrite get1_set1_neq by lia. apply ok_get1; auto; lia. }
      assert (Pre : sift_pre v a1 tmp 1 (S n) 1).
      { unfold sift_pre. split; [lia |]. split; [lia |]. split; [lia |].
        split; [lia |]. split; [apply ok_get1; auto; lia |].
        split; [exact Ok1 |].
        split.
        - intros k c Hk1 Hk2 Hki Hc Hcn Hci. unfold a1.
          rewrite !get1_set1_neq by lia.
          apply (Hheap k ltac:(lia) ltac:(lia) c Hc ltac:(lia)).
        - intros q Hq Hi. lia. }
      pose proof (sift_spec (length a1) a1 tmp 1 (S n) 1 Pre ltac:(lia))
        as [Q1 [Q2 [Q3 [Q4 Q5]]]].
      set (a2 := Np.sift v (length a1) a1 tmp 1 (S n)) in *.
      assert (P2 : Permutation a2 a).
      { apply count_perm. intros y. rewrite Q4.
        pose proof (count_occ_set1 a1 1 tmp y ltac:(lia)) as C1.
        pose proof (count_occ_set1 a m (Np.get1 a 1) y ltac:(lia)) as C2.
        fold a1 in C2.
        assert (E11 : Np.get1 a1 1 = Np.get1 a 1)
          by (unfold a1; apply get1_set1_neq; lia).
        rewrite E11 in C1. unfold tmp in *.
        destruct (Nat.eq_dec (Np.get1 a 1) y), (Nat.eq_dec (Np.get1 a m) y);
          lia. }
      assert (From : forall k, 1 <= k -> k <= S n ->
                 exists k', 1 <= k' /\ k' <= m /\ Np.get1 a2 k = Np.get1 a k').
      { intros k Hk1 Hk2. destruct (Q5 k Hk1 Hk2) as [E | [k' [A [B E]]]].
        - exists m. split; [lia |]. split; [lia |]. exact E.
        - exists k'. split; [lia |]. split; [lia |].
          rewrite E. unfold a1. apply get1_set1_neq; lia. }
      destruct (IH a2) as [R1 R2]; try lia.
      * eapply perm_ok; eauto.
      * exact Q2.
      * intros k1 k2 H1 H2 H3 H4. rewrite Q1, L1 in H3.
        rewrite (Q3 k2) by lia.
        destruct (Nat.eq_dec k2 m) as [-> | Hk2m].
        -- unfold a1 at 1. rewrite get1_set1_eq by lia.
           destruct (From k1 H1 ltac:(lia)) as [k' [A [B ->]]].
           apply (root_max a m); auto; lia.
        -- unfold a1 at 1. rewrite get1_set1_neq by lia.
           destruct (Nat.le_gt_cases k1 (S n)) as [Hle | Hgt].
           ++ destruct (From k1 H1 Hle) as [k' [A [B ->]]].
              apply Htail; lia.
           ++ rewrite (Q3 k1) by lia. unfold a1.
              destruct (Nat.eq_dec k1 m) as [-> | Hk1m].
              ** rewrite get1_set1_eq by lia. apply Htail; lia.
              ** rewrite get1_set1_neq by lia. apply Htail; lia.
      * split; [eapply perm_trans; eauto | exact R2].
Qed.

Lemma index_sorted (R : nat -> nat -> Prop) (a : list nat) :
  (forall i j, i < j -> j < length a -> R (Np.get a i) (Np.get a j)) ->
  StronglySorted R a.
Proof.
  unfold Np.get. induction a as [|x a IH]; intros Hs; constructor.
  - apply IH. intros i j Hij Hj. apply (Hs (S i) (S j)); simpl; lia.
  - apply Forall_forall. intros y Hy.
    apply In_nth with (d := 0) in Hy. destruct Hy as [k [Hk <-]].
    apply (Hs 0 (S k)); simpl; lia.
Qed.

Lemma aheapsort_spec (a : list nat) :
  Forall ok a ->
  Permutation (Np.aheapsort v a) a
  /\ StronglySorted (fun i j => LT j i = false) (Np.aheapsort v a).
Proof.
  intros Hok. unfold Np.aheapsort.
  assert (Hd : Nat.div2 (length a) <= length a).
  { rewrite Nat.div2_div. apply Nat.Div0.div_le_upper_bound; lia. }
  destruct (heapify_spec (Nat.div2 (length a)) a Hd Hok) as [H1 [H2 H3]].
  { intros k Hk1 Hk2 c Hc Hcn.
    pose proof (Nat.div_mod_eq (length a) 2) as E.
    pose proof (Nat.mod_upper_bound (length a) 2 ltac:(lia)) as B.
    rewrite Nat.div2_div in Hk1. lia. }
  set (a1 := Np.heapify v (Nat.div2 (length a)) a) in *.
  destruct (extract_spec (length a) a1) as [E1 E2].
  - lia.
  - destruct (length a); [left; lia | right; lia].
  - eapply perm_ok; eauto.
  - exact H3.
  - intros k1 k2 A B C D. lia.
  - split; [eapply perm_trans; eauto |].
    apply index_sorted. intros i j Hij Hj.
    specialize (E2 (S i) (S j) ltac:(lia) ltac:(lia) ltac:(lia) ltac:(lia)).
    unfold Np.get1 in E2. simpl in E2. rewrite !Nat.sub_0_r in E2. exact E2.
Qed.

End Heap.

(** *** The introsort *)

Section Introsort.
Context `{Num} (L : NumLaws).
Variable v : list num.

Local Abbreviation LT := (Np.LT v).
Local Abbreviation ok := (not_nan_at v).

Lemma introsort_eq (fuel : nat) (popped : bool) (cdepth : Z) (a : list nat) :
  Np.introsort v (S fuel) popped cdepth a
  = if popped && (cdepth <? 0)%Z then Np.aheapsort v a
    else if Np.SMALL_QUICKSORT <? length a - 1 then
      let '(l, p, r) := Np.partition v a in
      let d := (cdepth - 1)%Z in
      if length l <? length r
      then Np.introsort v fuel false d l ++ p :: Np.introsort v fuel true d r
      else Np.introsort v fuel true d l ++ p :: Np.introsort v fuel false d r
    else Np.insertion_sort v a.
Proof. reflexivity. Qed.

Lemma join_sorted (l r l' r' : list nat) (p : nat) :
  ok p ->
  (forall x, In x l -> LT p x = false) ->
  (forall y, In y r -> LT y p = false) ->
  Permutation l' l -> Permutation r' r ->
  StronglySorted (fun i j => LT j i = false) l' ->
  StronglySorted (fun i j => LT j i = false) r' ->
  StronglySorted (fun i j => LT j i = false) (l' ++ p :: r').
Proof.
  intros Hp Hl Hr Pl Pr Sl Sr.
  assert (Hr' : forall y, In y r' -> LT y p = false).
  { intros y Hy. apply Hr. eapply Permutation_in; eauto. }
  assert (Hl' : forall x, In x l' -> LT p x = false).
  { intros x Hx. apply Hl. eapply Permutation_in; eauto. }
  apply StronglySorted_app_iff. split; [exact Sl |]. split.
  - constructor; [exact Sr |]. apply Forall_forall. exact Hr'.
  - intros x y Hx [<- | Hy].
    + apply Hl', Hx.
    + apply (LT_negtrans L v) with (j := p); auto.
Qed.

Lemma introsort_spec (fuel : nat) (popped : bool) (cdepth : Z) (a : list nat) :
  length a < fuel -> Forall ok a ->
  Permutation (Np.introsort v fuel popped cdepth a) a
  /\ StronglySorted (fun i j => LT j i = false)
       (Np.introsort v fuel popped cdepth a).
Proof.
  revert popped cdepth a.
  induction fuel as [|fuel IH]; intros popped cdepth a Hf Hok; [lia |].
  rewrite introsort_eq.
  destruct (popped && (cdepth <? 0)%Z).
  - apply (aheapsort_spec L v a Hok).
  - destruct (Np.SMALL_QUICKSORT <? length a - 1) eqn:Es.
    + apply Nat.ltb_lt in Es. unfold Np.SMALL_QUICKSORT in Es.
      pose proof (partition_spec L v a ltac:(lia) Hok) as Part.
      destruct (Np.partition v a) as [[l p] r].
      destruct Part as [Pp [Hl Hr]]. cbv zeta.
      pose proof (Permutation_length Pp) as Len.
      rewrite length_app in Len. simpl in Len.
      assert (Okl : Forall ok l).
      { rewrite Forall_forall in *. intros x Hx. apply Hok.
        eapply Permutation_in; [exact Pp |]. apply in_or_app. auto. }
      assert (Okr : Forall ok r).
      { rewrite Forall_forall in *. intros x Hx. apply Hok.
        eapply Permutation_in; [exact Pp |]. apply in_or_app. right. right.
        exact Hx. }
      assert (Okp : ok p).
      { rewrite Forall_forall in Hok. apply Hok.
        eapply Permutation_in; [exact Pp |]. apply in_or_app. right. left.
        reflexivity. }
      destruct (length l <? length r).
      * destruct (IH false (cdepth - 1)%Z l ltac:(lia) Okl) as [P1 S1].
        destruct (IH true (cdepth - 1)%Z r ltac:(lia) Okr) as [P2 S2].
        split.
        -- eapply perm_trans; [| exact Pp].
           apply Permutation_app; [exact P1 | apply perm_skip; exact P2].
        -- eapply join_sorted; eauto.
      * destruct (IH true (cdepth - 1)%Z l ltac:(lia) Okl) as [P1 S1].
        destruct (IH false (cdepth - 1)%Z r ltac:(lia) Okr) as [P2 S2].
        split.
        -- eapply perm_trans; [| exact Pp].
           apply Permutation_app; [exact P1 | apply perm_skip; exact P2].
        -- eapply join_sorted; eauto.
    + split.
      * apply insertion_sort_perm.
      * apply (insertion_sort_sorted L v a Hok).
Qed.

End Introsort.

Lemma argsort_ok `{Num} (L : NumLaws) : kernel_ok Np.argsort.
Proof.
  intros v Hv. unfold Np.argsort, Np.aquicksort.
  rewrite length_seq.
  apply (introsort_spec L v).
  - rewrite length_seq. lia.
  - apply Forall_forall. intros i Hi. apply in_seq in Hi.
    rewrite Forall_forall in Hv. apply Hv. apply nth_In. lia.
Qed.

(** ** [sort_values] over a sort kernel that meets [kernel_ok] *)

Lemma filter_split_perm {A : Type} (f : A -> bool) (l : list A) :
  Permutation (filter (fun x => negb (f x)) l ++ filter f l) l.
Proof.
  induction l as [|x l IH]; simpl; auto.
  destruct (f x); simpl.
  - eapply perm_trans; [symmetry; apply Permutation_middle |].
    apply perm_skip, IH.
  - apply perm_skip, IH.
Qed.

Lemma map_nth_seq_from {A : Type} (d : A) (pre l : list A) :
  map (fun j => nth j (pre ++ l) d) (seq (length pre) (length l)) = l.
Proof.
  revert pre. induction l as [|x l IH]; intros pre; simpl; auto.
  rewrite nth_middle. f_equal.
  specialize (IH (pre ++ [x])).
  rewrite <- app_assoc, length_app in IH. simpl in IH.
  rewrite Nat.add_1_r in IH. exact IH.
Qed.

Lemma map_nth_seq_all {A : Type} (d : A) (l : list A) :
  map (fun j => nth j l d) (seq 0 (length l)) = l.
Proof. apply (map_nth_seq_from d [] l). Qed.

Lemma take_all {A : Type} (df : list A) : take df (seq 0 (length df)) = df.
Proof.
  unfold take.
  assert (G : forall pre l : list A,
             flat_map (fun i => match nth_error (pre ++ l) i with
                                | Some r => [r]
                                | None => []
                                end)
                      (seq (length pre) (length l)) = l).
  { intros pre l. revert pre. induction l as [|x l IH]; intros pre; simpl; auto.
    rewrite nth_error_app2, Nat.sub_diag by lia. simpl. f_equal.
    specialize (IH (pre ++ [x])).
    rewrite <- app_assoc, length_app in IH. simpl in IH.
    rewrite Nat.add_1_r in IH. exact IH. }
  apply (G [] df).
Qed.

Lemma take_In {A : Type} (df : list A) (l : list nat) (b : A) :
  In b (take df l) <-> exists j, In j l /\ nth_error df j = Some b.
Proof.
  unfold take. rewrite in_flat_map. split.
  - intros [j [Hj Hb]]. exists j. split; auto.
    destruct (nth_error df j) as [r|]; [| destruct Hb].
    destruct Hb as [<- | []]. reflexivity.
  - intros [j [Hj Hb]]. exists j. split; auto. rewrite Hb. left; reflexivity.
Qed.

Lemma take_sorted {A : Type} (R : nat -> nat -> Prop) (R' : A -> A -> Prop)
    (df : list A) (l : list nat) :
  (forall i j a b, In i l -> In j l ->
     nth_error df i = Some a -> nth_error df j = Some b -> R i j -> R' a b) ->
  StronglySorted R l -> StronglySorted R' (take df l).
Proof.
  intros Himp Hs. induction Hs as [|i l Hs IH Hall].
  - constructor.
  - assert (IH' : StronglySorted R' (take df l)).
    { apply IH. intros i' j a b Hi Hj. apply Himp; right; assumption. }
    unfold take in *. simpl.
    destruct (nth_error df i) as [a|] eqn:Ea; simpl; auto.
    constructor; auto.
    apply Forall_forall. intros b Hb.
    apply take_In in Hb. destruct Hb as [j [Hj Eb]].
    rewrite Forall_forall in Hall.
    apply (Himp i j); auto; [left; reflexivity | right; exact Hj].
Qed.

Section SortValuesFacts.
Context `{Num} (L : NumLaws).
Variable kernel : list num -> list nat.
Hypothesis Hk : kernel_ok kernel.

Section Indexer.
Variable items : list num.

Let keyat (i : nat) : num := nth i items NaN.
Let idx := seq 0 (length items).
Let non_nan_idx := filter (fun i => negb (isna (keyat i))) idx.
Let nan_idx := filter (fun i => isna (keyat i)) idx.

(** The kernel applied to the keys at the positions [I]. *)
Lemma kernel_on_positions (I : list nat) :
  Forall (fun i => isna (keyat i) = false) I ->
  let M := map (fun j => nth j I 0) (kernel (map keyat I)) in
  Permutation M I
  /\ StronglySorted (fun i1 i2 => lt (keyat i2) (keyat i1) = false) M.
Proof.
  intros HI M.
  assert (HV : Forall (fun x => isna x = false) (map keyat I)).
  { rewrite Forall_forall in *. intros x Hx. apply in_map_iff in Hx.
    destruct Hx as [i [<- Hi]]. apply HI, Hi. }
  destruct (Hk (map keyat I) HV) as [Hp Hs].
  rewrite length_map in Hp. split.
  - unfold M. rewrite <- (map_nth_seq_all 0 I) at 2.
    apply Permutation_map. exact Hp.
  - unfold M. apply StronglySorted_map.
    eapply StronglySorted_impl_In; [| exact Hs].
    intros j1 j2 H1 H2 Hlt. simpl in Hlt.
    apply (Permutation_in _ Hp) in H1, H2. apply in_seq in H1, H2.
    rewrite <- !(map_nth keyat I 0).
    rewrite !(nth_indep (map keyat I) (keyat 0) NaN)
      by (rewrite length_map; lia).
    exact Hlt.
Qed.

Lemma non_nan_idx_valid : Forall (fun i => isna (keyat i) = false) non_nan_idx.
Proof.
  apply Forall_forall. intros i Hi. apply filter_In in Hi.
  destruct Hi as [_ Hi]. apply negb_true_iff in Hi. exact Hi.
Qed.

Lemma nan_idx_nan (i : nat) : In i nan_idx -> isna (keyat i) = true.
Proof. intros Hi. apply filter_In in Hi. tauto. Qed.

Lemma nargsort_unfold (ascending : bool) :
  nargsort kernel items ascending
  = (if ascending
     then map (fun j => nth j non_nan_idx 0) (kernel (map keyat non_nan_idx))
     else rev (map (fun j => nth j (rev non_nan_idx) 0)
                   (kernel (map keyat (rev non_nan_idx)))))
    ++ nan_idx.
Proof.
  unfold nargsort. fold idx. destruct ascending; [reflexivity |].
  unfold non_nan_idx, keyat. rewrite map_rev. reflexivity.
Qed.

Lemma nargsort_perm (ascending : bool) :
  Permutation (nargsort kernel items ascending) idx.
Proof.
  rewrite nargsort_unfold.
  eapply perm_trans; [| apply (filter_split_perm (fun i => isna (keyat i)) idx)].
  apply Permutation_app_tail. fold non_nan_idx.
  destruct ascending.
  - apply (kernel_on_positions non_nan_idx non_nan_idx_valid).
  - eapply perm_trans; [symmetry; apply Permutation_rev |].
    eapply perm_trans; [| symmetry; apply Permutation_rev].
    apply (kernel_on_positions (rev non_nan_idx)).
    apply Forall_rev, non_nan_idx_valid.
Qed.

Lemma nargsort_sorted (ascending : bool) :
  StronglySorted
    (fun i j =>
       (if ascending then lt (keyat j) (keyat i) else lt (keyat i) (keyat j))
       = false
       /\ (isna (keyat i) = true -> isna (keyat j) = true))
    (nargsort kernel items ascending).
Proof.
  rewrite nargsort_unfold. apply StronglySorted_app_iff.
  assert (Hnan : forall R : nat -> nat -> Prop,
             (forall i j, isna (keyat i) = true -> isna (keyat j) = true -> R i j) ->
             StronglySorted R nan_idx).
  { intros R HR. pose proof nan_idx_nan as Hn. revert Hn.
    induction nan_idx as [|i l IH]; intros Hn; constructor.
    - apply IH. intros j Hj. apply Hn. right; exact Hj.
    - apply Forall_forall. intros j Hj.
      apply HR; apply Hn; [left; reflexivity | right; exact Hj]. }
  split; [| split].
  - destruct ascending.
    + destruct (kernel_on_positions non_nan_idx non_nan_idx_valid) as [Hp Hs].
      eapply StronglySorted_impl_In; [| exact Hs].
      intros i j Hi Hj Hlt. simpl in Hlt. split; auto.
      apply (Permutation_in _ Hp) in Hi.
      pose proof non_nan_idx_valid as Hv. rewrite Forall_forall in Hv.
      rewrite (Hv i Hi). discriminate.
    + assert (Hv : Forall (fun i => isna (keyat i) = false) (rev non_nan_idx))
        by (apply Forall_rev, non_nan_idx_valid).
      destruct (kernel_on_positions (rev non_nan_idx) Hv) as [Hp Hs].
      apply StronglySorted_rev in Hs.
      eapply StronglySorted_impl_In; [| exact Hs].
      intros i j Hi Hj Hlt. simpl in Hlt. split; auto.
      apply in_rev in Hi. apply (Permutation_in _ Hp) in Hi.
      rewrite Forall_forall in Hv. rewrite (Hv i Hi). discriminate.
  - apply Hnan. intros i j Hi Hj. split; auto.
    destruct ascending; [apply (lt_nan_l L) | apply (lt_nan_r L)]; assumption.
  - intros i j Hi Hj. apply nan_idx_nan in Hj. split; auto.
    destruct ascending; [apply (lt_nan_l L) | apply (lt_nan_r L)]; assumption.
Qed.

End Indexer.

Section Rows.
Context {R : Type}.
Variable by_ : R -> num.

Lemma sort_values_perm (ascending : bool) (df : list R) :
  Permutation (sort_values kernel by_ ascending df) df.
Proof.
  unfold sort_values.
  pose proof (nargsort_perm (map by_ df) ascending) as Hp.
  rewrite length_map in Hp.
  apply (Permutation_flat_map
           (fun i => match nth_error df i with Some r => [r] | None => [] end))
    in Hp.
  fold (take df (seq 0 (length df))) in Hp. rewrite take_all in Hp. exact Hp.
Qed.

Lemma key_at_row (df : list R) (i : nat) (a : R) :
  nth_error df i = Some a -> nth i (map by_ df) NaN = by_ a.
Proof.
  intros Hi. apply (map_nth_error by_) in Hi.
  apply nth_error_nth. exact Hi.
Qed.


Lemma sort_values_descending (df : list R) :
  StronglySorted (desc_ok by_) (sort_values kernel by_ false df).
Proof.
  unfold sort_values.
  eapply take_sorted; [| apply (nargsort_sorted (map by_ df) false)].
  intros i j a b _ _ Ha Hb. simpl.
  rewrite (key_at_row df i a Ha), (key_at_row df j b Hb). auto.
Qed.

End Rows.
End SortValuesFacts.

(** ** Tied keys in short tables *)


Lemma StronglySorted_filter {A : Type} (R : A -> A -> Prop) (f : A -> bool)
    (l : list A) :
  StronglySorted R l -> StronglySorted R (filter f l).
Proof.
  induction 1 as [|x l Hs IH Hall]; simpl; [constructor |].
  destruct (f x); auto. constructor; auto.
  rewrite Forall_forall in *. intros y Hy. apply filter_In in Hy.
  apply Hall, Hy.
Qed.


Section InsertionStable.
Context `{Num} (L : NumLaws).
Variable v : list num.




End InsertionStable.


Section StableIndexer.
Context `{Num} (L : NumLaws).
Variable items : list num.

Let keyat (i : nat) : num := nth i items NaN.



End StableIndexer.

(** ** [merge] and the gap table *)

Section MergeFacts.
Context {K : Type} `{Key K} (L : KeyLaws K).

Lemma merge_In {A B : Type} (l : list (K * A)) (r : list (K * B))
    (k : K) (a : A) (b : B) :
  In (k, (a, b)) (Pd.merge l r) <-> In (k, a) l /\ In (k, b) r.
Proof.
  unfold Pd.merge. rewrite in_flat_map. split.
  - intros [[k1 a1] [Hl Hm]]. apply in_map_iff in Hm.
    destruct Hm as [[k2 b2] [E Hf]]. apply filter_In in Hf.
    destruct Hf as [Hr Hk]. simpl in *. apply (keqb_eq K L) in Hk.
    inversion E; subst. auto.
  - intros [Hl Hr]. exists (k, a). split; auto.
    apply in_map_iff. exists (k, b). split; auto.
    apply filter_In. split; auto. simpl. apply (keqb_eq K L). reflexivity.
Qed.


End MergeFacts.

Section GapFacts.
Context `{Num}.

Lemma gap_table_In (P U : list (str * num)) (r : AnaliseGap.gap_row) :
  In r (AnaliseGap.gap_table P U)
  <-> exists k a b,
        In (k, a) P /\ In (k, b) U
        /\ r = {| AnaliseGap.gap_dsei := k;
                  AnaliseGap.cobertura_prenatal := a;
                  AnaliseGap.cobertura_ultrassom := b;
                  AnaliseGap.gap := sub a b |}.
Proof.
  unfold AnaliseGap.gap_table. rewrite in_map_iff. split.
  - intros [[k [a b]] [E Hin]]. apply (merge_In str_key_laws) in Hin.
    exists k, a, b. simpl in E. intuition.
  - intros [k [a [b [HP [HU E]]]]]. exists (k, (a, b)). split; auto.
    apply (merge_In str_key_laws). auto.
Qed.


End GapFacts.


(** What [create_heatmap_comparison] returns is the gap table of the two
    concatenated inputs, its rows in descending order of the gap. *)
Lemma heatmap_is_gap_table
    (p22 p23 u22 u23 : DataFrame) (out : list (@AnaliseGap.gap_row binary64)) :
  @AnaliseGap.create_heatmap_comparison binary64 Np.argsort p22 p23 u22 u23
  = inr out ->
  Permutation out
    (@AnaliseGap.gap_table binary64
       (AnaliseGap.coberturas
          (linhas (AnaliseGap.concat
                     (AnaliseGap.com_ano 2022 (AnaliseGap.clean_column_names p22))
                     (AnaliseGap.com_ano 2023 (AnaliseGap.clean_column_names p23)))))
       (AnaliseGap.coberturas
          (linhas (AnaliseGap.concat
                     (AnaliseGap.com_ano 2022 (AnaliseGap.clean_column_names u22))
                     (AnaliseGap.com_ano 2023 (AnaliseGap.clean_column_names u23))))))
  /\ StronglySorted (@desc_ok binary64 _ AnaliseGap.gap) out.
Proof.
  unfold AnaliseGap.create_heatmap_comparison.
  destruct (AnaliseGap.resolve _ _) as [e | []]; [discriminate |].
  intros E. injection E as <-. split.
  - apply (sort_values_perm Np.argsort (argsort_ok binary64_laws)).
  - apply (sort_values_descending binary64_laws Np.argsort
             (argsort_ok binary64_laws)).
Qed.

(** [calcular_cobertura] of mapa_desigualdades computes no gap; its left
    merge keeps every row of the prenatal table. *)
Lemma calcular_cobertura_keeps_rows `{Num} (df_prenatal df_ultrassom : list linha)
    (ano_ : Z) (r : linha) :
  In r df_prenatal ->
  exists m, In m (MapaDesigualdades.calcular_cobertura df_prenatal df_ultrassom ano_)
            /\ MapaDesigualdades.DSEI m = dsei r
            /\ MapaDesigualdades.ano_mapa m = ano_.
Proof.
  intros Hr. unfold MapaDesigualdades.calcular_cobertura.
  set (f := fun r0 : linha =>
              (dsei r0,
               mul (div (MapaDesigualdades.celula (contagem r0))
                        (MapaDesigualdades.celula (gestantes r0)))
                   (of_int 100))).
  assert (Hl : In (f r) (map f df_prenatal)) by (apply in_map; exact Hr).
  unfold Pd.merge_left.
  destruct (filter (fun r0 => keqb (fst r0) (fst (f r))) (map f df_ultrassom))
    as [|x rs] eqn:Ef.
  - eexists. split.
    + apply in_map. apply in_flat_map. exists (f r). split; [exact Hl |].
      rewrite Ef. left; reflexivity.
    + split; reflexivity.
  - eexists. split.
    + apply in_map. apply in_flat_map. exists (f r). split; [exact Hl |].
      rewrite Ef. left; reflexivity.
    + split; reflexivity.
Qed.


(** C8: swapping the two coverage tables swaps the coverage columns of
    every row of the gap table and negates its gap: in float64 the two
    values are both NaN or compare equal, in exact arithmetic they are
    equal. *)
Theorem gap_antisymmetric :
  (forall (P U : list (str * float)) (r : @AnaliseGap.gap_row binary64),
      In r (@AnaliseGap.gap_table binary64 P U) ->
      exists r' : @AnaliseGap.gap_row binary64,
        In r' (@AnaliseGap.gap_table binary64 U P)
        /\ AnaliseGap.gap_dsei r' = AnaliseGap.gap_dsei r
        /\ AnaliseGap.cobertura_prenatal r' = AnaliseGap.cobertura_ultrassom r
        /\ AnaliseGap.cobertura_ultrassom r' = AnaliseGap.cobertura_prenatal r
        /\ same (AnaliseGap.gap r) (neg (AnaliseGap.gap r')) = true)
  /\ (forall (P U : list (str * Exact.t)) (r : @AnaliseGap.gap_row exact),
        In r (@AnaliseGap.gap_table exact P U) ->
        exists r' : @AnaliseGap.gap_row exact,
          In r' (@AnaliseGap.gap_table exact U P)
          /\ AnaliseGap.gap_dsei r' = AnaliseGap.gap_dsei r
          /\ AnaliseGap.cobertura_prenatal r' = AnaliseGap.cobertura_ultrassom r
          /\ AnaliseGap.cobertura_ultrassom r' = AnaliseGap.cobertura_prenatal r
          /\ AnaliseGap.gap r = neg (AnaliseGap.gap r')).
Proof.
  split.
  - intros P U r Hin. apply gap_table_In in Hin.
    destruct Hin as [k [a [b [HP [HU ->]]]]].
    eexists. split; [apply gap_table_In; exists k, b, a; eauto |].
    simpl. repeat split. apply float_sub_antisym.
  - intros P U r Hin. apply gap_table_In in Hin.
    destruct Hin as [k [a [b [HP [HU ->]]]]].
    eexists. split; [apply gap_table_In; exists k, b, a; eauto |].
    simpl. repeat split. apply exact_sub_antisym.
Qed.

(** ** Year-over-year change *)










(** ** Survival and mortality per thousand *)






(** ** Division by zero and the top and bottom rows *)

Lemma fillna0_not_nan (x : float) : @isna binary64 (@fillna0 binary64 x) = false.
Proof.
  unfold fillna0. destruct (@isna binary64 x) eqn:E; [reflexivity | exact E].
Qed.

Lemma process_In `{Num} (df : list linha) (g : grupo) :
  In g (PrenatalUltrassonografia.process df) ->
  cobertura g = fillna0 (razao (g_contagem g) (g_gestantes g)).
Proof.
  unfold PrenatalUltrassonografia.process. intros Hin.
  apply in_map_iff in Hin. destruct Hin as [x [<- _]]. reflexivity.
Qed.

Lemma validas_In `{Num} (df : list linha) (m : Ultrassons.medida) :
  In m (Ultrassons.validas df) ->
  (0 < Ultrassons.m_gestantes m)%Z
  /\ Ultrassons.m_cobertura m
     = razao (Ultrassons.m_ultrassons m) (Ultrassons.m_gestantes m)
  /\ exists r, In r df /\ dsei r = Some (Ultrassons.m_dsei m)
               /\ gestantes r = Some (Ultrassons.m_gestantes m)
               /\ contagem r = Some (Ultrassons.m_ultrassons m).
Proof.
  unfold Ultrassons.validas. intros Hin. apply in_flat_map in Hin.
  destruct Hin as [r [Hr Hm]].
  destruct (dsei r) as [d|] eqn:Ed; [| destruct Hm].
  destruct (gestantes r) as [g|] eqn:Eg; [| destruct Hm].
  destruct (contagem r) as [u|] eqn:Eu; [| destruct Hm].
  destruct (0 <? g)%Z eqn:Hg; [| destruct Hm].
  destruct Hm as [<- | []]. simpl. apply Z.ltb_lt in Hg.
  split; [exact Hg |]. split; [reflexivity |].
  exists r. auto.
Qed.

Lemma process_AB :
  @PrenatalUltrassonografia.process_prenatal_data binary64 tabela_AB
  = inr [@Build_grupo binary64 (Py.lit "A") 100 50 0.5%float;
         @Build_grupo binary64 (Py.lit "B") 0 0 0%float].
Proof. reflexivity. Qed.

(** C1, as stated, fails: the group B with numerator 0 and denominator
    0 gets the coverage 0, not an undefined value, and the selection of
    [generate_graph] returns it, with coverage 0, next to A. *)
Lemma zero_denominator_counterexample :
  @PrenatalUltrassonografia.process_prenatal_data binary64 tabela_AB
  = inr [@Build_grupo binary64 (Py.lit "A") 100 50 0.5%float;
         @Build_grupo binary64 (Py.lit "B") 0 0 0%float]
  /\ @isna binary64 0%float = false
  /\ @PrenatalUltrassonografia.top5 binary64 Np.argsort
       [@Build_grupo binary64 (Py.lit "A") 100 50 0.5%float;
        @Build_grupo binary64 (Py.lit "B") 0 0 0%float]
     = [@Build_grupo binary64 (Py.lit "A") 100 50 0.5%float;
        @Build_grupo binary64 (Py.lit "B") 0 0 0%float].
Proof.
  split; [exact process_AB |]. split; reflexivity.
Qed.

(** C1 (amended): [process_prenatal_data] never yields an undefined
    coverage: a group whose two sums are zero gets coverage 0
    ([fillna(0)] replaces the NaN of 0/0), a zero denominator under a
    positive numerator gives +infinity, and both stay candidates of the
    selection.  [ultrassom_coverage_analysis] keeps only rows with a
    district, both counts and a positive denominator, so that no
    division by zero occurs there.  Nothing is raised.  Over A (50 of
    100) and B (0 of 0) the top-1 selection returns only A; the top-5
    selection of a table of at most five groups returns all of them. *)
Theorem zero_denominator_coverage :
  (forall (df : list linha) (g : @grupo binary64),
      In g (@PrenatalUltrassonografia.process binary64 df) ->
      @isna binary64 (cobertura g) = false
      /\ (g_gestantes g = 0%Z -> g_contagem g = 0%Z ->
          cobertura g = 0%float))
  /\ @razao binary64 0 0 = nan
  /\ @fillna0 binary64 (@razao binary64 5 0) = infinity
  /\ (forall (df : list linha) (m : @Ultrassons.medida binary64),
        In m (@Ultrassons.validas binary64 df) ->
        (0 < Ultrassons.m_gestantes m)%Z)
  /\ Pd.head 1 (@sort_values binary64 Np.argsort _ cobertura false
                  [@Build_grupo binary64 (Py.lit "A") 100 50 0.5%float;
                   @Build_grupo binary64 (Py.lit "B") 0 0 0%float])
     = [@Build_grupo binary64 (Py.lit "A") 100 50 0.5%float]
  /\ (forall data : list (@grupo binary64),
        length data <= 5 ->
        Permutation (@PrenatalUltrassonografia.top5 binary64 Np.argsort data)
                    data).
Proof.
  split.
  - intros df g Hin. rewrite (process_In df g Hin). split.
    + apply fillna0_not_nan.
    + intros -> ->. reflexivity.
  - split; [reflexivity |]. split; [reflexivity |].
    split; [| split; [reflexivity |]].
    + intros df m Hin. apply (validas_In df m Hin).
    + intros data Hn. unfold PrenatalUltrassonografia.top5, Pd.head.
      pose proof (sort_values_perm Np.argsort (argsort_ok binary64_laws)
                    (@cobertura binary64) false data) as Hp.
      rewrite firstn_all2; [exact Hp |].
      rewrite (Permutation_length Hp). exact Hn.
Qed.







(** * Further properties of the scripts *)

(** ** The column look-up of prenatal_ultrassonografia *)

Lemma filter_first {A : Type} (f : A -> bool) (l : list A) (x : A)
    (rest : list A) :
  filter f l = x :: rest <->
  exists l1 l2, l = l1 ++ x :: l2 /\ f x = true
                /\ (forall y, In y l1 -> f y = false)
                /\ filter f l2 = rest.
Proof.
  split.
  - revert x rest. induction l as [|a l IH]; simpl; intros x rest E;
      [discriminate |].
    destruct (f a) eqn:Fa.
    + inversion E; subst. exists [], l. simpl. repeat split; auto.
      intros y [].
    + destruct (IH x rest E) as [l1 [l2 [-> [Fx [Hn Hr]]]]].
      exists (a :: l1), l2. simpl. repeat split; auto.
      intros y [<- | Hy]; auto.
  - intros [l1 [l2 [-> [Fx [Hn Hr]]]]].
    induction l1 as [|a l1 IH]; simpl.
    + rewrite Fx, Hr. reflexivity.
    + rewrite (Hn a (or_introl eq_refl)). apply IH.
      intros y Hy. apply Hn. right; exact Hy.
Qed.

Lemma startswith_spec (p s : str) :
  Py.startswith p s = true <-> exists r, s = p ++ r.
Proof.
  revert s. induction p as [|x p IH]; intros s; simpl.
  - split; [intros _; exists s; reflexivity | reflexivity].
  - destruct s as [|y s]; [split; [discriminate | intros [r E]; discriminate] |].
    rewrite andb_true_iff, N.eqb_eq, IH. split.
    + intros [-> [r ->]]. exists r. reflexivity.
    + intros [r E]. inversion E; subst. split; auto. exists r. reflexivity.
Qed.

(** [p in s]: [s] is [l ++ p ++ r]. *)
Lemma contains_spec (p s : str) :
  Py.contains p s = true <-> exists l r, s = l ++ p ++ r.
Proof.
  induction s as [|y s IH]; simpl.
  - rewrite orb_false_r, startswith_spec. split.
    + intros [r E]. exists [], r. exact E.
    + intros [l [r E]]. destruct l as [|a l]; [| discriminate].
      exists r. exact E.
  - rewrite orb_true_iff, startswith_spec, IH. split.
    + intros [[r E] | [l [r E]]].
      * exists [], r. exact E.
      * exists (y :: l), r. rewrite E. reflexivity.
    + intros [l [r E]]. destruct l as [|a l].
      * left. exists r. exact E.
      * right. inversion E; subst. exists l, r. reflexivity.
Qed.

(** A pattern that contains another one matches only where the other
    one does. *)
Lemma contains_weaken (q1 p q2 s : str) :
  Py.contains (q1 ++ p ++ q2) s = true -> Py.contains p s = true.
Proof.
  rewrite !contains_spec. intros [l [r ->]].
  exists (l ++ q1), (q2 ++ r). rewrite <- !app_assoc. reflexivity.
Qed.

Lemma find_column_cons (cols : list str) (p : str) (ps : list str) :
  PrenatalUltrassonografia.find_column cols (p :: ps)
  = match filter (fun col => Py.contains (Py.lower p) (Py.lower col)) cols with
    | col :: _ => Some col
    | [] => PrenatalUltrassonografia.find_column cols ps
    end.
Proof. reflexivity. Qed.

(** A candidate that contains an earlier candidate never decides. *)
Lemma find_column_shadowed (cols : list str) (p q1 q2 : str) (ps : list str) :
  PrenatalUltrassonografia.find_column cols (p :: (q1 ++ p ++ q2) :: ps)
  = PrenatalUltrassonografia.find_column cols (p :: ps).
Proof.
  rewrite (find_column_cons cols p ((q1 ++ p ++ q2) :: ps)),
    (find_column_cons cols p ps).
  destruct (filter _ cols) as [|c rest] eqn:E; [| reflexivity].
  rewrite find_column_cons.
  rewrite filter_none; [reflexivity |].
  intros c Hc.
  destruct (Py.contains (Py.lower (q1 ++ p ++ q2)) (Py.lower c)) eqn:Hm; auto.
  unfold Py.lower in Hm. rewrite !map_app in Hm.
  apply contains_weaken in Hm.
  assert (Hin : In c (filter (fun col => Py.contains (Py.lower p) (Py.lower col))
                             cols)).
  { apply filter_In. split; auto. }
  rewrite E in Hin. destruct Hin.
Qed.

(** X1: [find_column]: the candidates are tried in the order of the list;
    the first one that occurs in some header decides, and the header
    returned is the first one, in the order of the table, in which it
    occurs.  Comparison is by lower-cased text.  The second candidates
    of the district and of the pregnant-women look-up contain the first
    ones and never decide. *)
Theorem find_column_first_match :
  (forall (cols patterns : list str) (col : str),
      PrenatalUltrassonografia.find_column cols patterns = Some col <->
      exists ps p ps' cs cs',
        patterns = ps ++ p :: ps' /\ cols = cs ++ col :: cs'
        /\ (forall q c, In q ps -> In c cols ->
              Py.contains (Py.lower q) (Py.lower c) = false)
        /\ Py.contains (Py.lower p) (Py.lower col) = true
        /\ (forall c, In c cs ->
              Py.contains (Py.lower p) (Py.lower c) = false))
  /\ (forall cols,
        PrenatalUltrassonografia.find_column cols
          PrenatalUltrassonografia.dsei_patterns
        = PrenatalUltrassonografia.find_column cols [Py.lit "dsei"])
  /\ (forall cols,
        PrenatalUltrassonografia.find_column cols
          PrenatalUltrassonografia.gestantes_patterns
        = PrenatalUltrassonografia.find_column cols [Py.lit "gestante"]).
Proof.
  split; [| split].
  - intros cols patterns col. split.
    + induction patterns as [|q patterns IH]; [discriminate |].
      rewrite find_column_cons.
      destruct (filter _ cols) as [|c rest] eqn:E.
      * intros Hf. destruct (IH Hf) as (ps & p & ps' & cs & cs' & -> & Hc & Hno & Hm & Hfst).
        exists (q :: ps), p, ps', cs, cs'. repeat split; auto.
        intros q' c' [<- | Hq] Hc'; [| apply Hno; assumption].
        destruct (Py.contains (Py.lower q) (Py.lower c')) eqn:Hm'; auto.
        assert (Hin : In c' (filter (fun col0 => Py.contains (Py.lower q)
                                                  (Py.lower col0)) cols))
          by (apply filter_In; split; assumption).
        rewrite E in Hin. destruct Hin.
      * intros Hf. inversion Hf; subst c.
        apply filter_first in E. destruct E as (cs & cs' & -> & Hm & Hfst & _).
        exists [], q, patterns, cs, cs'. repeat split; auto.
        intros q' c' [].
    + intros (ps & p & ps' & cs & cs' & -> & -> & Hno & Hm & Hfst).
      induction ps as [|q ps IH]; simpl app.
      * rewrite find_column_cons.
        assert (E : exists rest,
                   filter (fun col0 => Py.contains (Py.lower p) (Py.lower col0))
                          (cs ++ col :: cs') = col :: rest).
        { eexists. apply filter_first. exists cs, cs'. repeat split; eauto. }
        destruct E as [rest ->]. reflexivity.
      * rewrite find_column_cons. rewrite filter_none.
        -- apply IH. intros q' c' Hq Hc'. apply Hno; [right |]; assumption.
        -- intros c' Hc'. apply Hno; [left; reflexivity | exact Hc'].
  - intros cols.
    apply (find_column_shadowed cols (Py.lit "dsei") [] (Py.lit "_gestao") []).
  - intros cols.
    apply (find_column_shadowed cols (Py.lit "gestante")
             (Py.lit "n" ++ [ordinal_o] ++ Py.lit " ") (Py.lit "s") []).
Qed.

(** ** The headers of the spreadsheets *)

Lemma distinct_NoDup (l : list str) : distinct l = true -> NoDup l.
Proof.
  induction l as [|x l IH]; simpl; [constructor |].
  rewrite andb_true_iff, negb_true_iff. intros [Hx Hl].
  constructor; auto. intros Hin.
  assert (E : existsb (Py.eqb x) l = true).
  { apply existsb_exists. exists x. split; auto. apply py_eqb_refl. }
  congruence.
Qed.






(** ** Sorting a sorted table again *)




Section Resort.
Context {R : Type}.
Variable by_ : R -> float.




End Resort.




(** ** The summary of the gap analysis *)

Lemma tail_snoc {A : Type} (n : nat) (l : list A) (x : A) :
  0 < n -> exists l', Pd.tail n (l ++ [x]) = l' ++ [x] /\ exists l0, l = l0 ++ l'.
Proof.
  intros Hn. unfold Pd.tail. rewrite length_app. simpl.
  rewrite skipn_app.
  replace (length l + 1 - n - length l) with 0 by lia. simpl.
  exists (skipn (length l + 1 - n) l). split; [reflexivity |].
  exists (firstn (length l + 1 - n) l). symmetry. apply firstn_skipn.
Qed.

Lemma sorted_last_nan {R : Type} (by_ : R -> float) (l : list R) (x r : R) :
  StronglySorted (@desc_ok binary64 R by_) (l ++ [x]) ->
  In r (l ++ [x]) -> @isna binary64 (by_ r) = true ->
  @isna binary64 (by_ x) = true.
Proof.
  intros Hs Hin Hr. apply in_app_or in Hin. destruct Hin as [Hin | [<- | []]]; auto.
  apply StronglySorted_app_iff in Hs. destruct Hs as [_ [_ Hc]].
  apply (Hc r x Hin (or_introl eq_refl)). exact Hr.
Qed.

(** X4: The rows that [analisar_gap_tecnologico] prints as the smallest gaps
    are the last three of the table sorted by descending gap, read
    backwards: they come in ascending order of the gap, but a row whose
    gap is NaN stands before every row whose gap is a number; as soon as
    one district has an undefined gap, the list of the smallest gaps
    starts with such a district. *)
Theorem smallest_gaps_start_with_nan
    (p22 p23 u22 u23 : DataFrame)
    (df_sorted : list (@AnaliseGap.gap_row binary64)) :
  @AnaliseGap.create_heatmap_comparison binary64 Np.argsort p22 p23 u22 u23
  = inr df_sorted ->
  StronglySorted
    (fun a b =>
       @lt binary64 (AnaliseGap.gap b) (AnaliseGap.gap a) = false
       /\ (@isna binary64 (AnaliseGap.gap b) = true ->
           @isna binary64 (AnaliseGap.gap a) = true))
    (@AnaliseGap.bottom_gaps binary64 df_sorted)
  /\ ((exists r, In r df_sorted /\ @isna binary64 (AnaliseGap.gap r) = true) ->
      exists r rest,
        @AnaliseGap.bottom_gaps binary64 df_sorted = r :: rest
        /\ @isna binary64 (AnaliseGap.gap r) = true).
Proof.
  intros E. destruct (heatmap_is_gap_table p22 p23 u22 u23 df_sorted E)
    as [_ Hs].
  split.
  - unfold AnaliseGap.bottom_gaps, Pd.tail.
    apply (StronglySorted_rev (@desc_ok binary64 _ AnaliseGap.gap)).
    rewrite <- (firstn_skipn (length df_sorted - 3) df_sorted) in Hs.
    apply StronglySorted_app_iff in Hs. tauto.
  - intros [r [Hin Hr]].
    destruct (exists_last (l := df_sorted)) as [l [x ->]];
      [intros ->; destruct Hin |].
    destruct (tail_snoc 3 l x) as [l' [Et _]]; [lia |].
    exists x, (rev l'). unfold AnaliseGap.bottom_gaps. rewrite Et.
    rewrite rev_app_distr. simpl. split; [reflexivity |].
    apply (sorted_last_nan (@AnaliseGap.gap binary64) l x r Hs Hin Hr).
Qed.

Lemma smallest_gaps_start_with_nan_witness :
  exists r rest,
    @AnaliseGap.bottom_gaps binary64
      [@AnaliseGap.Build_gap_row binary64 (Py.lit "B") 0.5%float 0.5%float 0%float;
       @AnaliseGap.Build_gap_row binary64 (Py.lit "A") nan nan nan]
    = r :: rest
    /\ @isna binary64 (AnaliseGap.gap r) = true.
Proof.
  apply (proj2 (smallest_gaps_start_with_nan
                  sem_gestantes_em_A (so_cabecalho (columns sem_gestantes_em_A))
                  sem_gestantes_em_A (so_cabecalho (columns sem_gestantes_em_A))
                  _ eq_refl)).
  eexists. split; [right; left; reflexivity | reflexivity].
Defined.

(** ** Joins of grouped tables *)

Section MergeUnique.
Context {K : Type} `{Key K} (L : KeyLaws K).

(** Among rows with distinct keys at most one has the key [k]. *)
Lemma filter_key_unique {B : Type} (r : list (K * B)) (k : K) :
  NoDup (map fst r) ->
  filter (fun r0 => keqb (fst r0) k) r = []
  \/ exists b, In (k, b) r /\ filter (fun r0 => keqb (fst r0) k) r = [(k, b)].
Proof.
  induction r as [|[k0 b0] r IH]; simpl; intros ND; [left; reflexivity |].
  inversion ND as [|? ? Hn ND']; subst.
  destruct (keqb k0 k) eqn:E.
  - apply (keqb_eq K L) in E. subst k0. right. exists b0. split; auto.
    f_equal. apply filter_none. intros [k1 b1] Hin. simpl.
    apply (keqb_neq L). intros ->. apply Hn.
    apply in_map_iff. exists (k, b1). auto.
  - destruct (IH ND') as [E0 | [b [Hin Eb]]]; [left; exact E0 |].
    right. exists b. auto.
Qed.

Lemma merge_keys_filter {A B : Type} (l : list (K * A)) (r : list (K * B)) :
  NoDup (map fst r) ->
  map fst (Pd.merge l r)
  = filter (fun k => existsb (fun r0 => keqb (fst r0) k) r) (map fst l).
Proof.
  intros ND. unfold Pd.merge.
  induction l as [|[k a] l IH]; simpl; [reflexivity |].
  rewrite map_app, IH. clear IH.
  destruct (filter_key_unique r k ND) as [E0 | [b [Hin Eb]]].
  - rewrite E0. simpl.
    assert (Ex : existsb (fun r0 => keqb (fst r0) k) r = false).
    { destruct (existsb _ r) eqn:Ex; auto.
      apply existsb_exists in Ex. destruct Ex as [x [Hx Ek]].
      assert (Hf : In x (filter (fun r0 => keqb (fst r0) k) r))
        by (apply filter_In; auto).
      rewrite E0 in Hf. destruct Hf. }
    rewrite Ex. reflexivity.
  - rewrite Eb. simpl.
    assert (Ex : existsb (fun r0 => keqb (fst r0) k) r = true).
    { apply existsb_exists. exists (k, b). split; auto. apply (keqb_refl L). }
    rewrite Ex. reflexivity.
Qed.

End MergeUnique.

Lemma map_fst_map_pair {A B C : Type} (f : A * B -> C) (l : list (A * B)) :
  map fst (map (fun g => (fst g, f g)) l) = map fst l.
Proof. rewrite map_map. reflexivity. Qed.

(** X5: The joined tables of prenatal_mortalidade and of
    analise_gap_tecnologico hold each district at most once: the two
    sides of the merge are grouped tables, so that no row is multiplied,
    and the rows come out in ascending order of the district name. *)
Theorem joined_tables_one_row_per_district :
  (forall (N : Num) (p22 p23 : list linha) (o22 o23 : list obito),
      StronglySorted (fun a b => Py.ltb a b = true)
        (map fst (PrenatalMortalidade.df_full p22 p23 o22 o23))
      /\ NoDup (map fst (PrenatalMortalidade.df_full p22 p23 o22 o23)))
  /\ (forall (N : Num) (prenatal ultrassom : list linha),
        let df := AnaliseGap.gap_table (AnaliseGap.coberturas prenatal)
                                       (AnaliseGap.coberturas ultrassom) in
        StronglySorted (fun a b => Py.ltb a b = true)
          (map AnaliseGap.gap_dsei df)
        /\ NoDup (map AnaliseGap.gap_dsei df)).
Proof.
  split.
  - intros N p22 p23 o22 o23.
    assert (S : StronglySorted (@key_lt str str_key)
                  (map fst (PrenatalMortalidade.df_full p22 p23 o22 o23))).
    { unfold PrenatalMortalidade.df_full,
        PrenatalMortalidade.prenatal_grouped,
        PrenatalMortalidade.obitos_grouped.
      rewrite (merge_keys_filter str_key_laws).
      - apply StronglySorted_filter. rewrite map_fst_map_pair.
        unfold agrupar. rewrite groupby_keys.
        apply (group_keys_sorted str_key_laws).
      - rewrite !map_map. simpl.
        change (fun x : str * (Z * Z) => fst x) with (@fst str (Z * Z)).
        rewrite groupby_keys. apply (group_keys_NoDup str_key_laws). }
    split; [exact S | apply (sorted_NoDup str_key_laws), S].
  - intros N prenatal ultrassom df.
    assert (S : StronglySorted (@key_lt str str_key)
                  (map AnaliseGap.gap_dsei df)).
    { unfold df, AnaliseGap.gap_table, AnaliseGap.coberturas.
      rewrite map_map. simpl.
      change (fun x : str * (num * num) => fst x) with (@fst str (num * num)).
      rewrite (merge_keys_filter str_key_laws).
      - apply StronglySorted_filter. rewrite map_fst_map_pair.
        unfold agrupar. rewrite groupby_keys.
        apply (group_keys_sorted str_key_laws).
      - rewrite map_fst_map_pair. unfold agrupar. rewrite groupby_keys.
        apply (group_keys_NoDup str_key_laws). }
    split; [exact S | apply (sorted_NoDup str_key_laws), S].
Qed.

(** ** mapa_desigualdades.py *)

Lemma option_str_key_laws_eq (a b : option str) : keqb a b = true <-> a = b.
Proof.
  destruct a as [a|], b as [b|]; simpl;
    try (split; [discriminate | discriminate]); try tauto.
  rewrite py_eqb_eq. split; [intros ->; reflexivity | intros E; inversion E; auto].
Qed.

Section LeftMerge.
Context {A B : Type}.

Lemma merge_left_length (l : list (option str * A)) (r : list (option str * B)) :
  length l <= length (Pd.merge_left l r).
Proof.
  unfold Pd.merge_left. induction l as [|x l IH]; [simpl; lia |].
  cbn [flat_map]. rewrite length_app. cbn [length].
  destruct (filter _ r) as [|y ys]; [cbn [length]; lia |].
  rewrite length_map. cbn [length]. lia.
Qed.

Lemma filter_option_key_unique (r : list (option str * B)) (k : option str) :
  NoDup (map fst r) ->
  filter (fun r0 => keqb (fst r0) k) r = []
  \/ exists b, filter (fun r0 => keqb (fst r0) k) r = [(k, b)].
Proof.
  induction r as [|[k0 b0] r IH]; cbn [filter map fst]; intros ND;
    [left; reflexivity |].
  inversion ND as [|? ? Hn ND']; subst.
  destruct (keqb k0 k) eqn:E.
  - apply option_str_key_laws_eq in E. subst k0. right. exists b0.
    f_equal. apply filter_none. intros [k1 b1] Hin. cbn [fst].
    destruct (keqb k1 k) eqn:E1; auto.
    apply option_str_key_laws_eq in E1. subst k1. exfalso. apply Hn.
    apply in_map_iff. exists (k, b1). auto.
  - destruct (IH ND') as [E0 | [b Eb]]; [left; exact E0 |].
    right. exists b. exact Eb.
Qed.

Lemma merge_left_rows (l : list (option str * A)) (r : list (option str * B)) :
  NoDup (map fst r) ->
  map (fun x => (fst x, fst (snd x))) (Pd.merge_left l r) = l.
Proof.
  intros ND. unfold Pd.merge_left.
  induction l as [|[k a] l IH]; [reflexivity |].
  cbn [flat_map fst snd]. rewrite map_app, IH. clear IH.
  destruct (filter_option_key_unique r k ND) as [E0 | [b Eb]].
  - rewrite E0. reflexivity.
  - rewrite Eb. reflexivity.
Qed.

End LeftMerge.

(** X6: [calcular_cobertura] never loses a row of the prenatal table, and
    when no district (and no blank district cell) occurs twice in the
    ultrasound table it returns exactly one row for each prenatal row,
    in the order of the prenatal table, with that row's own district
    and ratio: the left merge attaches the ultrasound coverage and
    changes nothing else.  A district that occurs several times in the
    ultrasound table multiplies its prenatal rows. *)
Theorem calcular_cobertura_rows :
  (forall (N : Num) (df_prenatal df_ultrassom : list linha) (ano_ : Z),
      length df_prenatal
      <= length (MapaDesigualdades.calcular_cobertura
                   df_prenatal df_ultrassom ano_))
  /\ (forall (N : Num) (df_prenatal df_ultrassom : list linha) (ano_ : Z),
        NoDup (map dsei df_ultrassom) ->
        map (fun m => (MapaDesigualdades.DSEI m,
                       MapaDesigualdades.cobertura_prenatal m,
                       MapaDesigualdades.ano_mapa m))
            (MapaDesigualdades.calcular_cobertura df_prenatal df_ultrassom ano_)
        = map (fun r =>
                 (dsei r,
                  mul (div (MapaDesigualdades.celula (contagem r))
                           (MapaDesigualdades.celula (gestantes r)))
                      (of_int 100),
                  ano_))
              df_prenatal)
  /\ (forall (N : Num) (r u1 u2 : linha) (ano_ : Z),
        dsei u1 = dsei r -> dsei u2 = dsei r ->
        length (MapaDesigualdades.calcular_cobertura [r] [u1; u2] ano_) = 2).
Proof.
  split; [| split].
  - intros N df_prenatal df_ultrassom ano_.
    unfold MapaDesigualdades.calcular_cobertura. rewrite length_map.
    etransitivity; [| apply merge_left_length]. rewrite length_map. lia.
  - intros N df_prenatal df_ultrassom ano_ ND.
    unfold MapaDesigualdades.calcular_cobertura.
    rewrite map_map. cbn [MapaDesigualdades.DSEI
                          MapaDesigualdades.cobertura_prenatal
                          MapaDesigualdades.ano_mapa].
    set (f := fun r : linha =>
                (dsei r,
                 mul (div (MapaDesigualdades.celula (contagem r))
                          (MapaDesigualdades.celula (gestantes r)))
                     (of_int 100))).
    assert (ND' : NoDup (map fst (map f df_ultrassom))).
    { rewrite map_map. exact ND. }
    pose proof (merge_left_rows (map f df_prenatal) (map f df_ultrassom) ND')
      as E.
    apply (f_equal (map (fun x => (fst x, snd x, ano_)))) in E.
    rewrite !map_map in E. exact E.
  - intros N r u1 u2 ano_ E1 E2.
    unfold MapaDesigualdades.calcular_cobertura, Pd.merge_left.
    cbn [map flat_map filter fst snd app].
    rewrite E1, E2.
    assert (Ek : keqb (dsei r) (dsei r) = true)
      by (apply option_str_key_laws_eq; reflexivity).
    rewrite Ek. reflexivity.
Qed.


(** ** The two dictionaries of the map *)




(** ** The chart of the two years side by side *)

Lemma Z_key_laws : KeyLaws Z.
Proof.
  constructor; simpl.
  - apply Z.eqb_eq.
  - apply Z.ltb_irrefl.
  - intros a b c. rewrite !Z.ltb_lt. lia.
  - intros a b. rewrite Z.ltb_ge, Z.eqb_neq, Z.ltb_lt. lia.
Qed.

Lemma pair_key_laws {A B : Type} `{Key A} `{Key B}
    (LA : KeyLaws A) (LB : KeyLaws B) : KeyLaws (A * B).
Proof.
  constructor; simpl.
  - intros [a1 b1] [a2 b2]. simpl.
    rewrite andb_true_iff, (keqb_eq A LA), (keqb_eq B LB).
    split; [intros [-> ->]; reflexivity | intros E; inversion E; auto].
  - intros [a b]. simpl.
    rewrite (kltb_irrefl A LA), (kltb_irrefl B LB), andb_false_r.
    reflexivity.
  - intros [a1 b1] [a2 b2] [a3 b3]. simpl.
    rewrite !orb_true_iff, !andb_true_iff.
    intros [H12 | [E12 H12]] [H23 | [E23 H23]].
    + left. eapply (kltb_trans A LA); eassumption.
    + apply (keqb_eq A LA) in E23. subst. left. exact H12.
    + apply (keqb_eq A LA) in E12. subst. left. exact H23.
    + apply (keqb_eq A LA) in E12, E23. subst. right. split.
      * apply (keqb_refl LA).
      * eapply (kltb_trans B LB); eassumption.
  - intros [a1 b1] [a2 b2]. simpl.
    rewrite !orb_false_iff, !andb_false_iff, orb_true_iff, andb_true_iff.
    intros [Hlt Hc] Hne.
    destruct (keqb a1 a2) eqn:Ea.
    + apply (keqb_eq A LA) in Ea. subst a2. right.
      split; [apply (keqb_refl LA) |].
      destruct Hc as [Hc | Hc]; [discriminate |].
      destruct Hne as [Hne | Hne]; [discriminate |].
      apply (kltb_total B LB); assumption.
    + left. apply (kltb_total A LA); assumption.
Qed.

Lemma dsei_ano_laws : KeyLaws (str * Z).
Proof. apply (pair_key_laws str_key_laws Z_key_laws). Qed.

Section Lookup.
Context {K : Type} `{Key K} (L : KeyLaws K) {A : Type}.

Lemma lookup_cons (k k1 : K) (a1 : A) (t : list (K * A)) :
  Pd.lookup k ((k1, a1) :: t)
  = if keqb k1 k then Some a1 else Pd.lookup k t.
Proof. unfold Pd.lookup. cbn [filter fst]. destruct (keqb k1 k); reflexivity. Qed.

Lemma lookup_Some_In (k : K) (a : A) (t : list (K * A)) :
  Pd.lookup k t = Some a -> In (k, a) t.
Proof.
  induction t as [|[k1 a1] t IH]; [discriminate |].
  rewrite lookup_cons. destruct (keqb k1 k) eqn:E.
  - apply (keqb_eq K L) in E. intros E'. inversion E'; subst. left; reflexivity.
  - intros E'. right. apply IH, E'.
Qed.

Lemma lookup_unique (k : K) (a : A) (t : list (K * A)) :
  NoDup (map fst t) -> In (k, a) t -> Pd.lookup k t = Some a.
Proof.
  induction t as [|[k1 a1] t IH]; [intros _ [] |].
  cbn [map fst]. intros ND Hin. inversion ND as [|? ? Hn ND']; subst.
  rewrite lookup_cons. destruct Hin as [E | Hin].
  - inversion E; subst. rewrite (keqb_refl L). reflexivity.
  - destruct (keqb k1 k) eqn:E.
    + apply (keqb_eq K L) in E. subst k1. exfalso. apply Hn.
      apply in_map_iff. exists (k, a). auto.
    + apply IH; assumption.
Qed.

End Lookup.

Lemma In_firstn {A : Type} (n : nat) (l : list A) (x : A) :
  In x (firstn n l) -> In x l.
Proof.
  intros Hin. rewrite <- (firstn_skipn n l). apply in_or_app. left; exact Hin.
Qed.

Section Comparativo.
Context `{Num}.

Lemma por_dsei_ano_keys (df : list linha) :
  map fst (Graficos.por_dsei_ano df)
  = Pd.group_keys
      (map (fun r => match dsei r with
                     | Some d => Some (d, ano r)
                     | None => None
                     end) df).
Proof.
  unfold Graficos.por_dsei_ano. rewrite map_map. cbn [fst].
  change (fun x : str * Z * (Z * Z) => fst x) with (@fst (str * Z) (Z * Z)).
  apply groupby_keys.
Qed.

Lemma por_dsei_ano_NoDup (df : list linha) :
  NoDup (map fst (Graficos.por_dsei_ano df)).
Proof. rewrite por_dsei_ano_keys. apply (group_keys_NoDup dsei_ano_laws). Qed.

(** The groups of [df_agrupado] are the pairs of a district and a year
    that some row has. *)
Lemma por_dsei_ano_In_key (df : list linha) (d : str) (y : Z) :
  In (d, y) (map fst (Graficos.por_dsei_ano df))
  <-> exists r, In r df /\ dsei r = Some d /\ ano r = y.
Proof.
  rewrite por_dsei_ano_keys, (group_keys_In dsei_ano_laws), in_map_iff.
  split.
  - intros [r [E Hr]]. exists r. destruct (dsei r) as [d'|]; [| discriminate].
    inversion E; subst. auto.
  - intros [r [Hr [Ed Ey]]]. exists r. rewrite Ed, Ey. auto.
Qed.

Lemma anos_In (t : list (str * Z * num)) (y : Z) :
  In y (Graficos.anos t) <-> exists d, In (d, y) (map fst t).
Proof.
  unfold Graficos.anos. rewrite (group_keys_In Z_key_laws), in_map_iff. split.
  - intros [[[d y'] c] [E Hin]]. cbn [fst snd] in E. inversion E; subst.
    exists d. apply in_map_iff. exists (d, y, c). auto.
  - intros [d Hin]. apply in_map_iff in Hin. destruct Hin as [[[d' y'] c] [E Hin]].
    cbn [fst] in E. inversion E; subst. exists (d, y, c). auto.
Qed.

Lemma coluna_cell (f : Z -> num) (ys : list Z) (y : Z) :
  In y ys -> Graficos.coluna ys y (map f ys) = f y.
Proof.
  induction ys as [|y' ys IH]; [intros [] |].
  cbn [Graficos.coluna map]. intros Hin.
  destruct (y' =? y)%Z eqn:E.
  - apply Z.eqb_eq in E. subst. reflexivity.
  - apply Z.eqb_neq in E. destruct Hin as [-> | Hin]; [contradiction |].
    apply IH, Hin.
Qed.

End Comparativo.

Lemma inr_inj {A B : Type} {x y : B} : @inr A B x = inr y -> x = y.
Proof. intros E. congruence. Qed.

Section ComparativoBinary64.

Local Abbreviation agrupado df := (@Graficos.por_dsei_ano binary64 df).

(** The districts a sorted and cut pivot names are rows of the pivot
    without NaN. *)
Lemma selecionados_complete (t : list (str * Z * float)) (ascending : bool)
    (n : nat) (d : str) :
  In d (map fst
          (Pd.head n
             (@sort_values binary64 Np.argsort _
                (fun r => @Graficos.coluna binary64 (@Graficos.anos binary64 t)
                            2023 (snd r))
                ascending
                (@Graficos.dropna binary64 (@Graficos.pivot_anos binary64 t))))) ->
  forall y, In y (@Graficos.anos binary64 t) ->
            @isna binary64 (@Graficos.pivot_cell binary64 t d y) = false.
Proof.
  intros Hd y Hy. apply in_map_iff in Hd. destruct Hd as [[d' cells] [E Hin]].
  cbn [fst] in E. subst d'. apply In_firstn in Hin.
  apply (Permutation_in _ (sort_values_perm Np.argsort (argsort_ok binary64_laws)
                             _ ascending _)) in Hin.
  unfold Graficos.dropna in Hin. apply filter_In in Hin.
  destruct Hin as [Hin Hall]. cbn [snd] in Hall.
  unfold Graficos.pivot_anos in Hin. apply in_map_iff in Hin.
  destruct Hin as [d0 [E _]]. inversion E; subst d0 cells. clear E.
  rewrite forallb_forall in Hall.
  apply negb_true_iff. apply Hall. apply in_map. exact Hy.
Qed.

Lemma pivot_cell_of_group (df : list linha) (d : str) (y : Z) (c : float) :
  In (d, y, c) (agrupado df) ->
  @Graficos.pivot_cell binary64 (agrupado df) d y = c.
Proof.
  intros Hin. unfold Graficos.pivot_cell.
  rewrite (lookup_unique dsei_ano_laws (d, y) c); [reflexivity | | exact Hin].
  apply (@por_dsei_ano_NoDup binary64).
Qed.

Lemma group_of_pivot_cell (df : list linha) (d : str) (y : Z) :
  @isna binary64 (@Graficos.pivot_cell binary64 (agrupado df) d y) = false ->
  exists c, In (d, y, c) (agrupado df).
Proof.
  unfold Graficos.pivot_cell.
  destruct (Pd.lookup (d, y) (agrupado df)) as [c|] eqn:E.
  - intros _. exists c. apply (lookup_Some_In dsei_ano_laws). exact E.
  - intros Hn. vm_compute in Hn. discriminate.
Qed.

(** X8: [plot_comparativo_cobertura]: when it returns, the table has a year
    2023, the plotted rows are the rows of at most five districts, every
    plotted coverage is a number, and every plotted district has a row
    for each year of the table, so that its bars are complete. *)
Theorem comparativo_plots_complete_districts
    (df_prenatal : DataFrame) (tipo : str) (df_plot : list (str * Z * float)) :
  @Graficos.plot_comparativo_cobertura binary64 Np.argsort df_prenatal tipo
  = inr df_plot ->
  let df_agrupado := @Graficos.por_dsei_ano binary64 (linhas df_prenatal) in
  In 2023%Z (@Graficos.anos binary64 df_agrupado)
  /\ (exists selecionados : list str,
        length selecionados <= 5
        /\ forall g, In g df_plot
                     <-> In g df_agrupado /\ In (fst (fst g)) selecionados)
  /\ (forall g, In g df_plot -> @isna binary64 (snd g) = false)
  /\ (forall g y, In g df_plot -> In y (@Graficos.anos binary64 df_agrupado) ->
        exists c, In (fst (fst g), y, c) df_plot).
Proof.
  intros E df_agrupado. unfold Graficos.plot_comparativo_cobertura in E.
  destruct (Graficos.resolve (columns df_prenatal)) as [e | cols];
    [discriminate |].
  fold df_agrupado in E.
  set (ys := @Graficos.anos binary64 df_agrupado) in *.
  assert (Hsel : exists ascending,
             existsb (Z.eqb 2023) ys = true
             /\ df_plot
                = filter
                    (fun g =>
                       existsb (Py.eqb (fst (fst g)))
                         (map fst
                            (Pd.head 5
                               (@sort_values binary64 Np.argsort _
                                  (fun r => @Graficos.coluna binary64 ys 2023
                                              (snd r))
                                  ascending
                                  (@Graficos.dropna binary64
                                     (@Graficos.pivot_anos binary64
                                        df_agrupado))))))
                    df_agrupado).
  { destruct (Py.eqb tipo (Py.lit "top")).
    - destruct (existsb (Z.eqb 2023) ys); [| discriminate].
      exists false. split; [reflexivity |]. symmetry. exact (inr_inj E).
    - destruct (Py.eqb tipo (Py.lit "bottom")); [| discriminate].
      destruct (existsb (Z.eqb 2023) ys); [| discriminate].
      exists true. split; [reflexivity |]. symmetry. exact (inr_inj E). }
  clear E. destruct Hsel as [ascending [H23 ->]].
  set (nomes := map fst (Pd.head 5 _)).
  assert (Hin : forall g,
             In g (filter (fun g => existsb (Py.eqb (fst (fst g))) nomes)
                          df_agrupado)
             <-> In g df_agrupado /\ In (fst (fst g)) nomes).
  { intros g. rewrite filter_In, existsb_exists. split.
    - intros [Hg [x [Hx Ex]]]. apply py_eqb_eq in Ex. subst x. auto.
    - intros [Hg Hx]. split; auto. exists (fst (fst g)). split; auto.
      apply py_eqb_refl. }
  split; [| split; [| split]].
  - apply existsb_exists in H23. destruct H23 as [y [Hy Ey]].
    apply Z.eqb_eq in Ey. subst y. exact Hy.
  - exists nomes. split; [| exact Hin].
    unfold nomes, Pd.head. rewrite length_map. apply firstn_le_length.
  - intros [[d y] c] Hg. apply Hin in Hg. destruct Hg as [Hg Hd].
    cbn [fst snd] in *.
    rewrite <- (pivot_cell_of_group (linhas df_prenatal) d y c Hg).
    apply (selecionados_complete df_agrupado ascending 5 d Hd).
    apply (@anos_In binary64). exists d. apply in_map_iff. exists (d, y, c). auto.
  - intros [[d y0] c0] y Hg Hy. apply Hin in Hg. destruct Hg as [Hg Hd].
    cbn [fst snd] in *.
    destruct (group_of_pivot_cell (linhas df_prenatal) d y
                (selecionados_complete df_agrupado ascending 5 d Hd y Hy))
      as [c Hc].
    exists c. apply Hin. split; [exact Hc | exact Hd].
Qed.

End ComparativoBinary64.

Lemma comparativo_plots_complete_districts_witness :
  In 2023%Z
     (@Graficos.anos binary64
        (@Graficos.por_dsei_ano binary64 (linhas de_20_para_30))).
Proof.
  apply (proj1 (comparativo_plots_complete_districts de_20_para_30
                  (Py.lit "top")
                  [(Py.lit "A", 2022%Z, 0.2%float);
                   (Py.lit "A", 2023%Z, 0.3%float)]
                  eq_refl)).
Defined.

Lemma take_nil {R : Type} (indexer : list nat) : take (@nil R) indexer = [].
Proof.
  unfold take. induction indexer as [|i l IH]; simpl; auto.
  destruct i; simpl; exact IH.
Qed.

Lemma group_keys_no_key {K : Type} `{Key K} (keys : list (option K)) :
  (forall k, ~ In (Some k) keys) -> Pd.group_keys keys = [].
Proof.
  induction keys as [|[k|] keys IH]; intros Hno; cbn [Pd.group_keys].
  - reflexivity.
  - exfalso. apply (Hno k). left; reflexivity.
  - apply IH. intros k Hk. apply (Hno k). right; exact Hk.
Qed.

(** X9: A table in which no row with a district is of 2023, as when the
    2023 spreadsheet is empty: the chart of 2023 has no row, the
    evolution chart is skipped without a word, and
    [plot_comparativo_cobertura] raises KeyError, which nothing
    catches. *)
Theorem tables_without_2023 `{Num} (argsort : list num -> list nat)
    (df_prenatal : DataFrame) (cols : str * str * str * str)
    (Hcols : Graficos.resolve (columns df_prenatal) = inr cols)
    (Hno : forall r d, In r (linhas df_prenatal) -> dsei r = Some d ->
                       ano r <> 2023%Z) :
  Graficos.plot_cobertura_prenatal argsort df_prenatal 2023 (Py.lit "top")
  = inr []
  /\ Graficos.plot_cobertura_prenatal argsort df_prenatal 2023
       (Py.lit "bottom") = inr []
  /\ Graficos.plot_comparativo_cobertura argsort df_prenatal (Py.lit "top")
     = inl KeyError
  /\ Graficos.plot_comparativo_cobertura argsort df_prenatal (Py.lit "bottom")
     = inl KeyError
  /\ Graficos.comparar_evolucao_cobertura argsort df_prenatal = inr None.
Proof.
  assert (Hg : Graficos.grouped
                 (filter (fun r => (ano r =? 2023)%Z) (linhas df_prenatal))
               = []).
  { unfold Graficos.grouped, agrupar, Pd.groupby.
    rewrite group_keys_no_key; [reflexivity |].
    intros k Hk. apply in_map_iff in Hk. destruct Hk as [r [Ek Hr]].
    apply filter_In in Hr. destruct Hr as [Hr Hy]. apply Z.eqb_eq in Hy.
    apply (Hno r k Hr Ek Hy). }
  assert (Hy : forall g, In g (Graficos.por_dsei_ano (linhas df_prenatal)) ->
                         snd (fst g) <> 2023%Z).
  { intros [[d y] c] Hin. cbn [fst snd].
    assert (Hk : In (d, y) (map fst (Graficos.por_dsei_ano (linhas df_prenatal))))
      by (apply in_map_iff; exists (d, y, c); auto).
    apply por_dsei_ano_In_key in Hk. destruct Hk as [r [Hr [Ed Ey]]].
    subst y. apply (Hno r d Hr Ed). }
  assert (H23 : existsb (Z.eqb 2023)
                  (Graficos.anos (Graficos.por_dsei_ano (linhas df_prenatal)))
                = false).
  { apply not_true_is_false. intros Ex.
    apply existsb_exists in Ex. destruct Ex as [y [Hin Ey]].
    apply Z.eqb_eq in Ey. subst y. apply anos_In in Hin.
    destruct Hin as [d Hin]. apply in_map_iff in Hin.
    destruct Hin as [g [Eg Hin]]. apply (Hy g Hin). rewrite Eg. reflexivity. }
  assert (Hhas : Graficos.has_year
                   (Graficos.por_dsei_ano (linhas df_prenatal)) 2023 = false).
  { unfold Graficos.has_year. apply not_true_is_false. intros Ex.
    apply existsb_exists in Ex. destruct Ex as [g [Hin Ey]].
    apply Z.eqb_eq in Ey. apply (Hy g Hin Ey). }
  unfold Graficos.plot_cobertura_prenatal, Graficos.plot_comparativo_cobertura,
    Graficos.comparar_evolucao_cobertura.
  rewrite Hcols, Hg, H23, Hhas, andb_false_r.
  unfold sort_values, Pd.head. rewrite !take_nil.
  repeat split; reflexivity.
Qed.

Lemma tables_without_2023_witness :
  @Graficos.plot_comparativo_cobertura binary64 Np.argsort
    {| columns := cabecalho_prenatal;
       linhas := [linha_de "A" 100 20 2022] |} (Py.lit "top")
  = inl KeyError.
Proof.
  refine (proj1 (proj2 (proj2
            (@tables_without_2023 binary64 Np.argsort
               {| columns := cabecalho_prenatal;
                  linhas := [linha_de "A" 100 20 2022] |}
               _ eq_refl _)))).
  intros r d [<- | []] _. simpl. discriminate.
Defined.

(** ** The sign of a rounded difference and of a rounded ratio

    Facts about binary64 from the specification of the operations
    ([SpecFloat]): rounding to nearest never turns a number that is not
    zero into zero nor changes its sign, so that the sign of [a - b]
    tells which of the two is the larger, and the ratio of two counts is
    not negative. *)

Section BinaryRounding.
Local Open Scope Z_scope.

(** ** Rounding keeps the sign and never reaches zero *)

Lemma digits2_pos_size (p : positive) : digits2_pos p = Pos.size p.
Proof. induction p; simpl; congruence. Qed.

Lemma digits2_lower (p : positive) : 2 ^ (Zpos (digits2_pos p) - 1) <= Zpos p.
Proof.
  rewrite digits2_pos_size.
  pose proof (Pos.size_le p) as H.
  apply Pos2Z.pos_le_pos in H. rewrite Pos2Z.inj_pow in H.
  change (Z.pos p~0) with (2 * Z.pos p) in H.
  replace (Zpos (Pos.size p)) with (Z.succ (Zpos (Pos.size p) - 1)) in H by lia.
  rewrite Z.pow_succ_r in H by lia. lia.
Qed.

Lemma digits2_upper (p : positive) : Zpos p < 2 ^ Zpos (digits2_pos p).
Proof.
  rewrite digits2_pos_size.
  pose proof (Pos.size_gt p) as H.
  apply Pos2Z.pos_lt_pos in H. rewrite Pos2Z.inj_pow in H. exact H.
Qed.

Lemma shr_1_m (mrs : shr_record) :
  0 <= shr_m mrs -> shr_m (shr_1 mrs) = shr_m mrs / 2.
Proof.
  destruct mrs as [m r s]. cbn [shr_m]. intros Hm.
  destruct m as [|[p|p|]|p]; cbn [shr_1 shr_m]; try lia.
  - reflexivity.
  - apply Z.div_unique with (r := 1); lia.
  - apply Z.div_unique with (r := 0); lia.
  - reflexivity.
Qed.

Lemma pow2_xO (p : positive) : 2 ^ Z.pos p~0 = 2 ^ Z.pos p * 2 ^ Z.pos p.
Proof.
  change (Z.pos p~0) with (2 * Z.pos p).
  replace (2 * Z.pos p) with (Z.pos p + Z.pos p) by lia.
  apply Z.pow_add_r; lia.
Qed.

Lemma pow2_xI (p : positive) : 2 ^ Z.pos p~1 = 2 * (2 ^ Z.pos p * 2 ^ Z.pos p).
Proof.
  change (Z.pos p~1) with (2 * Z.pos p + 1).
  replace (2 * Z.pos p + 1) with (Z.succ (Z.pos p + Z.pos p)) by lia.
  rewrite Z.pow_succ_r by lia. rewrite Z.pow_add_r by lia. reflexivity.
Qed.

Lemma iter_shr_m (p : positive) (mrs : shr_record) :
  0 <= shr_m mrs ->
  shr_m (iter_pos shr_1 p mrs) = shr_m mrs / 2 ^ Zpos p.
Proof.
  revert mrs. induction p as [p IH | p IH |]; intros mrs Hm; cbn [iter_pos].
  - assert (Hp : 0 < 2 ^ Z.pos p) by (apply Z.pow_pos_nonneg; lia).
    assert (H1 : 0 <= shr_m (shr_1 mrs))
      by (rewrite shr_1_m by assumption; apply Z.div_pos; lia).
    assert (H2 : 0 <= shr_m (iter_pos shr_1 p (shr_1 mrs)))
      by (rewrite IH by assumption; apply Z.div_pos; lia).
    rewrite IH, IH, shr_1_m by assumption.
    rewrite !Z.div_div by lia. rewrite pow2_xI. reflexivity.
  - assert (Hp : 0 < 2 ^ Z.pos p) by (apply Z.pow_pos_nonneg; lia).
    assert (H2 : 0 <= shr_m (iter_pos shr_1 p mrs))
      by (rewrite IH by assumption; apply Z.div_pos; lia).
    rewrite IH, IH by assumption.
    rewrite !Z.div_div by lia. rewrite pow2_xO. reflexivity.
  - rewrite shr_1_m by assumption. reflexivity.
Qed.

Lemma shr_record_of_loc_m (m : Z) (l : location) :
  shr_m (shr_record_of_loc m l) = m.
Proof. destruct l as [|[| |]]; reflexivity. Qed.

(** A positive mantissa at an exponent not below [emin] keeps a positive
    mantissa when it is shifted to its format exponent. *)
Lemma shr_fexp_pos (m : positive) (e : Z) (l : location) :
  SpecFloat.emin prec emax <= e ->
  0 < shr_m (fst (shr_fexp prec emax (Zpos m) e l))
  /\ SpecFloat.emin prec emax <= snd (shr_fexp prec emax (Zpos m) e l).
Proof.
  intros He. unfold shr_fexp, shr. simpl Zdigits2.
  set (d := Zpos (digits2_pos m)).
  pose proof (digits2_lower m) as Hl. fold d in Hl.
  assert (Hd : 1 <= d) by (unfold d; lia).
  destruct (fexp prec emax (d + e) - e) as [|n|n] eqn:En; simpl fst; simpl snd.
  - rewrite shr_record_of_loc_m. lia.
  - rewrite iter_shr_m by (rewrite shr_record_of_loc_m; lia).
    rewrite shr_record_of_loc_m. split.
    + apply Z.div_str_pos. split; [apply Z.pow_pos_nonneg; lia |].
      etransitivity; [| exact Hl]. apply Z.pow_le_mono_r; [lia |].
      unfold fexp, SpecFloat.emin, prec, emax in *. lia.
    + lia.
  - rewrite shr_record_of_loc_m. lia.
Qed.

Lemma round_nearest_even_pos (m : Z) (l : location) :
  0 < m -> 0 < round_nearest_even m l.
Proof.
  intros Hm. destruct l as [|[| |]]; simpl; try lia.
  destruct (Z.even m); lia.
Qed.

(** The result of rounding a positive mantissa at an exponent not below
    [emin]: a finite number other than zero, or an infinity, of the
    sign asked for. *)
Lemma binary_round_aux_nonzero (s : bool) (m : positive) (e : Z) (l : location) :
  SpecFloat.emin prec emax <= e ->
  (exists m' e', binary_round_aux prec emax s (Zpos m) e l = S754_finite s m' e')
  \/ binary_round_aux prec emax s (Zpos m) e l = S754_infinity s.
Proof.
  intros He. unfold binary_round_aux.
  destruct (shr_fexp_pos m e l He) as [H1 H1e].
  destruct (shr_fexp prec emax (Zpos m) e l) as [mrs1 e1]. simpl in H1, H1e.
  pose proof (round_nearest_even_pos (shr_m mrs1) (loc_of_shr_record mrs1) H1)
    as H2.
  destruct (round_nearest_even (shr_m mrs1) (loc_of_shr_record mrs1))
    as [|m2|m2]; try lia.
  destruct (shr_fexp_pos m2 e1 loc_Exact H1e) as [H3 _].
  destruct (shr_fexp prec emax (Zpos m2) e1 loc_Exact) as [mrs2 e2].
  simpl in H3. destruct (shr_m mrs2) as [|m3|m3]; try lia.
  destruct (e2 <=? emax - prec); [left; eauto | right; reflexivity].
Qed.

Lemma shl_align_exp (m : positive) (e e' : Z) :
  snd (shl_align m e e') = Z.min e e'.
Proof.
  unfold shl_align. destruct (e' - e) eqn:E; simpl; lia.
Qed.

Lemma binary_round_nonzero (s : bool) (m : positive) (e : Z) :
  SpecFloat.emin prec emax <= e ->
  (exists m' e', binary_round prec emax s m e = S754_finite s m' e')
  \/ binary_round prec emax s m e = S754_infinity s.
Proof.
  intros He. unfold binary_round.
  pose proof (shl_align_exp m e (fexp prec emax (Zpos (digits2_pos m) + e))) as Hs.
  destruct (shl_align m e _) as [mz ez]. simpl in Hs.
  apply binary_round_aux_nonzero.
  subst ez. unfold fexp in *. lia.
Qed.

(** ** The order of the doubles and the sign of a difference *)

Lemma iter_xO (m d : positive) :
  Zpos (Pos.iter xO m d) = Zpos m * 2 ^ Zpos d.
Proof.
  induction d as [|d IH] using Pos.peano_ind.
  - simpl. lia.
  - rewrite Pos.iter_succ. change (Zpos (Pos.iter xO m d)~0)
      with (2 * Zpos (Pos.iter xO m d)).
    rewrite IH, Pos2Z.inj_succ, Z.pow_succ_r by lia. ring.
Qed.

Lemma shl_align_fst (m : positive) (e e' : Z) :
  e' <= e -> Zpos (fst (shl_align m e e')) = Zpos m * 2 ^ (e - e').
Proof.
  intros He. unfold shl_align.
  destruct (e' - e) as [|d|d] eqn:E; simpl fst.
  - replace (e - e') with 0 by lia. simpl. lia.
  - lia.
  - replace (e - e') with (Zpos d) by lia. apply iter_xO.
Qed.

Lemma canonical_digits (m : positive) (e : Z) :
  canonical_mantissa prec emax m e = true ->
  SpecFloat.emin prec emax <= e
  /\ Zpos (digits2_pos m) <= prec
  /\ (SpecFloat.emin prec emax < e -> Zpos (digits2_pos m) = prec).
Proof.
  unfold canonical_mantissa, fexp, SpecFloat.emin, prec, emax.
  rewrite Z.eqb_eq. lia.
Qed.

(** Two canonical mantissas brought to the smaller of their exponents
    compare as the pairs of exponent and mantissa do. *)
Lemma align_lt (mx my : positive) (ex ey : Z) :
  canonical_mantissa prec emax mx ex = true ->
  canonical_mantissa prec emax my ey = true ->
  (Zpos (fst (shl_align mx ex (Z.min ex ey)))
   < Zpos (fst (shl_align my ey (Z.min ex ey)))
   <-> ex < ey \/ (ex = ey /\ (mx < my)%positive)).
Proof.
  intros Cx Cy.
  destruct (canonical_digits mx ex Cx) as [Ex [Dx Nx]].
  destruct (canonical_digits my ey Cy) as [Ey [Dy Ny]].
  rewrite !shl_align_fst by lia.
  pose proof (digits2_lower mx) as Lx. pose proof (digits2_upper mx) as Ux.
  pose proof (digits2_lower my) as Ly. pose proof (digits2_upper my) as Uy.
  assert (P53 : forall d, d <= prec -> 2 ^ d <= 2 ^ prec)
    by (intros d Hd; destruct (Z_lt_le_dec d 0) as [Hn | Hn];
        [rewrite (Z.pow_neg_r 2 d Hn); apply Z.pow_nonneg; lia
        | apply Z.pow_le_mono_r; lia]).
  destruct (Z.lt_trichotomy ex ey) as [H | [H | H]].
  - rewrite Z.min_l by lia. replace (ex - ex) with 0 by lia.
    rewrite Z.pow_0_r, Z.mul_1_r.
    split; [intros _; left; exact H | intros _].
    assert (K : 2 <= 2 ^ (ey - ex)).
    { change 2 with (2 ^ 1) at 1. apply Z.pow_le_mono_r; lia. }
    rewrite (Ny ltac:(lia)) in Ly.
    assert (Ux' : Zpos mx < 2 ^ prec) by (specialize (P53 _ Dx); lia).
    assert (E53 : 2 ^ prec = 2 * 2 ^ (prec - 1)) by reflexivity.
    nia.
  - subst ey. rewrite Z.min_id. replace (ex - ex) with 0 by lia.
    rewrite Z.pow_0_r, !Z.mul_1_r. split.
    + intros Hlt. right. split; [reflexivity | lia].
    + intros [Hlt | [_ Hlt]]; lia.
  - rewrite Z.min_r by lia. replace (ey - ey) with 0 by lia.
    rewrite Z.pow_0_r, Z.mul_1_r.
    split; [| intros [Hlt | [Heq _]]; lia].
    intros Hlt. exfalso.
    assert (K : 2 <= 2 ^ (ex - ey)).
    { change 2 with (2 ^ 1) at 1. apply Z.pow_le_mono_r; lia. }
    rewrite (Nx ltac:(lia)) in Lx.
    assert (Uy' : Zpos my < 2 ^ prec) by (specialize (P53 _ Dy); lia).
    assert (E53 : 2 ^ prec = 2 * 2 ^ (prec - 1)) by reflexivity.
    nia.
Qed.

Lemma SFltb_finite (s1 s2 : bool) (m1 m2 : positive) (e1 e2 : Z) :
  SFltb (S754_finite s1 m1 e1) (S754_finite s2 m2 e2) = true
  <-> match s1, s2 with
      | true, false => True
      | false, true => False
      | false, false => e1 < e2 \/ (e1 = e2 /\ (m1 < m2)%positive)
      | true, true => e2 < e1 \/ (e2 = e1 /\ (m2 < m1)%positive)
      end.
Proof.
  unfold SFltb, SFcompare.
  change (Pos.compare_cont Eq m1 m2) with (Pos.compare m1 m2).
  destruct s1, s2; try (split; [intros _; exact I | reflexivity]);
    try (split; [discriminate | intros []]).
  - destruct (Z.compare_spec e1 e2) as [E | E | E].
    + subst. destruct (Pos.compare_spec m1 m2) as [F | F | F]; simpl;
        split; try discriminate; try lia; intros; auto.
    + split; [discriminate | lia].
    + split; [intros _; lia | reflexivity].
  - destruct (Z.compare_spec e1 e2) as [E | E | E].
    + subst. destruct (Pos.compare_spec m1 m2) as [F | F | F]; simpl;
        split; try discriminate; try lia; intros; auto.
    + split; [intros _; lia | reflexivity].
    + split; [discriminate | lia].
Qed.

Lemma binary_normalize_sign (D e : Z) :
  SpecFloat.emin prec emax <= e ->
  SFltb (S754_zero false) (binary_normalize prec emax D e false)
  = (0 <? D)
  /\ SFltb (binary_normalize prec emax D e false) (S754_zero false)
     = (D <? 0).
Proof.
  intros He. destruct D as [|p|p]; simpl binary_normalize.
  - split; reflexivity.
  - destruct (binary_round_nonzero false p e He) as [[m' [e' ->]] | ->];
      split; reflexivity.
  - destruct (binary_round_nonzero true p e He) as [[m' [e' ->]] | ->];
      split; reflexivity.
Qed.

Lemma bool_eq_iff (a b : bool) : (a = true <-> b = true) -> a = b.
Proof. destruct a, b; intuition congruence. Qed.

(** The sign of a difference of two doubles tells which is the
    greater: no difference of two distinct numbers rounds to zero. *)
Lemma SFsub_sign (x y : spec_float) :
  valid_binary x = true -> valid_binary y = true ->
  SFltb (S754_zero false) (SFsub prec emax x y) = SFltb y x
  /\ SFltb (SFsub prec emax x y) (S754_zero false) = SFltb x y.
Proof.
  intros Vx Vy.
  destruct x as [sx|sx| |sx mx ex], y as [sy|sy| |sy my ey];
    try (split; reflexivity);
    try (destruct sx; split; reflexivity);
    try (destruct sy; split; reflexivity);
    try (destruct sx, sy; split; reflexivity).
  unfold valid_binary in Vx, Vy. simpl in Vx, Vy. unfold bounded in Vx, Vy.
  apply andb_true_iff in Vx, Vy. destruct Vx as [Cx _], Vy as [Cy _].
  destruct (canonical_digits mx ex Cx) as [Ex _].
  destruct (canonical_digits my ey Cy) as [Ey _].
  unfold SFsub.
  destruct (binary_normalize_sign
              (cond_Zopp sx (Zpos (fst (shl_align mx ex (Z.min ex ey))))
               - cond_Zopp sy (Zpos (fst (shl_align my ey (Z.min ex ey)))))
              (Z.min ex ey) ltac:(lia)) as [-> ->].
  pose proof (align_lt mx my ex ey Cx Cy) as Lxy.
  pose proof (align_lt my mx ey ex Cy Cx) as Lyx.
  rewrite (Z.min_comm ey ex) in Lyx.
  pose proof (SFltb_finite sx sy mx my ex ey) as Fxy.
  pose proof (SFltb_finite sy sx my mx ey ex) as Fyx.
  set (X := Zpos (fst (shl_align mx ex (Z.min ex ey)))) in *.
  set (Y := Zpos (fst (shl_align my ey (Z.min ex ey)))) in *.
  assert (HX : 0 < X) by (unfold X; lia).
  assert (HY : 0 < Y) by (unfold Y; lia).
  split; apply bool_eq_iff; rewrite Z.ltb_lt;
    destruct sx, sy; unfold cond_Zopp; try (intuition lia).
  - rewrite Fyx, <- Lxy. lia.
  - rewrite Fyx, <- Lyx. lia.
  - rewrite Fxy, <- Lyx. lia.
  - rewrite Fxy, <- Lxy. lia.
Qed.

(** For all doubles [a] and [b]: [a - b > 0] exactly when [a > b], and
    [a - b < 0] exactly when [a < b]. *)
Lemma sub_sign (a b : float) :
  (0 <? a - b)%float = (b <? a)%float
  /\ (a - b <? 0)%float = (a <? b)%float.
Proof.
  rewrite !ltb_spec, sub_spec.
  change (Prim2SF 0%float) with (S754_zero false).
  apply SFsub_sign; apply Prim2SF_valid.
Qed.

(** ** Integers as doubles *)

Lemma digits2_iter_xO (m k : positive) :
  Zpos (digits2_pos (Pos.iter xO m k)) = Zpos (digits2_pos m) + Zpos k.
Proof.
  induction k as [|k IH] using Pos.peano_ind.
  - simpl. lia.
  - rewrite Pos.iter_succ. cbn [digits2_pos]. rewrite Pos2Z.inj_succ, IH. lia.
Qed.

Lemma digits2_le_prec (z : positive) :
  Zpos z < 2 ^ prec -> Zpos (digits2_pos z) <= prec.
Proof.
  intros Hz. pose proof (digits2_lower z) as Hl.
  destruct (Z_le_gt_dec (Zpos (digits2_pos z)) prec) as [H | H]; auto.
  exfalso.
  assert (K : 2 ^ prec <= 2 ^ (Zpos (digits2_pos z) - 1))
    by (apply Z.pow_le_mono_r; lia).
  lia.
Qed.

(** An integer below 2^53 is a double: rounding it changes nothing. *)
Lemma binary_round_int (s : bool) (z : positive) :
  Zpos z < 2 ^ prec ->
  exists m e, binary_round prec emax s z 0 = S754_finite s m e
              /\ valid_binary (S754_finite s m e) = true.
Proof.
  intros Hz. pose proof (digits2_le_prec z Hz) as Hd.
  set (d := Zpos (digits2_pos z)) in *.
  assert (Hd1 : 1 <= d) by (unfold d; lia).
  unfold binary_round.
  assert (Ef : fexp prec emax (d + 0) = d - prec)
    by (unfold fexp, SpecFloat.emin, prec, emax in *; lia).
  fold d. rewrite Ef.
  assert (Hal : exists mz,
             shl_align z 0 (d - prec) = (mz, d - prec)
             /\ Zpos (digits2_pos mz) = prec).
  { unfold shl_align. destruct (d - prec - 0) as [|k|k] eqn:Ek.
    - exists z. split; [f_equal; lia | fold d; lia].
    - lia.
    - exists (Pos.iter xO z k). split; [reflexivity |].
      rewrite digits2_iter_xO. fold d. lia. }
  destruct Hal as [mz [-> Dz]].
  assert (Ef2 : fexp prec emax (prec + (d - prec)) - (d - prec) = 0)
    by (unfold fexp, SpecFloat.emin, prec, emax in *; lia).
  unfold binary_round_aux, shr_fexp. cbn [Zdigits2 shr_record_of_loc].
  rewrite Dz, Ef2. cbn [shr fst snd shr_m loc_of_shr_record round_nearest_even
                        Zdigits2 shr_record_of_loc].
  rewrite Dz, Ef2. cbn [shr fst snd shr_m].
  assert (Hb : (d - prec <=? emax - prec) = true)
    by (apply Z.leb_le; unfold prec, emax in *; lia).
  rewrite Hb. exists mz, (d - prec). split; [reflexivity |].
  unfold valid_binary, SpecFloat.valid_binary, bounded, canonical_mantissa.
  rewrite Dz, Hb, andb_true_r. apply Z.eqb_eq.
  unfold fexp, SpecFloat.emin, prec, emax in *. lia.
Qed.

End BinaryRounding.

Section Quotients.
Local Open Scope Z_scope.

Lemma shr_fexp_nonneg (m e : Z) (l : location) :
  0 <= m -> 0 <= shr_m (fst (shr_fexp prec emax m e l)).
Proof.
  intros Hm. unfold shr_fexp, shr.
  destruct (fexp prec emax (Zdigits2 m + e) - e) as [|n|n]; cbn [fst];
    try (rewrite shr_record_of_loc_m; exact Hm).
  rewrite iter_shr_m by (rewrite shr_record_of_loc_m; exact Hm).
  rewrite shr_record_of_loc_m. apply Z.div_pos; [exact Hm |].
  apply Z.pow_pos_nonneg; lia.
Qed.

Lemma round_nearest_even_nonneg (m : Z) (l : location) :
  0 <= m -> 0 <= round_nearest_even m l.
Proof.
  intros Hm. destruct l as [|[| |]]; simpl; try lia.
  destruct (Z.even m); lia.
Qed.

(** Rounding a mantissa that is not negative gives a zero, a finite
    number or an infinity of the sign asked for, never NaN. *)
Lemma binary_round_aux_sign (s : bool) (m e : Z) (l : location) :
  0 <= m ->
  binary_round_aux prec emax s m e l = S754_zero s
  \/ (exists m' e', binary_round_aux prec emax s m e l = S754_finite s m' e')
  \/ binary_round_aux prec emax s m e l = S754_infinity s.
Proof.
  intros Hm. unfold binary_round_aux.
  pose proof (shr_fexp_nonneg m e l Hm) as H1.
  destruct (shr_fexp prec emax m e l) as [mrs1 e1]. cbn [fst] in H1.
  pose proof (round_nearest_even_nonneg _ (loc_of_shr_record mrs1) H1) as H2.
  pose proof (shr_fexp_nonneg _ e1 loc_Exact H2) as H3.
  destruct (shr_fexp prec emax _ e1 loc_Exact) as [mrs2 e2]. cbn [fst] in H3.
  destruct (shr_m mrs2) as [|m3|m3]; [left; reflexivity | | lia].
  right. destruct (e2 <=? emax - prec); [left; eauto | right; reflexivity].
Qed.

Lemma SFdiv_core_nonneg (m1 m2 : positive) (e1 e2 : Z) :
  0 <= fst (fst (SFdiv_core_binary prec emax (Zpos m1) e1 (Zpos m2) e2)).
Proof.
  unfold SFdiv_core_binary.
  set (s := _ - _ - Z.min _ _).
  set (m' := match s with Z0 => Zpos m1 | Zpos _ => Z.shiftl (Zpos m1) s
                        | Zneg _ => 0 end).
  assert (Hm : 0 <= m').
  { unfold m'. destruct s; try lia. apply Z.shiftl_nonneg. lia. }
  pose proof (Z_div_mod m' (Zpos m2) ltac:(lia)) as Hd.
  destruct (Z.div_eucl m' (Zpos m2)) as [q r]. cbn [fst].
  destruct Hd as [Hq Hr]. nia.
Qed.

(** A quotient of two doubles that are not negative is not negative. *)
Lemma SFdiv_finite_sign (sx sy : bool) (mx my : positive) (ex ey : Z) :
  let q := SFdiv prec emax (S754_finite sx mx ex) (S754_finite sy my ey) in
  q = S754_zero (xorb sx sy)
  \/ (exists m e, q = S754_finite (xorb sx sy) m e)
  \/ q = S754_infinity (xorb sx sy).
Proof.
  cbv zeta. unfold SFdiv.
  pose proof (SFdiv_core_nonneg mx my ex ey) as Hq.
  destruct (SFdiv_core_binary prec emax (Zpos mx) ex (Zpos my) ey)
    as [[mz ez] lz]. cbn [fst] in Hq.
  apply binary_round_aux_sign, Hq.
Qed.

End Quotients.

(** ** Counts as doubles *)

Lemma Prim2SF_Z2float_0 : Prim2SF (Z2float 0) = S754_zero false.
Proof. reflexivity. Qed.

Lemma Prim2SF_Z2float_pos (z : Z) :
  (0 < z < 2 ^ 53)%Z ->
  exists m e, Prim2SF (Z2float z) = S754_finite false m e.
Proof.
  intros Hz. destruct z as [|p|p]; try lia.
  destruct (binary_round_int false p) as [m [e [E V]]]; [apply Hz |].
  exists m, e. unfold Z2float. cbn [binary_normalize]. rewrite E.
  apply Prim2SF_SF2Prim, V.
Qed.


Lemma float_of_sf (x : float) (s : spec_float) (y : float) :
  Prim2SF x = s -> Prim2SF y = s -> x = y.
Proof. intros Ex Ey. apply Prim2SF_inj. congruence. Qed.

(** The ratio of two counts that are not negative: never below zero,
    NaN only for 0/0, and +infinity for a positive count over zero. *)
Lemma razao_nonneg (c g : Z) :
  (0 <= c < 2 ^ 53)%Z -> (0 <= g < 2 ^ 53)%Z ->
  (@razao binary64 c g <? 0)%float = false
  /\ (is_nan (@razao binary64 c g) = true <-> c = 0%Z /\ g = 0%Z)
  /\ (g = 0%Z -> (0 < c)%Z -> @razao binary64 c g = infinity).
Proof.
  intros Hc Hg. unfold razao. cbn [div of_int binary64].
  rewrite ltb_spec, is_nan_spec, div_spec.
  change (Prim2SF 0%float) with (S754_zero false).
  assert (Cc : c = 0%Z \/ (0 < c < 2 ^ 53)%Z) by lia.
  assert (Cg : g = 0%Z \/ (0 < g < 2 ^ 53)%Z) by lia.
  destruct Cc as [-> | Cc], Cg as [-> | Cg].
  - rewrite Prim2SF_Z2float_0. cbn. repeat split; auto; lia.
  - destruct (Prim2SF_Z2float_pos g Cg) as [m [e Eg]].
    rewrite Prim2SF_Z2float_0, Eg. cbn. repeat split; try lia; discriminate.
  - destruct (Prim2SF_Z2float_pos c Cc) as [m [e Ec]].
    rewrite Prim2SF_Z2float_0, Ec. cbn.
    split; [reflexivity |]. split; [split; [discriminate | lia] |].
    intros _ _. apply (float_of_sf _ (S754_infinity false)); [| reflexivity].
    rewrite div_spec, Ec. reflexivity.
  - destruct (Prim2SF_Z2float_pos c Cc) as [mc [ec Ec]].
    destruct (Prim2SF_Z2float_pos g Cg) as [mg [eg Eg]].
    rewrite Ec, Eg. unfold SF64div.
    destruct (SFdiv_finite_sign false false mc mg ec eg)
      as [-> | [[m [e ->]] | ->]]; cbn;
      (split; [reflexivity |]); (split; [split; [discriminate | lia] | lia]).
Qed.

(** ** The counters of the gap summary *)

Lemma filter_length_ext {A : Type} (f g : A -> bool) (l : list A) :
  (forall x, In x l -> f x = g x) ->
  length (filter f l) = length (filter g l).
Proof.
  intros H. f_equal. apply filter_ext_in. exact H.
Qed.

Lemma filter_disjoint_length {A : Type} (f g : A -> bool) (l : list A) :
  (forall x, In x l -> f x = true -> g x = false) ->
  (length (filter f l) + length (filter g l) <= length l)%nat.
Proof.
  induction l as [|x l IH]; intros H; simpl; [lia |].
  assert (IH' : (length (filter f l) + length (filter g l) <= length l)%nat)
    by (apply IH; intros y Hy; apply H; right; exact Hy).
  specialize (H x (or_introl eq_refl)).
  destruct (f x) eqn:Fx, (g x) eqn:Gx; simpl; try lia.
  all: specialize (H eq_refl); discriminate.
Qed.

(** X10: The two counters that [analisar_gap_tecnologico] prints count what
    their labels say, also after rounding: the gap of a district is
    above zero exactly when its prenatal coverage is above its
    ultrasound coverage, and below zero exactly when it is below.  A
    district with equal coverages, or with a coverage that is NaN, is in
    neither count. *)
Theorem gap_counters_compare_coverages
    (p22 p23 u22 u23 : DataFrame)
    (df_sorted : list (@AnaliseGap.gap_row binary64)) :
  @AnaliseGap.create_heatmap_comparison binary64 Np.argsort p22 p23 u22 u23
  = inr df_sorted ->
  @AnaliseGap.gap_positivo binary64 df_sorted
  = length (filter (fun r => @lt binary64 (AnaliseGap.cobertura_ultrassom r)
                                          (AnaliseGap.cobertura_prenatal r))
                   df_sorted)
  /\ @AnaliseGap.gap_negativo binary64 df_sorted
     = length (filter (fun r => @lt binary64 (AnaliseGap.cobertura_prenatal r)
                                             (AnaliseGap.cobertura_ultrassom r))
                      df_sorted)
  /\ (@AnaliseGap.gap_positivo binary64 df_sorted
      + @AnaliseGap.gap_negativo binary64 df_sorted <= length df_sorted)%nat.
Proof.
  intros E.
  destruct (heatmap_is_gap_table p22 p23 u22 u23 df_sorted E) as [Hp _].
  assert (Hgap : forall r, In r df_sorted ->
             AnaliseGap.gap r
             = @sub binary64 (AnaliseGap.cobertura_prenatal r)
                             (AnaliseGap.cobertura_ultrassom r)).
  { intros r Hr. apply (Permutation_in _ Hp) in Hr.
    apply (proj1 (@gap_table_In binary64 _ _ r)) in Hr.
    destruct Hr as [k [a [b [_ [_ ->]]]]]. reflexivity. }
  unfold AnaliseGap.gap_positivo, AnaliseGap.gap_negativo.
  split; [| split].
  - apply filter_length_ext. intros r Hr. rewrite (Hgap r Hr).
    apply (sub_sign (AnaliseGap.cobertura_prenatal r)
                    (AnaliseGap.cobertura_ultrassom r)).
  - apply filter_length_ext. intros r Hr. rewrite (Hgap r Hr).
    apply (sub_sign (AnaliseGap.cobertura_prenatal r)
                    (AnaliseGap.cobertura_ultrassom r)).
  - apply filter_disjoint_length. intros r _ Hpos.
    apply (lt_asym binary64_laws). exact Hpos.
Qed.

Lemma gap_counters_compare_coverages_witness :
  (@AnaliseGap.gap_positivo binary64
    [@AnaliseGap.Build_gap_row binary64 (Py.lit "B") 0.5%float 0.5%float 0%float;
     @AnaliseGap.Build_gap_row binary64 (Py.lit "A") nan nan nan]
  + @AnaliseGap.gap_negativo binary64
      [@AnaliseGap.Build_gap_row binary64 (Py.lit "B") 0.5%float 0.5%float 0%float;
       @AnaliseGap.Build_gap_row binary64 (Py.lit "A") nan nan nan]
  <= 2)%nat.
Proof.
  apply (proj2 (proj2 (gap_counters_compare_coverages
                         sem_gestantes_em_A
                         (so_cabecalho (columns sem_gestantes_em_A))
                         sem_gestantes_em_A
                         (so_cabecalho (columns sem_gestantes_em_A))
                         _ eq_refl))).
Defined.

(** ** The range of a coverage *)

(** X11: The coverage of a group or of a row whose two counts are not
    negative (and below 2^53, so that they are doubles) is never below
    zero.  In [process_prenatal_data] and [process_ultrassom_data] it
    is never NaN either, it is 0 for a group without any count and
    +infinity for a group without pregnant women but with a positive
    count; in [ultrassom_coverage_analysis], which keeps only rows with
    pregnant women, it is never NaN. *)
Theorem coverage_is_not_negative :
  (forall (df : list linha) (g : @grupo binary64),
      In g (@PrenatalUltrassonografia.process binary64 df) ->
      (0 <= g_contagem g < 2 ^ 53)%Z -> (0 <= g_gestantes g < 2 ^ 53)%Z ->
      @lt binary64 (cobertura g) (of_int 0) = false
      /\ @isna binary64 (cobertura g) = false
      /\ (g_gestantes g = 0%Z -> g_contagem g = 0%Z ->
          cobertura g = @of_int binary64 0)
      /\ (g_gestantes g = 0%Z -> (0 < g_contagem g)%Z ->
          cobertura g = infinity))
  /\ (forall (df : list linha) (m : @Ultrassons.medida binary64),
        In m (@Ultrassons.validas binary64 df) ->
        (0 <= Ultrassons.m_ultrassons m < 2 ^ 53)%Z ->
        (Ultrassons.m_gestantes m < 2 ^ 53)%Z ->
        @lt binary64 (Ultrassons.m_cobertura m) (of_int 0) = false
        /\ @isna binary64 (Ultrassons.m_cobertura m) = false).
Proof.
  split.
  - intros df g Hin Hc Hg. rewrite (@process_In binary64 df g Hin).
    destruct (razao_nonneg (g_contagem g) (g_gestantes g) Hc Hg)
      as [Hneg [Hnan Hinf]].
    unfold fillna0.
    destruct (@isna binary64 (@razao binary64 (g_contagem g) (g_gestantes g)))
      eqn:En.
    + destruct (proj1 Hnan En) as [Ec Eg].
      split; [reflexivity |]. split; [reflexivity |].
      split; [reflexivity |]. intros _ Hpos. lia.
    + split; [exact Hneg |]. split; [exact En |]. split.
      * intros Eg Ec. assert (T : true = false).
        { rewrite <- En. symmetry. apply (proj2 Hnan). split; assumption. }
        discriminate T.
      * exact Hinf.
  - intros df m Hin Hu Hg.
    destruct (@validas_In binary64 df m Hin) as [Hpos [Ecov _]].
    rewrite Ecov.
    assert (Hg' : (0 <= Ultrassons.m_gestantes m < 2 ^ 53)%Z) by lia.
    destruct (razao_nonneg (Ultrassons.m_ultrassons m)
                (Ultrassons.m_gestantes m) Hu Hg') as [Hneg [Hnan _]].
    split; [exact Hneg |].
    destruct (@isna binary64 (@razao binary64 (Ultrassons.m_ultrassons m)
                                (Ultrassons.m_gestantes m))) eqn:En;
      [| reflexivity].
    destruct (proj1 Hnan En) as [_ Eg]. lia.
Qed.

Lemma coverage_is_not_negative_witness :
  let g := @Build_grupo binary64 (Py.lit "A") 0 5 infinity in
  @isna binary64 (cobertura g) = false /\ cobertura g = infinity.
Proof.
  intro g.
  destruct (proj1 coverage_is_not_negative
              [{| dsei := Some (Py.lit "A"); gestantes := Some 0%Z;
                  contagem := Some 5%Z; ano := 2022%Z |}] g)
    as [_ [Hn [_ Hi]]].
  - left. reflexivity.
  - unfold g. cbn [g_contagem]. split; [lia | reflexivity].
  - unfold g. cbn [g_gestantes]. split; [lia | reflexivity].
  - split; [exact Hn | apply Hi; [reflexivity | reflexivity]].
Defined.

(** ** Districts without live births *)




(** ** The two renamings of ultrassons.py *)

Lemma renamed_eq (cols : list str) :
  Ultrassons.renamed cols
  = map (fun c => Ultrassons.rename_2022 (Py.lower (Py.strip c))) cols.
Proof. reflexivity. Qed.

Lemma column_mapping_of_rename_2022 (c : str) :
  conhecida (Ultrassons.rename_2022 c) ->
  Ultrassons.column_mapping c = Ultrassons.rename_2022 c.
Proof.
  unfold Ultrassons.rename_2022.
  destruct (Py.eqb c (Py.lit "dsei_gestao")) eqn:E1.
  { apply py_eqb_eq in E1. subst c. intros _. reflexivity. }
  destruct (Py.eqb c (Py.lit "n" ++ [ordinal_o] ++ Py.lit " gestantes")) eqn:E2.
  { apply py_eqb_eq in E2. subst c. intros _. reflexivity. }
  destruct (Py.eqb c (Py.lit "com acesso ao exame de ultrassom")) eqn:E3.
  { apply py_eqb_eq in E3. subst c. intros _. reflexivity. }
  intros [-> | [-> | ->]]; reflexivity.
Qed.

Lemma has_renamed_2023 (cols : list str) (name : str) :
  conhecida name ->
  Ultrassons.has (Ultrassons.renamed cols) name = true ->
  Ultrassons.has (Ultrassons.renamed_2023 cols) name = true.
Proof.
  intros K. unfold Ultrassons.has. rewrite renamed_eq.
  unfold Ultrassons.renamed_2023. rewrite !existsb_exists.
  intros [x [Hin E]]. apply in_map_iff in Hin. destruct Hin as [h [<- Hh]].
  exists (Ultrassons.rename_2022 (Py.lower (Py.strip h))). split; [| exact E].
  apply in_map_iff. exists h. split; [| exact Hh].
  apply column_mapping_of_rename_2022.
  apply py_eqb_eq in E. rewrite <- E. exact K.
Qed.

Lemma rename_2022_cases (c : str) :
  Ultrassons.rename_2022 c = c \/ conhecida (Ultrassons.rename_2022 c).
Proof.
  unfold Ultrassons.rename_2022, conhecida.
  destruct (Py.eqb c (Py.lit "dsei_gestao")); [auto |].
  destruct (Py.eqb c (Py.lit "n" ++ [ordinal_o] ++ Py.lit " gestantes")); [auto |].
  destruct (Py.eqb c (Py.lit "com acesso ao exame de ultrassom")); auto.
Qed.

Lemma column_mapping_coarser (a b : str) :
  Ultrassons.rename_2022 a = Ultrassons.rename_2022 b ->
  Ultrassons.column_mapping a = Ultrassons.column_mapping b.
Proof.
  intros E.
  destruct (rename_2022_cases a) as [Ea | Ka].
  - destruct (rename_2022_cases b) as [Eb | Kb].
    + congruence.
    + rewrite (column_mapping_of_rename_2022 b Kb).
      rewrite <- E in Kb |- *.
      apply column_mapping_of_rename_2022. exact Kb.
  - rewrite (column_mapping_of_rename_2022 a Ka).
    rewrite E in Ka |- *. symmetry.
    apply column_mapping_of_rename_2022. exact Ka.
Qed.

Lemma NoDup_map_coarser {A B C : Type} (f : A -> B) (g : A -> C) (l : list A) :
  (forall x y, g x = g y -> f x = f y) ->
  NoDup (map f l) -> NoDup (map g l).
Proof.
  intros Hfg. induction l as [|x l IH]; simpl; intros Hnd; [constructor |].
  inversion Hnd as [| ? ? Hx Hl]; subst. constructor; [| apply IH; exact Hl].
  intros Hin. apply Hx. apply in_map_iff in Hin. destruct Hin as [y [E Hy]].
  apply in_map_iff. exists y. split; [| exact Hy].
  symmetry. apply Hfg. symmetry. exact E.
Qed.

(** X13: Every table [ultrassom_coverage_analysis] accepts is accepted by
    [ultrassom_coverage_analysis_2023], with the same result, as long as
    the looser renaming of the latter gives no name twice; the converse
    fails. *)
Theorem analysis_2023_accepts_2022_tables
    (df : DataFrame)
    (res : list (@Ultrassons.medida binary64) * list (@Ultrassons.medida binary64)) :
  NoDup (Ultrassons.renamed_2023 (columns df)) ->
  @Ultrassons.ultrassom_coverage_analysis binary64 Np.argsort df = inr res ->
  @Ultrassons.ultrassom_coverage_analysis_2023 binary64 Np.argsort df = inr res
  /\ NoDup (Ultrassons.renamed (columns df))
  /\ @Ultrassons.ultrassom_coverage_analysis binary64 Np.argsort
       (so_cabecalho cabecalhos_2023) = inl KeyError
  /\ @Ultrassons.ultrassom_coverage_analysis_2023 binary64 Np.argsort
       (so_cabecalho cabecalhos_2023) = inr ([], []).
Proof.
  intros Hnd E. split; [| split; [| split; reflexivity]].
  - unfold Ultrassons.ultrassom_coverage_analysis in E.
    unfold Ultrassons.ultrassom_coverage_analysis_2023.
    destruct (Ultrassons.has (Ultrassons.renamed (columns df)) (Py.lit "gestantes"))
      eqn:Hg; [| discriminate E].
    destruct (Ultrassons.has (Ultrassons.renamed (columns df)) (Py.lit "ultrassons"))
      eqn:Hu; [| discriminate E].
    destruct (Ultrassons.has (Ultrassons.renamed (columns df)) (Py.lit "dsei"))
      eqn:Hd; [| discriminate E].
    rewrite (has_renamed_2023 _ _ (or_intror (or_introl eq_refl)) Hg).
    rewrite (has_renamed_2023 _ _ (or_intror (or_intror eq_refl)) Hu).
    rewrite (has_renamed_2023 _ _ (or_introl eq_refl) Hd).
    exact E.
  - rewrite renamed_eq. unfold Ultrassons.renamed_2023 in Hnd.
    revert Hnd. apply NoDup_map_coarser. intros x y.
    apply column_mapping_coarser.
Qed.

Lemma analysis_2023_accepts_2022_tables_witness :
  @Ultrassons.ultrassom_coverage_analysis_2023 binary64 Np.argsort
    (so_cabecalho [DSEI_GESTAO; N_GESTANTES; COM_ACESSO_AO_EXAME])
  = inr ([], []).
Proof.
  apply (analysis_2023_accepts_2022_tables
           (so_cabecalho [DSEI_GESTAO; N_GESTANTES; COM_ACESSO_AO_EXAME])).
  - apply distinct_NoDup. reflexivity.
  - reflexivity.
Defined.
